(** * Beat-synchronised audio resynthesis: a shallow embedding

    The development follows the TypeScript sources of the hardstyle-ifier:
    - [Buffer]: the server-side mixer [processAudioWithBeats]
      (src/unnamed/part_000, the module the upload route imports as
      [buffer]);
    - [TickTock]: the tick-and-tock [processAudioInBrowser]
      (src/unnamed/part_001);
    - [Sidechain]: the three-phase ducking [processAudioInBrowser]
      (src/unnamed/part_002);
    - [AudioProcessor]: the attack-and-hold ducking [processAudioInBrowser]
      (src/app/audioProcessor.ts);
    - [Brainrot]: [generateBrainrotSong] and the WAV writer
      [audioBufferToWav] (src/app/brainrotProcessor.ts).

    Number model.  JavaScript numbers are idealised as exact rationals
    ([Q]); rounding of IEEE arithmetic and of [Float32Array] stores is not
    modelled.  The one non-finite value the code manufactures on its own,
    the [NaN] obtained by reading past the end of the beat array, is
    modelled explicitly ([None] in [index]).  Sample positions are
    integers ([Z]): they are results of [Math.floor]. *)

From Stdlib Require Import ZArith QArith Qround Qabs Qminmax Lia Lqa.
From stdpp Require Import base list.

Local Open Scope Z_scope.

(** ** JavaScript primitives used by the sources *)

Module JS.

(** A [Float32Array]: fixed length, rational samples. *)
Abbreviation Float32Array := (list Q).

(** An integer-valued JS number or [NaN] ([None]). *)
Definition index := option Z.

Definition index_add (p : index) (i : Z) : index :=
  match p with Some z => Some (z + i) | None => None end.

(** [p < n]; every comparison with [NaN] is false. *)
Definition index_lt (p : index) (n : Z) : bool :=
  match p with Some z => z <? n | None => false end.

(** [a[i]] on an array: [undefined] ([None]) outside [0, length). *)
Definition get {A} (a : list A) (i : Z) : option A :=
  if 0 <=? i then a !! Z.to_nat i else None.

(** [a[i] = v] on a typed array: a store outside [0, length) is dropped;
    the array never grows and nothing is raised. *)
Definition store (a : Float32Array) (i : Z) (v : Q) : Float32Array :=
  if (0 <=? i) && (i <? Z.of_nat (length a)) then <[Z.to_nat i := v]> a else a.

(** [a[p] += v]: read, add, store.  Out of range the read is
    [undefined], the sum is [NaN] and the store is dropped. *)
Definition add_at (a : Float32Array) (p : index) (v : Q) : Float32Array :=
  match p with
  | Some i => match get a i with
              | Some x => store a i (x + v)%Q
              | None => a
              end
  | None => a
  end.

(** [a[i] *= g]; the cell keeps the exact product (see the number
    model). *)
Definition mul_at (a : Float32Array) (i : Z) (g : Q) : Float32Array :=
  match get a i with
  | Some x => store a i (x * g)%Q
  | None => a
  end.

(** Relative index resolution of [slice(start, end)]. *)
Definition relative (len k : Z) : Z :=
  if k <? 0 then Z.max (len + k) 0 else Z.min k len.

(** [a.slice(start, end)]: a fresh array holding the elements from
    the resolved [start] up to, not including, the resolved [end]. *)
Definition slice {A} (a : list A) (start end_ : Z) : list A :=
  let len := Z.of_nat (length a) in
  let first := relative len start in
  let final := relative len end_ in
  take (Z.to_nat (final - first)) (drop (Z.to_nat first) a).

(** [Math.max(-1, Math.min(1, x))]. *)
Definition clamp (x : Q) : Q := Qmax (-1) (Qmin 1 x).

(** [x < y] on finite numbers. *)
Definition lt (x y : Q) : bool := negb (Qle_bool y x).

(** Truncation toward zero (the integer part taken by [ToInt16]). *)
Definition trunc (x : Q) : Z :=
  if lt x 0 then Qceiling x else Qfloor x.

(** Storing an integer in an [Int16Array] slot or through
    [DataView.setInt16]: reduction modulo 2^16 into the signed range. *)
Definition toInt16 (z : Z) : Z := (z + 32768) mod 65536 - 32768.

(** [arr.forEach((x, index, arr) => ...)] threading the state the callback
    mutates. *)
Fixpoint forEach_from {A S} (f : A -> nat -> list A -> S -> S)
    (arr : list A) (index : nat) (todo : list A) (st : S) : S :=
  match todo with
  | [] => st
  | x :: todo' => forEach_from f arr (Datatypes.S index) todo' (f x index arr st)
  end.

Definition forEach {A S} (f : A -> nat -> list A -> S -> S)
    (arr : list A) (st : S) : S :=
  forEach_from f arr 0%nat arr st.

End JS.

(** ** The overlay loop shared by every mixer

    [for (let i = 0; i < samples.length; i++) {
       const outputIndex = position + i;
       if (outputIndex < totalSamples) output[outputIndex] += samples[i] * gain; }] *)

Fixpoint addSound_from (samples : list Q) (i : Z) (position : JS.index)
    (gain : Q) (totalSamples : Z) (output : JS.Float32Array) : JS.Float32Array :=
  match samples with
  | [] => output
  | s :: rest =>
      let outputIndex := JS.index_add position i in
      let output' :=
        if JS.index_lt outputIndex totalSamples
        then JS.add_at output outputIndex (s * gain)%Q
        else output in
      addSound_from rest (i + 1) position gain totalSamples output'
  end.

Definition addSound (samples : list Q) (position : JS.index) (gain : Q)
    (totalSamples : Z) (output : JS.Float32Array) : JS.Float32Array :=
  addSound_from samples 0 position gain totalSamples output.

(** ** src/unnamed/part_000 (buffer.ts): [processAudioWithBeats] *)

Module Buffer.

(** Lines 40-43: the original at half volume. *)
Definition copyOriginal (music : list Q) : JS.Float32Array :=
  map (fun x => x * (1 # 2))%Q music.

(** Line 47. *)
Definition samplePosition (tickTime : Q) (sampleRate : Z) : Z :=
  Qfloor (tickTime * inject_Z sampleRate).

(** Lines 48-49: [arr[index + 1]] is [undefined] for the last beat, which
    makes the half-beat time, and its floor, [NaN]. *)
Definition halfBeatPostition (tickTime : Q) (index : nat) (arr : list Q)
    (sampleRate : Z) : JS.index :=
  match arr !! Datatypes.S index with
  | Some next =>
      let halfBeatSeconds := (tickTime + Qabs (next - tickTime) / 2)%Q in
      Some (Qfloor (halfBeatSeconds * inject_Z sampleRate))
  | None => None
  end.

(** Lines 46-66: the callback of [ticks.slice(0).forEach]. *)
Definition addBeat (tickSamples tockSamples : list Q) (sampleRate totalSamples : Z)
    (tickTime : Q) (index : nat) (arr : list Q)
    (outputBuffer : JS.Float32Array) : JS.Float32Array :=
  let out1 := addSound tickSamples (Some (samplePosition tickTime sampleRate))
                (4 # 10) totalSamples outputBuffer in
  addSound tockSamples (halfBeatPostition tickTime index arr sampleRate)
    (4 # 10) totalSamples out1.

(** Lines 36-66: the floating-point mix before quantisation. *)
Definition mix (music : list Q) (sampleRate : Z) (ticks tickSamples tockSamples : list Q)
    : JS.Float32Array :=
  let totalSamples := Z.of_nat (length music) in
  JS.forEach (addBeat tickSamples tockSamples sampleRate totalSamples)
    ticks (copyOriginal music).

(** Lines 71-72, one sample: clamp, scale by 32767, [Math.floor], store
    in the [Int16Array]. *)
Definition int16Sample (x : Q) : Z :=
  let sample := JS.clamp x in
  JS.toInt16 (Qfloor (sample * 32767)).

(** Lines 68-73. *)
Definition int16Buffer (outputBuffer : JS.Float32Array) : list Z :=
  map int16Sample outputBuffer.

Definition processAudioWithBeats (music : list Q) (sampleRate : Z)
    (ticks tickSamples tockSamples : list Q) : list Z :=
  int16Buffer (mix music sampleRate ticks tickSamples tockSamples).

End Buffer.

(** ** src/unnamed/part_001: the tick-and-tock [processAudioInBrowser] *)

Module TickTock.

(** Lines 70-73. *)
Definition copyOriginal (audioData : list Q) : JS.Float32Array :=
  map (fun x => x * (1 # 2))%Q audioData.

Definition samplePosition (beatTime : Q) (sampleRate : Z) : Z :=
  Qfloor (beatTime * inject_Z sampleRate).

(** Line 78: [arr[index + 1] || beatTime + 0.5].  The right operand is
    taken when the left one is falsy: [undefined] past the end of the
    array, and also the number [0]. *)
Definition nextBeat (beatTime : Q) (index : nat) (arr : list Q) : Q :=
  match arr !! S index with
  | Some next => if Qeq_bool next 0 then (beatTime + (1 # 2))%Q else next
  | None => (beatTime + (1 # 2))%Q
  end.

(** Line 79. *)
Definition halfBeatSeconds (beatTime : Q) (index : nat) (arr : list Q) : Q :=
  (beatTime + Qabs (nextBeat beatTime index arr - beatTime) / 2)%Q.

(** Line 80. *)
Definition halfBeatPosition (beatTime : Q) (index : nat) (arr : list Q)
    (sampleRate : Z) : Z :=
  Qfloor (halfBeatSeconds beatTime index arr * inject_Z sampleRate).

(** Lines 76-97: the callback of [beats.forEach]. *)
Definition addBeat (tickSamples tockSamples : list Q) (sampleRate totalSamples : Z)
    (beatTime : Q) (index : nat) (arr : list Q)
    (outputData : JS.Float32Array) : JS.Float32Array :=
  let out1 := addSound tickSamples (Some (samplePosition beatTime sampleRate))
                (4 # 10) totalSamples outputData in
  addSound tockSamples (Some (halfBeatPosition beatTime index arr sampleRate))
    (4 # 10) totalSamples out1.

Definition processAudioInBrowser (audioData : list Q) (sampleRate : Z)
    (beats tickSamples tockSamples : list Q) : JS.Float32Array :=
  let totalSamples := Z.of_nat (length audioData) in
  JS.forEach (addBeat tickSamples tockSamples sampleRate totalSamples)
    beats (copyOriginal audioData).

End TickTock.

(** ** src/unnamed/part_002: the three-phase sidechain [processAudioInBrowser] *)

Module Sidechain.

(** Lines 52-55: the original at full volume. *)
Definition copyOriginal (audioData : list Q) : JS.Float32Array :=
  map (fun x => x) audioData.

Definition duckAmount : Q := 2 # 10.

Definition attackSamples (sampleRate : Z) : Z :=
  Qfloor ((1 # 100) * inject_Z sampleRate).

Definition releaseSamples (sampleRate : Z) : Z :=
  Qfloor ((15 # 100) * inject_Z sampleRate).

(** Lines 72-84: the gain at offset [i] from the beat. *)
Definition envelope (attack kickDuration release : Z) (i : Z) : Q :=
  if i <? attack then
    (1 - (1 - duckAmount) * (inject_Z i / inject_Z attack))%Q
  else if i <? kickDuration then
    duckAmount
  else
    let releaseProgress := (inject_Z (i - kickDuration) / inject_Z release)%Q in
    (duckAmount + (1 - duckAmount) * releaseProgress)%Q.

(** Lines 70-87:
    [for (let i = 0; i < duckDuration && samplePosition + i < totalSamples; i++)].
    The loop runs at most [duckDuration] times, which is the fuel given
    by [duck]. *)
Fixpoint duck_from (fuel : nat) (i : Z) (attack kickDuration release : Z)
    (samplePosition totalSamples : Z) (outputData : JS.Float32Array)
    : JS.Float32Array :=
  match fuel with
  | O => outputData
  | S fuel' =>
      let duckDuration := kickDuration + release in
      if (i <? duckDuration) && (samplePosition + i <? totalSamples) then
        let outputIndex := samplePosition + i in
        duck_from fuel' (i + 1) attack kickDuration release samplePosition
          totalSamples
          (JS.mul_at outputData outputIndex
             (envelope attack kickDuration release i))
      else outputData
  end.

Definition duck (attack kickDuration release samplePosition totalSamples : Z)
    (outputData : JS.Float32Array) : JS.Float32Array :=
  duck_from (Z.to_nat (kickDuration + release)) 0 attack kickDuration release
    samplePosition totalSamples outputData.

(** Lines 63-96: the callback of [beats.forEach]. *)
Definition addBeat (tickSamples : list Q) (sampleRate totalSamples : Z)
    (beatTime : Q) (index : nat) (arr : list Q)
    (outputData : JS.Float32Array) : JS.Float32Array :=
  let samplePosition := Qfloor (beatTime * inject_Z sampleRate) in
  let kickDuration := Z.of_nat (length tickSamples) in
  let ducked := duck (attackSamples sampleRate) kickDuration
                  (releaseSamples sampleRate) samplePosition totalSamples
                  outputData in
  addSound tickSamples (Some samplePosition) (6 # 10) totalSamples ducked.

Definition processAudioInBrowser (audioData : list Q) (sampleRate : Z)
    (beats tickSamples : list Q) : JS.Float32Array :=
  let totalSamples := Z.of_nat (length audioData) in
  JS.forEach (addBeat tickSamples sampleRate totalSamples)
    beats (copyOriginal audioData).

End Sidechain.

(** ** src/app/audioProcessor.ts: the attack-and-hold ducking
    [processAudioInBrowser] *)

Module AudioProcessor.

(** Lines 266-269. *)
Definition copyOriginal (audioData : list Q) : JS.Float32Array :=
  map (fun x => x) audioData.

Definition duckingAmount : Q := 2 # 10.

Definition attackSamples (sampleRate : Z) : Z :=
  Qfloor ((1 # 100) * inject_Z sampleRate).

Definition releaseSamples (sampleRate : Z) : Z :=
  Qfloor ((15 # 100) * inject_Z sampleRate).

(** Lines 289-298: the gain at absolute index [i]. *)
Definition duckGain (attack samplePosition duckStart : Z) (i : Z) : Q :=
  if i <? samplePosition then
    let progress := (inject_Z (i - duckStart) / inject_Z attack)%Q in
    (1 - progress * (1 - duckingAmount))%Q
  else duckingAmount.

(** Lines 288-301: [for (let i = duckStart; i < duckEnd; i++)]. *)
Fixpoint duck_from (fuel : nat) (i : Z) (attack samplePosition duckStart duckEnd : Z)
    (outputData : JS.Float32Array) : JS.Float32Array :=
  match fuel with
  | O => outputData
  | S fuel' =>
      if i <? duckEnd then
        duck_from fuel' (i + 1) attack samplePosition duckStart duckEnd
          (JS.mul_at outputData i (duckGain attack samplePosition duckStart i))
      else outputData
  end.

(** Lines 285-301. *)
Definition duck (attack release samplePosition totalSamples : Z)
    (outputData : JS.Float32Array) : JS.Float32Array :=
  let duckStart := Z.max 0 (samplePosition - attack) in
  let duckEnd := Z.min totalSamples (samplePosition + release) in
  duck_from (Z.to_nat (duckEnd - duckStart)) duckStart attack samplePosition
    duckStart duckEnd outputData.

(** Lines 278-311: the callback of [beats.forEach].  The half-beat
    position of lines 280-282 is computed but never used. *)
Definition addBeat (tickSamples : list Q) (sampleRate totalSamples : Z)
    (beatTime : Q) (index : nat) (arr : list Q)
    (outputData : JS.Float32Array) : JS.Float32Array :=
  let samplePosition := Qfloor (beatTime * inject_Z sampleRate) in
  let ducked := duck (attackSamples sampleRate) (releaseSamples sampleRate)
                  samplePosition totalSamples outputData in
  addSound tickSamples (Some samplePosition) (5 # 10) totalSamples ducked.

Definition processAudioInBrowser (audioData : list Q) (sampleRate : Z)
    (beats tickSamples : list Q) : JS.Float32Array :=
  let totalSamples := Z.of_nat (length audioData) in
  JS.forEach (addBeat tickSamples sampleRate totalSamples)
    beats (copyOriginal audioData).

End AudioProcessor.

(** ** src/app/brainrotProcessor.ts: [generateBrainrotSong] and
    [audioBufferToWav] *)

Module Brainrot.

(** The part of a Web Audio [AudioBuffer] the code reads: the sample
    rate and channel 0. *)
Record AudioBuffer := { sampleRate : Z; channelData : list Q }.

Record SongSlice := { audioData : list Q; startTime : Q; duration : Q }.

Definition minSliceDuration : Q := 2 # 10.
Definition maxSliceDuration : Q := 2.

(** Lines 68-84: the body of the loop over [i].  Inside the loop both
    reads are in range; an [undefined] read would give a [NaN]
    duration, which fails both comparisons. *)
Definition sliceAt (audioData : list Q) (sampleRate : Z) (downbeats : list Q)
    (slices : list SongSlice) (i : nat) : list SongSlice :=
  match downbeats !! i, downbeats !! S i with
  | Some startTime, Some endTime =>
      let duration := (endTime - startTime)%Q in
      if Qle_bool minSliceDuration duration && Qle_bool duration maxSliceDuration then
        let startSample := Qfloor (startTime * inject_Z sampleRate) in
        let endSample := Qfloor (endTime * inject_Z sampleRate) in
        let sliceData := JS.slice audioData startSample endSample in
        slices ++ [ {| audioData := sliceData; startTime := startTime;
                       duration := duration |} ]
      else slices
  | _, _ => slices
  end.

(** Lines 62-85: [for (let i = 0; i < downbeats.length - 1; i++)]. *)
Definition slicesOfSong (buffer : AudioBuffer) (downbeats : list Q)
    (slices : list SongSlice) : list SongSlice :=
  fold_left (sliceAt (channelData buffer) (sampleRate buffer) downbeats)
    (seq 0 (length downbeats - 1)) slices.

(** Lines 56-87: [allDownbeats.forEach]. *)
Definition createSlices (allDownbeats : list (AudioBuffer * list Q))
    : list SongSlice :=
  fold_left (fun slices '(buffer, downbeats) => slicesOfSong buffer downbeats slices)
    allDownbeats [].

(** Line 96: [[slices[i], slices[j]] = [slices[j], slices[i]]].  With
    [Math.random()] in [0, 1) the index [j] lies in [0, i]; outside that
    contract, where JavaScript would store [undefined], the model leaves
    the array as it is. *)
Definition swap (slices : list SongSlice) (i : nat) (j : Z) : list SongSlice :=
  match slices !! i, JS.get slices j with
  | Some si, Some sj => <[Z.to_nat j := si]> (<[i := sj]> slices)
  | _, _ => slices
  end.

(** Lines 133-143: the two tapers applied to sample [i] of a slice of
    length [len]. *)
Definition fade (len crossfadeSamples : Z) (i : Z) (sample : Q) : Q :=
  let faded :=
    if i <? crossfadeSamples
    then (sample * (inject_Z i / inject_Z crossfadeSamples))%Q
    else sample in
  if len - crossfadeSamples <? i
  then (faded * (inject_Z (len - i) / inject_Z crossfadeSamples))%Q
  else faded.

(** Lines 130-146: [for (let i = 0; i < sliceData.length; i++)]. *)
Fixpoint writeSlice_from (todo : list Q) (i : Z) (len crossfadeSamples : Z)
    (currentPosition : Z) (outputData : JS.Float32Array) : JS.Float32Array :=
  match todo with
  | [] => outputData
  | sample :: rest =>
      writeSlice_from rest (i + 1) len crossfadeSamples currentPosition
        (JS.store outputData (currentPosition + i)
           (fade len crossfadeSamples i sample))
  end.

(** Lines 127-149: the callback of [selectedSlices.forEach]; the state
    is the output array and the write cursor. *)
Definition writeSlice (crossfadeSamples : Z) (st : JS.Float32Array * Z)
    (slice : SongSlice) : JS.Float32Array * Z :=
  let '(outputData, currentPosition) := st in
  let sliceData := audioData slice in
  let len := Z.of_nat (length sliceData) in
  (writeSlice_from sliceData 0 len crossfadeSamples currentPosition outputData,
   currentPosition + len).

(** Lines 108-113. *)
Definition totalSamples (selectedSlices : list SongSlice) : Z :=
  fold_left (fun total slice => total + Z.of_nat (length (audioData slice)))
    selectedSlices 0.

(** Lines 120-149: allocate the output and combine the slices. *)
Definition combine (selectedSlices : list SongSlice) (crossfadeSamples : Z)
    : JS.Float32Array :=
  let outputData := replicate (Z.to_nat (totalSamples selectedSlices)) 0%Q in
  fst (fold_left (writeSlice crossfadeSamples) selectedSlices (outputData, 0)).

(** How a call of [generateBrainrotSong] ends. *)
Inductive completion :=
| Returned (processedBuffer : AudioBuffer)
| TypeError
| NotSupportedError.

(** Line 156: [audioContext.createBuffer(1, length, sampleRate)] gives a
    zeroed one-channel buffer, and raises a [NotSupportedError] for a
    length below 1.  The rate handed over is the rate of an existing
    [AudioBuffer], which the implementation has accepted before. *)
Definition createBuffer (length sampleRate : Z) : option AudioBuffer :=
  if length <? 1 then None
  else Some {| sampleRate := sampleRate;
               channelData := replicate (Z.to_nat length) 0%Q |}.

(** Line 157: [buffer.copyToChannel(source, 0)] overwrites the start of
    channel 0 with as many samples of [source] as fit. *)
Definition copyToChannel (buffer : AudioBuffer) (source : JS.Float32Array)
    : AudioBuffer :=
  {| sampleRate := sampleRate buffer;
     channelData := take (length (channelData buffer)) source
                    ++ drop (length source) (channelData buffer) |}.

Section Collaborators.

(** The beat detector (essentia's RhythmDescriptors). *)
Variable findDownbeats : AudioBuffer -> list Q.
(** The outcome of the k-th call of [Math.random()]. *)
Variable random : nat -> Q.

(** Lines 94-97: [for (let i = slices.length - 1; i > 0; i--)], with
    the number of [Math.random()] calls made so far. *)
Fixpoint shuffle_from (i : nat) (calls : nat) (slices : list SongSlice)
    : nat * list SongSlice :=
  match i with
  | O => (calls, slices)
  | S i' =>
      let j := Qfloor (random calls * inject_Z (Z.of_nat i + 1)) in
      shuffle_from i' (S calls) (swap slices i j)
  end.

Definition shuffle (slices : list SongSlice) : nat * list SongSlice :=
  shuffle_from (length slices - 1) 0 slices.

(** Line 100. *)
Definition numSlices (calls : nat) (slices : list SongSlice) : Z :=
  Z.min (Z.of_nat (length slices)) (Qfloor (random calls * 30) + 30).

(** Lines 93-101. *)
Definition shuffleAndSelect (slices : list SongSlice) : list SongSlice :=
  let '(calls, shuffled) := shuffle slices in
  JS.slice shuffled 0 (numSlices calls shuffled).

(** Lines 41-160.  Reading [audioBuffers[0].sampleRate] on an empty
    array raises a [TypeError] (line 109); [createBuffer] raises a
    [NotSupportedError] when the selected slices hold no sample
    (line 156). *)
Definition generateBrainrotSong (audioBuffers : list AudioBuffer) : completion :=
  let allDownbeats :=
    map (fun buffer => (buffer, findDownbeats buffer)) audioBuffers in
  let slices := createSlices allDownbeats in
  let selectedSlices := shuffleAndSelect slices in
  match audioBuffers !! 0%nat with
  | None => TypeError
  | Some first =>
      let totalSamples := totalSamples selectedSlices in
      let sampleRate := sampleRate first in
      let crossfadeSamples := Qfloor ((1 # 100) * inject_Z sampleRate) in
      let outputData := combine selectedSlices crossfadeSamples in
      match createBuffer totalSamples sampleRate with
      | None => NotSupportedError
      | Some processedBuffer => Returned (copyToChannel processedBuffer outputData)
      end
  end.

End Collaborators.

(** Lines 217-219 of [audioBufferToWav], one sample: clamp, scale by
    0x8000 below zero and by 0x7fff otherwise, store through
    [setInt16] (which truncates toward zero). *)
Definition wavSample (x : Q) : Z :=
  let sample := JS.clamp x in
  let scaled := if JS.lt sample 0 then (sample * 32768)%Q
                else (sample * 32767)%Q in
  JS.toInt16 (JS.trunc scaled).

(** Lines 215-223 for a single channel. *)
Definition wavSamples (buffer : AudioBuffer) : list Z :=
  map wavSample (channelData buffer).

End Brainrot.

(** ** The specification's wording, for comparison with the code *)

Module Spec.

(** [scale(buffer, factor)]: every sample multiplied by [factor]. *)
Definition scale (buffer : list Q) (factor : Q) : list Q :=
  map (fun x => x * factor)%Q buffer.

(** [quantizeToPCM16] as worded: clamp, multiply by 32767, round toward
    zero. *)
Definition quantizeToPCM16 (x : Q) : Z := JS.trunc (JS.clamp x * 32767).

(** A sample counts as "about 0.1" when it is closer to 0.1 than 0 is. *)
Definition about_tenth (x : Q) : Prop := (Qabs (x - (1 # 10)) < 1 # 10)%Q.

(** The envelope as worded: the window opens [attack] samples before the
    beat; the gain goes from 1 down to [duckAmount] over the attack,
    stays there for [sustain] samples, and goes back up to 1 over the
    release.  [offset] counts from the start of the window. *)
Definition envelopeAt (duckAmount : Q) (attack sustain release : Z) (offset : Z) : Q :=
  if offset <? attack then
    (1 - (1 - duckAmount) * (inject_Z offset / inject_Z attack))%Q
  else if offset <? attack + sustain then duckAmount
  else (duckAmount + (1 - duckAmount)
          * (inject_Z (offset - attack - sustain) / inject_Z release))%Q.

(** Ducking as worded: the gain is applied on the window
    [p - attack, p + sustain + release), clamped to the buffer. *)
Definition duck (duckAmount : Q) (attack sustain release : Z) (p : Z)
    (output : list Q) : list Q :=
  imap (fun k x =>
          let i := Z.of_nat k in
          if (p - attack <=? i) && (i <? p + sustain + release)
          then (x * envelopeAt duckAmount attack sustain release (i - (p - attack)))%Q
          else x) output.

(** Consecutive pairs of a beat sequence. *)
Definition pairs (beats : list Q) : list (Q * Q) := zip beats (tail beats).

(** The duration window of slice extraction. *)
Definition keeps (minDuration maxDuration : Q) (pair : Q * Q) : bool :=
  Qle_bool minDuration (snd pair - fst pair)
  && Qle_bool (snd pair - fst pair) maxDuration.

(** The slice cut from a track between two beats. *)
Definition sliceBetween (audioData : list Q) (sampleRate : Z) (pair : Q * Q)
    : Brainrot.SongSlice :=
  {| Brainrot.audioData :=
       JS.slice audioData (Qfloor (fst pair * inject_Z sampleRate))
         (Qfloor (snd pair * inject_Z sampleRate));
     Brainrot.startTime := fst pair;
     Brainrot.duration := (snd pair - fst pair)%Q |}.

(** [extractSlices] for one track: the kept pairs, in beat order. *)
Definition extractSlices (audioData : list Q) (sampleRate : Z) (beats : list Q)
    (minDuration maxDuration : Q) : list Brainrot.SongSlice :=
  map (sliceBetween audioData sampleRate)
    (List.filter (keeps minDuration maxDuration) (pairs beats)).

(** The slices of one analysed track, with the system's duration
    window. *)
Definition extractTrack (track : Brainrot.AudioBuffer * list Q)
    : list Brainrot.SongSlice :=
  extractSlices (Brainrot.channelData (fst track))
    (Brainrot.sampleRate (fst track)) (snd track)
    Brainrot.minSliceDuration Brainrot.maxSliceDuration.

(** The samples of one slice after the two tapers. *)
Definition faded (crossfadeSamples : Z) (slice : Brainrot.SongSlice) : list Q :=
  imap (fun i sample =>
          Brainrot.fade (Z.of_nat (length (Brainrot.audioData slice)))
            crossfadeSamples (Z.of_nat i) sample)
    (Brainrot.audioData slice).

(** [composite]: the tapered slices one after the other. *)
Definition composite (slices : list Brainrot.SongSlice) (crossfadeSamples : Z)
    : list Q :=
  concat (map (faded crossfadeSamples) slices).

End Spec.

(** ** src/app/brainrotProcessor.ts: the bytes written by [audioBufferToWav]

    The same function, byte for byte, closes the two home pages
    (src/unnamed/part_003 lines 406-468 and src/unnamed/part_004). *)

Module Wav.

(** What the writer reads of an [AudioBuffer]: [buffer.length] (frames
    per channel), the sample rate, and the arrays returned by
    [getChannelData(i)] for [i < numberOfChannels]. *)
Record AudioBuffer := {
  bufferLength : nat;
  sampleRate : Z;
  channels : list (list Q)
}.

Definition numberOfChannels (buffer : AudioBuffer) : Z :=
  Z.of_nat (length (channels buffer)).

(** The two bytes of a 16-bit store and the four bytes of a 32-bit store,
    little-endian ([littleEndian = true]); the value is first reduced
    modulo the width, which is also the two's complement encoding. *)
Definition le16 (v : Z) : list Z := [v mod 256; (v / 256) mod 256].

Definition le32 (v : Z) : list Z :=
  [v mod 256; (v / 256) mod 256; (v / 65536) mod 256; (v / 16777216) mod 256].

(** A [DataView] store of [bytes] at [pos]: a [RangeError] ([None]) when
    the bytes do not fit in the buffer. *)
Definition setBytes (view : list Z) (pos : Z) (bytes : list Z) : option (list Z) :=
  if (0 <=? pos) && (pos + Z.of_nat (length bytes) <=? Z.of_nat (length view))
  then Some (take (Z.to_nat pos) view ++ bytes
             ++ drop (Z.to_nat pos + length bytes) view)
  else None.

(** The view and the write cursor [pos] shared by the closures. *)
Definition cursor : Type := list Z * Z.

(** Lines 174-177. *)
Definition setUint16 (data : Z) (s : cursor) : option cursor :=
  view ← setBytes (fst s) (snd s) (le16 data);
  Some (view, snd s + 2).

(** Lines 178-181. *)
Definition setUint32 (data : Z) (s : cursor) : option cursor :=
  view ← setBytes (fst s) (snd s) (le32 data);
  Some (view, snd s + 4).

(** Lines 183-208: the 44-byte header. *)
Definition writeHeader (buffer : AudioBuffer) (length : Z) (s : cursor)
    : option cursor :=
  s ← setUint32 0x46464952 s;
  s ← setUint32 (length - 8) s;
  s ← setUint32 0x45564157 s;
  s ← setUint32 0x20746d66 s;
  s ← setUint32 16 s;
  s ← setUint16 1 s;
  s ← setUint16 (numberOfChannels buffer) s;
  s ← setUint32 (sampleRate buffer) s;
  s ← setUint32 (sampleRate buffer * numberOfChannels buffer * 2) s;
  s ← setUint16 (numberOfChannels buffer * 2) s;
  s ← setUint16 16 s;
  s ← setUint32 0x61746164 s;
  setUint32 (length - snd s - 4) s.

(** Lines 217-218 on what [channels[i][offset]] returns.  A missing
    sample is [undefined]: the clamp and the scaling give [NaN], which
    [setInt16] stores as 0. *)
Definition int16OfSample (sample : option Q) : Z :=
  match sample with
  | Some x => Brainrot.wavSample x
  | None => 0
  end.

(** Lines 216-221: one frame, a sample of every channel in turn. *)
Fixpoint writeFrame (channels : list (list Q)) (offset : nat) (s : cursor)
    : option cursor :=
  match channels with
  | [] => Some s
  | channel :: rest =>
      view ← setBytes (fst s) (snd s) (le16 (int16OfSample (channel !! offset)));
      writeFrame rest offset (view, snd s + 2)
  end.

(** Lines 215-223: [while (pos < length)].  The loop runs once per frame,
    which is the fuel given by [audioBufferToWav]. *)
Fixpoint writeData (fuel : nat) (channels : list (list Q)) (length : Z)
    (offset : nat) (s : cursor) : option cursor :=
  match fuel with
  | O => Some s
  | S fuel' =>
      if snd s <? length then
        s' ← writeFrame channels offset s;
        writeData fuel' channels length (S offset) s'
      else Some s
  end.

(** Lines 166-226. *)
Definition audioBufferToWav (buffer : AudioBuffer) : option (list Z) :=
  let length := Z.of_nat (bufferLength buffer) * numberOfChannels buffer * 2 + 44 in
  let arrayBuffer := replicate (Z.to_nat length) 0 in
  s ← writeHeader buffer length (arrayBuffer, 0);
  s ← writeData (bufferLength buffer) (channels buffer) length 0%nat s;
  Some (fst s).

(** The single-channel buffer built by [createBuffer(1, n, rate)] and
    [copyToChannel(outputData, 0)]. *)
Definition ofMono (buffer : Brainrot.AudioBuffer) : AudioBuffer :=
  {| bufferLength := length (Brainrot.channelData buffer);
     sampleRate := Brainrot.sampleRate buffer;
     channels := [Brainrot.channelData buffer] |}.

(** [getUint16], [getUint32] and [getInt16] of a [DataView], little-endian,
    on bytes that exist. *)
Definition getUint16 (view : list Z) (pos : nat) : option Z :=
  b0 ← view !! pos; b1 ← view !! S pos; Some (b0 + 256 * b1).

Definition getUint32 (view : list Z) (pos : nat) : option Z :=
  b0 ← view !! pos; b1 ← view !! (pos + 1)%nat;
  b2 ← view !! (pos + 2)%nat; b3 ← view !! (pos + 3)%nat;
  Some (b0 + 256 * b1 + 65536 * b2 + 16777216 * b3).

Definition getInt16 (view : list Z) (pos : nat) : option Z :=
  u ← getUint16 view pos; Some (if u <? 32768 then u else u - 65536).

End Wav.

(** ** The canonical RIFF/WAVE layout, for comparison with the writer *)

Module Riff.

(** The cursor once [written] sits at the front of a zeroed buffer of
    [total] bytes. *)
Definition after (written : list Z) (total : nat) : Wav.cursor :=
  (written ++ replicate (total - length written) 0, Z.of_nat (length written)).

Definition fileSize (buffer : Wav.AudioBuffer) : Z :=
  44 + 2 * Z.of_nat (Wav.bufferLength buffer) * Wav.numberOfChannels buffer.

(** The 44 header bytes: "RIFF", size - 8, "WAVE", "fmt ", 16, PCM = 1,
    channels, sample rate, byte rate, block align, 16 bits, "data",
    size - 44. *)
Definition header (buffer : Wav.AudioBuffer) : list Z :=
  [82; 73; 70; 70] ++ Wav.le32 (fileSize buffer - 8)
  ++ [87; 65; 86; 69] ++ [102; 109; 116; 32] ++ [16; 0; 0; 0] ++ [1; 0]
  ++ Wav.le16 (Wav.numberOfChannels buffer)
  ++ Wav.le32 (Wav.sampleRate buffer)
  ++ Wav.le32 (Wav.sampleRate buffer * Wav.numberOfChannels buffer * 2)
  ++ Wav.le16 (Wav.numberOfChannels buffer * 2)
  ++ [16; 0] ++ [100; 97; 116; 97]
  ++ Wav.le32 (fileSize buffer - 44).

(** The bytes of frame [offset]: one 16-bit sample per channel. *)
Definition frame (channels : list (list Q)) (offset : nat) : list Z :=
  concat (map (fun channel => Wav.le16 (Wav.int16OfSample (channel !! offset)))
            channels).

(** The interleaved sample data. *)
Definition data (buffer : Wav.AudioBuffer) : list Z :=
  concat (map (frame (Wav.channels buffer)) (seq 0 (Wav.bufferLength buffer))).

End Riff.

(** ** Sums of overlays, for stating what a mix adds up to *)

Module Superposition.

(** What one overlay of [samples] at [position] adds to output index
    [k]: the aligned percussion sample times the gain, or nothing. *)
Definition contribution (samples : list Q) (position : JS.index) (gain : Q)
    (k : Z) : Q :=
  match position with
  | Some p =>
      match JS.get samples (k - p) with
      | Some s => (s * gain)%Q
      | None => 0%Q
      end
  | None => 0%Q
  end.

(** The sum of [f beat index arr] over the beats still to visit, in the
    order [forEach] visits them. *)
Fixpoint sum_from (f : Q -> nat -> list Q -> Q) (arr : list Q) (index : nat)
    (todo : list Q) : Q :=
  match todo with
  | [] => 0%Q
  | beat :: rest => (f beat index arr + sum_from f arr (S index) rest)%Q
  end.

Definition sum (f : Q -> nat -> list Q -> Q) (arr : list Q) : Q :=
  sum_from f arr 0%nat arr.

(** The shape shared by the two tick-and-tock callbacks: a tick at the
    beat, then a tock at a position computed from the beat array. *)
Definition tickThenTock (tickSamples tockSamples : list Q) (tickGain tockGain : Q)
    (tickPosition : Q -> Z) (tockPosition : Q -> nat -> list Q -> JS.index)
    (total : Z) (beat : Q) (index : nat) (arr : list Q) (output : list Q)
    : list Q :=
  addSound tockSamples (tockPosition beat index arr) tockGain total
    (addSound tickSamples (Some (tickPosition beat)) tickGain total output).

(** What such a callback adds to output index [k]. *)
Definition added (tickSamples tockSamples : list Q) (tickGain tockGain : Q)
    (tickPosition : Q -> Z) (tockPosition : Q -> nat -> list Q -> JS.index)
    (k : Z) (beat : Q) (index : nat) (arr : list Q) : Q :=
  (contribution tickSamples (Some (tickPosition beat)) tickGain k
   + contribution tockSamples (tockPosition beat index arr) tockGain k)%Q.

End Superposition.

(** ** src/app/audioProcessor.ts: the scoring of [analyzeBanification]

    The measurements come from essentia ([RhythmDescriptors], [Energy],
    [RMS], [ZeroCrossingRate], [HFC], [Centroid]); they and [Math.log10]
    are parameters.  Lines 85-186. *)

Module Banification.

Definition frameSize : Z := 2048.
Definition hopSize : Z := 1024.

(** Lines 87-100: the zero-crossing loop
    [for (let i = 0; i + frameSize < audioData.length; i += hopSize)]
    with its running sum and frame counter.  The loop runs fewer times
    than there are samples, which is the fuel given by [zcrOf]. *)
Fixpoint zcrLoop (ZeroCrossingRate : list Q -> Q) (fuel : nat) (i : Z)
    (audioData : list Q) (zcr : Q) (zcrCount : Z) : Q * Z :=
  match fuel with
  | O => (zcr, zcrCount)
  | S fuel' =>
      if i + frameSize <? Z.of_nat (length audioData) then
        let frame := JS.slice audioData i (i + frameSize) in
        zcrLoop ZeroCrossingRate fuel' (i + hopSize) audioData
          (zcr + ZeroCrossingRate frame)%Q (zcrCount + 1)
      else (zcr, zcrCount)
  end.

(** Line 100: [zcrCount > 0 ? zcr / zcrCount : 0]. *)
Definition zcrOf (ZeroCrossingRate : list Q -> Q) (audioData : list Q) : Q :=
  let '(zcr, zcrCount) :=
    zcrLoop ZeroCrossingRate (length audioData) 0 audioData 0%Q 0 in
  if 0 <? zcrCount then (zcr / inject_Z zcrCount)%Q else 0%Q.

(** Lines 106-126: the spectral loop over the same frames, with two
    running sums.  [HFC] and [Centroid] stand for essentia's answers on
    the spectrum of the windowed frame. *)
Fixpoint spectralLoop (HFC Centroid : list Q -> Q) (fuel : nat) (i : Z)
    (audioData : list Q) (spectralEnergySum spectralCentroidSum : Q)
    (frameCount : Z) : Q * Q * Z :=
  match fuel with
  | O => (spectralEnergySum, spectralCentroidSum, frameCount)
  | S fuel' =>
      if i + frameSize <? Z.of_nat (length audioData) then
        let frame := JS.slice audioData i (i + frameSize) in
        spectralLoop HFC Centroid fuel' (i + hopSize) audioData
          (spectralEnergySum + HFC frame)%Q
          (spectralCentroidSum + Centroid frame)%Q (frameCount + 1)
      else (spectralEnergySum, spectralCentroidSum, frameCount)
  end.

(** Lines 128-129. *)
Definition spectralOf (HFC Centroid : list Q -> Q) (audioData : list Q) : Q * Q :=
  let '(spectralEnergySum, spectralCentroidSum, frameCount) :=
    spectralLoop HFC Centroid (length audioData) 0 audioData 0%Q 0%Q 0 in
  (if 0 <? frameCount then (spectralEnergySum / inject_Z frameCount)%Q else 0%Q,
   if 0 <? frameCount then (spectralCentroidSum / inject_Z frameCount)%Q else 0%Q).

(** The frames both loops visit, in order: the windows of [frameSize]
    samples starting every [hopSize] samples that end before the last
    sample. *)
Fixpoint frames_from (fuel : nat) (i : Z) (audioData : list Q) : list (list Q) :=
  match fuel with
  | O => []
  | S fuel' =>
      if i + frameSize <? Z.of_nat (length audioData)
      then JS.slice audioData i (i + frameSize)
           :: frames_from fuel' (i + hopSize) audioData
      else []
  end.

Definition frames (audioData : list Q) : list (list Q) :=
  frames_from (length audioData) 0 audioData.

(** The sum of a measurement over a list of frames. *)
Definition total (measure : list Q -> Q) (fs : list (list Q)) : Q :=
  fold_right (fun frame sum => (measure frame + sum)%Q) 0%Q fs.

(** Lines 65-73: [rhythmResult.bpm || 120], and 120 as well when the
    detector throws ([None]). *)
Definition bpmOf (rhythm : option Q) : Q :=
  match rhythm with
  | Some bpm => if Qeq_bool bpm 0 then 120%Q else bpm
  | None => 120%Q
  end.

Inductive Verdict := ALREADY_A_BANGER | NEEDS_TO_BE_BANGIFIED.

(** The four message templates of lines 161-170; each also shows the
    score. *)
Inductive Message := THIS_TRACK_SLAPS | Nice_vibes | Has_potential | Needs_work.

Record BanificationScore := {
  score : Q;
  bpm : Q;
  energy : Q;
  danceability : Q;
  dynamicComplexity : Q;
  spectralEnergy : Q;
  verdict : Verdict;
  message : Message
}.

Section Essentia.

Variable log10 : Q -> Q.

(** Lines 136-141. *)
Definition bpmScore (bpm : Q) : Q := Qmin 100 (Qmax 0 ((bpm - 80) / 70 * 100)).
Definition energyScore (energy : Q) : Q := Qmin 100 (log10 (energy + 1) * 20).
Definition loudnessScore (rms : Q) : Q := Qmin 100 (rms * 200).
Definition zcrScore (zcr : Q) : Q := Qmin 100 (zcr * 500).
Definition spectralScore (spectralEnergy : Q) : Q :=
  Qmin 100 (spectralEnergy / 5 * 100).
Definition brightnessScore (spectralCentroid : Q) : Q :=
  Qmin 100 (spectralCentroid / 5000 * 100).

(** Lines 150-157. *)
Definition totalScore (bpm energy rms zcr spectralEnergy spectralCentroid : Q) : Q :=
  (bpmScore bpm * (25 # 100) + energyScore energy * (20 # 100)
   + loudnessScore rms * (20 # 100) + spectralScore spectralEnergy * (15 # 100)
   + brightnessScore spectralCentroid * (10 # 100) + zcrScore zcr * (10 # 100))%Q.

(** Line 159. *)
Definition verdictOf (totalScore : Q) : Verdict :=
  if Qle_bool 65 totalScore then ALREADY_A_BANGER else NEEDS_TO_BE_BANGIFIED.

(** Lines 161-170. *)
Definition messageOf (totalScore : Q) : Message :=
  if Qle_bool 80 totalScore then THIS_TRACK_SLAPS
  else if Qle_bool 65 totalScore then Nice_vibes
  else if Qle_bool 45 totalScore then Has_potential
  else Needs_work.

(** Lines 55-189 once the audio is decoded: [rhythm], [energy] and [rms]
    are essentia's answers on the whole signal, the three measures its
    answers on one frame. *)
Definition analyze (rhythm : option Q) (energy rms : Q)
    (ZeroCrossingRate HFC Centroid : list Q -> Q) (audioData : list Q)
    : BanificationScore :=
  let bpm := bpmOf rhythm in
  let zcr := zcrOf ZeroCrossingRate audioData in
  let '(spectralEnergy, spectralCentroid) := spectralOf HFC Centroid audioData in
  let danceability :=
    ((bpmScore bpm * (4 # 10) + energyScore energy * (3 # 10)
      + zcrScore zcr * (3 # 10)) / 100)%Q in
  let dynamicComplexity := Qmin 10 ((spectralEnergy + energy) / 10000) in
  let totalScore := totalScore bpm energy rms zcr spectralEnergy spectralCentroid in
  {| score := totalScore; bpm := bpm; energy := energy;
     danceability := danceability; dynamicComplexity := dynamicComplexity;
     spectralEnergy := spectralEnergy;
     verdict := verdictOf totalScore; message := messageOf totalScore |}.

End Essentia.

End Banification.

(** ** src/app/essentiaInstance.ts: the shared essentia instance

    The module state is the pair of variables [essentiaInstance] and
    [essentiaPromise].  Instances are told apart by a number: the count of
    initialisations started before theirs.  A call and the settling of
    the initialisation it started are separate events, as they are
    separate turns of the event loop. *)

Module EssentiaInstance.

(** The state of the promise held in [essentiaPromise]. *)
Inductive promise :=
| Pending (id : nat)
| Fulfilled (instance : nat)
| Rejected (id : nat).

Record state := {
  essentiaInstance : option nat;
  essentiaPromise : option promise;
  started : nat
}.

(** Lines 4-5. *)
Definition initial : state :=
  {| essentiaInstance := None; essentiaPromise := None; started := 0 |}.

(** What a call hands back: the instance, or the shared promise. *)
Inductive answer :=
| TheInstance (instance : nat)
| ThePromise (p : promise).

(** Lines 11-44, up to the first [await]: return the instance, or the
    promise in progress, or start the initialisation and return its
    promise. *)
Definition getEssentiaInstance (s : state) : answer * state :=
  match essentiaInstance s with
  | Some instance => (TheInstance instance, s)
  | None =>
      match essentiaPromise s with
      | Some p => (ThePromise p, s)
      | None =>
          (ThePromise (Pending (started s)),
           {| essentiaInstance := None;
              essentiaPromise := Some (Pending (started s));
              started := S (started s) |})
      end
  end.

(** Lines 23-41 after the last [await]: line 38 stores the new instance
    and the promise is fulfilled with it. *)
Definition initialised (s : state) : state :=
  match essentiaPromise s with
  | Some (Pending id) =>
      {| essentiaInstance := Some id; essentiaPromise := Some (Fulfilled id);
         started := started s |}
  | _ => s
  end.

(** An [import] or the WASM start-up throws: the promise is rejected and
    nothing else is assigned. *)
Definition failed (s : state) : state :=
  match essentiaPromise s with
  | Some (Pending id) =>
      {| essentiaInstance := essentiaInstance s;
         essentiaPromise := Some (Rejected id); started := started s |}
  | _ => s
  end.

(** Lines 50-57. *)
Definition cleanupEssentia (s : state) : state :=
  match essentiaInstance s with
  | Some _ =>
      {| essentiaInstance := None; essentiaPromise := None;
         started := started s |}
  | None => s
  end.

Inductive event := Get | Initialised | Failed | Cleanup.

Definition step (s : state) (e : event) : state :=
  match e with
  | Get => snd (getEssentiaInstance s)
  | Initialised => initialised s
  | Failed => failed s
  | Cleanup => cleanupEssentia s
  end.

Definition run (events : list event) (s : state) : state :=
  fold_left step events s.

(** The number of [Cleanup] events of a trace that found an instance to
    delete. *)
Fixpoint deletions (events : list event) (s : state) : nat :=
  match events with
  | [] => 0
  | e :: rest =>
      (match e, essentiaInstance s with
       | Cleanup, Some _ => 1
       | _, _ => 0
       end + deletions rest (step s e))%nat
  end.

(** What the two module variables always satisfy together. *)
Definition consistent (s : state) : Prop :=
  match essentiaInstance s, essentiaPromise s with
  | Some i, Some (Fulfilled j) => i = j /\ (i < started s)%nat
  | None, None => True
  | None, Some (Pending id) => S id = started s
  | None, Some (Rejected id) => S id = started s
  | _, _ => False
  end.

(** 1 while a promise is stored. *)
Definition stored (s : state) : nat :=
  match essentiaPromise s with Some _ => 1%nat | None => 0%nat end.

End EssentiaInstance.

(** ** src/unnamed/part_005: what the Pixoo visualizer draws

    A drawing is the list of client calls in the order they are issued;
    the text of a label is the number it shows. *)

Module Visualizer.

Record AudioMetrics := {
  bpm : Q;
  energy : Q;
  score : Q;
  danceability : Q;
  spectralEnergy : Q
}.

Record color := { r : Z; g : Z; b : Z }.

Inductive call :=
| fillScreen (r g b : Z) (push : bool)
| drawRectangle (x0 y0 x1 y1 r g b : Z) (push : bool)
| drawLine (x0 y0 x1 y1 r g b : Z) (push : bool)
| drawPixel (x y r g b : Z) (push : bool)
| drawText (text : Z) (x y r g b : Z) (push : bool).

(** Lines 340-358. *)
Definition scoreToColor (score : Q) : color :=
  if JS.lt score 65 then
    let t := (score / 65)%Q in
    {| r := 255; g := Qfloor (255 * t); b := 0 |}
  else
    let t := ((score - 65) / 35)%Q in
    {| r := Qfloor (255 * (1 - t)); g := 255; b := 0 |}.

(** [Math.round]. *)
Definition round (x : Q) : Z := Qfloor (x + (1 # 2)).

(** Lines 53-157 while the visualizer is running and the client answers. *)
Definition updateMetrics (isRunning : bool) (metrics : AudioMetrics) : list call :=
  if negb isRunning then [] else
  let bgColor := scoreToColor (score metrics) in
  let bpmWidth := Z.min (Qfloor (bpm metrics / 200 * 64)) 64 in
  let energyHeight := Z.min (Qfloor (energy metrics / 100 * 64)) 64 in
  let danceHeight := Z.min (Qfloor (danceability metrics / 100 * 64)) 64 in
  let spectralWidth := Z.min (Qfloor (spectralEnergy metrics / 100 * 64)) 64 in
  [fillScreen (r bgColor) (g bgColor) (b bgColor) false]
  ++ (if 0 <? bpmWidth
      then [drawRectangle 0 0 (bpmWidth - 1) 7 255 0 255 false] else [])
  ++ (if 0 <? energyHeight
      then [drawRectangle 0 (64 - energyHeight) 7 63 0 255 255 false] else [])
  ++ (if 0 <? danceHeight
      then [drawRectangle 56 (64 - danceHeight) 63 63 255 255 0 false] else [])
  ++ (if 0 <? spectralWidth
      then [drawRectangle 0 56 (spectralWidth - 1) 63 255 128 0 false] else [])
  ++ [drawText (round (bpm metrics)) 24 20 255 255 255 false;
      drawText (round (score metrics)) 24 32 255 255 255 true].

Section Random.

(** The outcome of the k-th call of [Math.random()] of one beat. *)
Variable random : nat -> Q.

(** [Math.floor(Math.random() * n)] on call [k]. *)
Definition pick (k : nat) (n : Z) : Z := Qfloor (random k * inject_Z n).

(** Lines 246-253: the body of the spray loop, five calls per pixel. *)
Fixpoint spray (count : nat) (k : nat) : list call :=
  match count with
  | O => []
  | S count' =>
      drawPixel (pick k 63) (pick (k + 1) 63) (pick (k + 2) 256) (pick (k + 3) 256)
        (pick (k + 4) 256) false
      :: spray count' (k + 5)
  end.

(** Lines 212-293: the seven effects, each started after [k] calls. *)
Definition effects (k : nat) : list (list call) :=
  [ (* random coloured rectangle *)
    (let x := pick k 48 in
     let y := pick (k + 1) 48 in
     let size := pick (k + 2) 16 + 4 in
     [drawRectangle x y (Z.min (x + size) 63) (Z.min (y + size) 63)
        (pick (k + 3) 256) (pick (k + 4) 256) (pick (k + 5) 256) true]);
    (* random line *)
    [drawLine (pick k 63) (pick (k + 1) 63) (pick (k + 2) 63) (pick (k + 3) 63)
       (pick (k + 4) 256) (pick (k + 5) 256) (pick (k + 6) 256) true];
    (* diagonal stripes *)
    (map (fun i => drawLine i 0 (Z.min (i + 32) 63) 63
                     (pick k 256) (pick (k + 1) 256) (pick (k + 2) 256) false)
       [0; 8; 16; 24; 32; 40; 48; 56]
     ++ [drawPixel 0 0 0 0 0 true]);
    (* random pixels spray *)
    (spray 20 k ++ [drawPixel 0 0 0 0 0 true]);
    (* corner flash *)
    (let r := pick k 256 in let g := pick (k + 1) 256 in let b := pick (k + 2) 256 in
     [drawRectangle 0 0 15 15 r g b false; drawRectangle 48 0 63 15 r g b false;
      drawRectangle 0 48 15 63 r g b false; drawRectangle 48 48 63 63 r g b true]);
    (* border flash *)
    (let r := pick k 256 in let g := pick (k + 1) 256 in let b := pick (k + 2) 256 in
     [drawRectangle 0 0 63 3 r g b false; drawRectangle 0 60 63 63 r g b false;
      drawRectangle 0 0 3 63 r g b false; drawRectangle 60 0 63 63 r g b true]);
    (* crosshair *)
    (let r := pick k 256 in let g := pick (k + 1) 256 in let b := pick (k + 2) 256 in
     [drawLine 0 32 63 32 r g b false; drawLine 32 0 32 63 r g b false;
      drawLine 0 0 63 63 r g b false; drawLine 63 0 0 63 r g b true]) ].

(** Lines 295-301: the first call picks the effect; picking past the
    table gives [undefined], whose call throws into the [catch]. *)
Definition drawRandomBeatEffect : option (list call) :=
  JS.get (effects 1) (pick 0 (Z.of_nat (length (effects 1)))).

End Random.

(** src/unnamed/part_003, lines 87-93: the metrics the home page hands
    to [updateMetrics] after an analysis. *)
Definition metricsOf (result : Banification.BanificationScore) : AudioMetrics :=
  {| bpm := Banification.bpm result;
     energy := Banification.energy result;
     score := Banification.score result;
     danceability := (Banification.danceability result * 100)%Q;
     spectralEnergy := (Banification.spectralEnergy result * 100)%Q |}.

(** The [push_immediately] argument of a call. *)
Definition pushes (c : call) : bool :=
  match c with
  | fillScreen _ _ _ push => push
  | drawRectangle _ _ _ _ _ _ _ push => push
  | drawLine _ _ _ _ _ _ _ push => push
  | drawPixel _ _ _ _ _ push => push
  | drawText _ _ _ _ _ _ push => push
  end.

(** Whether the last call of a batch pushes and no earlier one does. *)
Definition pushesOnceAtEnd (calls : list call) : bool :=
  match rev calls with
  | [] => false
  | final :: earlier => pushes final && forallb (fun c => negb (pushes c)) earlier
  end.

(** A call that stays on the 64 x 64 panel, corners in order for a
    rectangle, with colour channels in 0..255. *)
Definition onPanel (v : Z) : Prop := 0 <= v <= 63.
Definition channel (v : Z) : Prop := 0 <= v <= 255.

Definition wellFormed (c : call) : Prop :=
  match c with
  | fillScreen r g b _ => channel r /\ channel g /\ channel b
  | drawRectangle x0 y0 x1 y1 r g b _ =>
      onPanel x0 /\ onPanel y0 /\ onPanel x1 /\ onPanel y1
      /\ x0 <= x1 /\ y0 <= y1 /\ channel r /\ channel g /\ channel b
  | drawLine x0 y0 x1 y1 r g b _ =>
      onPanel x0 /\ onPanel y0 /\ onPanel x1 /\ onPanel y1
      /\ channel r /\ channel g /\ channel b
  | drawPixel x y r g b _ =>
      onPanel x /\ onPanel y /\ channel r /\ channel g /\ channel b
  | drawText _ x y r g b _ =>
      onPanel x /\ onPanel y /\ channel r /\ channel g /\ channel b
  end.

End Visualizer.

(** Case analysis on the integer comparisons of the goal. *)
Ltac case_leb :=
  match goal with |- context [Z.leb ?x ?y] => destruct (Z.leb_spec x y) end.
Ltac case_ltb :=
  match goal with |- context [Z.ltb ?x ?y] => destruct (Z.ltb_spec x y) end.
Ltac case_eqb :=
  match goal with |- context [Z.eqb ?x ?y] => destruct (Z.eqb_spec x y) end.
Ltac zcases :=
  repeat first [case_leb | case_ltb | case_eqb];
  simpl; try lia; try reflexivity.

(** ** Typed-array stores *)

Section TypedArray.

Implicit Types (a : JS.Float32Array) (i k : Z) (v g : Q).

Lemma length_store a i v : length (JS.store a i v) = length a.
Proof.
  unfold JS.store. destruct (_ && _); [apply length_insert | reflexivity].
Qed.

Lemma get_None_iff {A} (l : list A) k :
  JS.get l k = None <-> k < 0 \/ Z.of_nat (length l) <= k.
Proof.
  unfold JS.get. destruct (Z.leb_spec 0 k) as [Hk|Hk].
  - rewrite lookup_ge_None. lia.
  - split; [lia | reflexivity].
Qed.

Lemma get_Some_range {A} (l : list A) k x :
  JS.get l k = Some x -> 0 <= k < Z.of_nat (length l).
Proof.
  intros H. destruct (Z_lt_dec k 0) as [?|?];
    [|destruct (Z_le_dec (Z.of_nat (length l)) k)]; try lia;
    assert (JS.get l k = None) as E by (apply get_None_iff; lia);
    congruence.
Qed.

Lemma get_store a i v k :
  JS.get (JS.store a i v) k =
  if (k =? i) && (0 <=? i) && (i <? Z.of_nat (length a)) then Some v
  else JS.get a k.
Proof.
  unfold JS.store, JS.get.
  destruct (Z.eqb_spec k i) as [->|Hne]; simpl.
  - destruct (Z.leb_spec 0 i), (Z.ltb_spec i (Z.of_nat (length a))); simpl;
      try reflexivity.
    apply list_lookup_insert_eq. lia.
  - destruct ((0 <=? i) && (i <? Z.of_nat (length a))) eqn:E; [|reflexivity].
    destruct (Z.leb_spec 0 k); [|reflexivity].
    apply andb_prop in E as [E1 E2].
    apply Z.leb_le in E1. apply list_lookup_insert_ne. lia.
Qed.

Lemma length_add_at a p v : length (JS.add_at a p v) = length a.
Proof.
  unfold JS.add_at. destruct p as [i|]; [|reflexivity].
  destruct (JS.get a i); [apply length_store | reflexivity].
Qed.

Lemma length_mul_at a i g : length (JS.mul_at a i g) = length a.
Proof.
  unfold JS.mul_at. destruct (JS.get a i); [apply length_store | reflexivity].
Qed.

Lemma get_add_at a i v k :
  JS.get (JS.add_at a (Some i) v) k =
  if k =? i then option_map (fun x => (x + v)%Q) (JS.get a k) else JS.get a k.
Proof.
  unfold JS.add_at. destruct (JS.get a i) as [x|] eqn:E.
  - rewrite get_store. apply get_Some_range in E as Hr.
    destruct (Z.eqb_spec k i) as [->|]; simpl; [|reflexivity].
    rewrite E. destruct (Z.leb_spec 0 i), (Z.ltb_spec i (Z.of_nat (length a)));
      simpl; try lia; reflexivity.
  - destruct (Z.eqb_spec k i) as [->|]; [|reflexivity]. rewrite E. reflexivity.
Qed.

Lemma get_mul_at a i g k :
  JS.get (JS.mul_at a i g) k =
  if k =? i then option_map (fun x => (x * g)%Q) (JS.get a k) else JS.get a k.
Proof.
  unfold JS.mul_at. destruct (JS.get a i) as [x|] eqn:E.
  - rewrite get_store. apply get_Some_range in E as Hr.
    destruct (Z.eqb_spec k i) as [->|]; simpl; [|reflexivity].
    rewrite E. destruct (Z.leb_spec 0 i), (Z.ltb_spec i (Z.of_nat (length a)));
      simpl; try lia; reflexivity.
  - destruct (Z.eqb_spec k i) as [->|]; [|reflexivity]. rewrite E. reflexivity.
Qed.

(** Two arrays with the same reads are the same array. *)
Lemma get_ext {A} (l1 l2 : list A) :
  (forall k, JS.get l1 k = JS.get l2 k) -> l1 = l2.
Proof.
  intros H. apply list_eq. intros n. specialize (H (Z.of_nat n)).
  unfold JS.get in H. destruct (Z.leb_spec 0 (Z.of_nat n)); [|lia].
  rewrite Nat2Z.id in H. exact H.
Qed.

End TypedArray.

(** ** The overlay loop *)

Section Overlay.

Lemma get_cons {A} (x : A) (l : list A) j :
  JS.get (x :: l) j = if j =? 0 then Some x else JS.get l (j - 1).
Proof.
  unfold JS.get. destruct (Z.eqb_spec j 0) as [->|Hj]; [reflexivity|].
  destruct (Z.leb_spec 0 j), (Z.leb_spec 0 (j - 1)); try lia; try reflexivity.
  replace (Z.to_nat j) with (S (Z.to_nat (j - 1))) by lia. reflexivity.
Qed.

Lemma length_addSound_from samples : forall i position gain total output,
  length (addSound_from samples i position gain total output) = length output.
Proof.
  induction samples as [|s rest IH]; intros; simpl; [reflexivity|].
  rewrite IH. destruct (JS.index_lt _ _); [apply length_add_at | reflexivity].
Qed.

Lemma length_addSound samples position gain total output :
  length (addSound samples position gain total output) = length output.
Proof. apply length_addSound_from. Qed.

(** With a [NaN] position every guard fails and nothing is written. *)
Lemma addSound_from_NaN samples : forall i gain total output,
  addSound_from samples i None gain total output = output.
Proof. induction samples as [|s rest IH]; intros; simpl; [reflexivity | apply IH]. Qed.

(** What the loop leaves at index [k]: the old sample plus the scaled
    percussion sample aligned with it, when both exist. *)
Lemma get_addSound_from samples : forall i p gain output k,
  JS.get (addSound_from samples i (Some p) gain (Z.of_nat (length output)) output) k =
  match JS.get output k, JS.get samples (k - p - i) with
  | Some x, Some s => Some (x + s * gain)%Q
  | o, _ => o
  end.
Proof.
  induction samples as [|s rest IH]; intros i p gain output k.
  - simpl. destruct (JS.get output k); [|reflexivity].
    unfold JS.get. destruct (0 <=? _); [rewrite lookup_nil|]; reflexivity.
  - cbn [addSound_from JS.index_add JS.index_lt].
    set (output' := if p + i <? _ then _ else _).
    assert (Hlen : length output' = length output).
    { subst output'. destruct (_ <? _); [apply length_add_at | reflexivity]. }
    assert (Hget : JS.get output' k =
                   if k =? p + i
                   then option_map (fun x => (x + s * gain)%Q) (JS.get output k)
                   else JS.get output k).
    { subst output'. destruct (Z.ltb_spec (p + i) (Z.of_nat (length output))).
      - apply get_add_at.
      - destruct (Z.eqb_spec k (p + i)) as [->|]; [|reflexivity].
        assert (JS.get output (p + i) = None) as -> by (apply get_None_iff; lia).
        reflexivity. }
    rewrite <- Hlen, IH, Hget, get_cons.
    destruct (Z.eqb_spec k (p + i)) as [->|Hne].
    + replace (p + i - p - i) with 0 by lia.
      replace (p + i - p - (i + 1)) with (-1) by lia. simpl.
      destruct (JS.get output (p + i)); reflexivity.
    + destruct (Z.eqb_spec (k - p - i) 0); [lia|].
      replace (k - p - (i + 1)) with (k - p - i - 1) by lia. reflexivity.
Qed.

Lemma forEach_from_length {A} (f : A -> nat -> list A -> list Q -> list Q) arr :
  (forall x index st, length (f x index arr st) = length st) ->
  forall todo index st, length (JS.forEach_from f arr index todo st) = length st.
Proof.
  intros Hf todo. induction todo as [|x todo IH]; intros; simpl; [reflexivity|].
  rewrite IH. apply Hf.
Qed.

End Overlay.

(** ** Quantisation *)

Section Quantisation.

Lemma clamp_range x : (-1 <= JS.clamp x <= 1)%Q.
Proof.
  unfold JS.clamp. split.
  - apply Q.le_max_l.
  - apply Q.max_lub; [discriminate | apply Q.le_min_l].
Qed.

Lemma toInt16_small z : -32768 <= z <= 32767 -> JS.toInt16 z = z.
Proof. intros H. unfold JS.toInt16. rewrite Z.mod_small; lia. Qed.

Lemma toInt16_range z : -32768 <= JS.toInt16 z <= 32767.
Proof.
  unfold JS.toInt16. pose proof (Z.mod_pos_bound (z + 32768) 65536). lia.
Qed.

Lemma lt_spec x y : JS.lt x y = true <-> (x < y)%Q.
Proof.
  unfold JS.lt. rewrite negb_true_iff. split.
  - intros H. apply Qnot_le_lt. intros Hle. apply Qle_bool_iff in Hle. congruence.
  - intros H. destruct (Qle_bool y x) eqn:E; [|reflexivity].
    apply Qle_bool_iff in E. exfalso. exact (Qlt_not_le _ _ H E).
Qed.

Lemma lt_false x y : JS.lt x y = false <-> (y <= x)%Q.
Proof.
  unfold JS.lt. rewrite negb_false_iff. apply Qle_bool_iff.
Qed.

Lemma floor_between (lo hi : Z) (x : Q) :
  (inject_Z lo <= x <= inject_Z hi)%Q -> lo <= Qfloor x <= hi.
Proof.
  intros [H1 H2]. split.
  - rewrite <- (Qfloor_Z lo). apply Qfloor_resp_le, H1.
  - rewrite <- (Qfloor_Z hi). apply Qfloor_resp_le, H2.
Qed.

Lemma ceiling_between (lo hi : Z) (x : Q) :
  (inject_Z lo <= x <= inject_Z hi)%Q -> lo <= Qceiling x <= hi.
Proof.
  intros [H1 H2]. split.
  - rewrite <- (Qceiling_Z lo). apply Qceiling_resp_le, H1.
  - rewrite <- (Qceiling_Z hi). apply Qceiling_resp_le, H2.
Qed.

Lemma trunc_between (lo hi : Z) (x : Q) :
  (inject_Z lo <= x <= inject_Z hi)%Q -> lo <= JS.trunc x <= hi.
Proof.
  intros H. unfold JS.trunc.
  destruct (JS.lt x 0); [apply ceiling_between | apply floor_between]; exact H.
Qed.

Lemma scaled_range (c : Q) (n : Z) :
  0 <= n -> (-1 <= c <= 1)%Q -> (inject_Z (- n) <= c * inject_Z n <= inject_Z n)%Q.
Proof.
  intros Hn [H1 H2].
  assert (0 <= inject_Z n)%Q as Hq by (rewrite Zle_Qle in Hn; exact Hn).
  rewrite inject_Z_opp. split; nra.
Qed.

(** The floor of the clamped, scaled sample is already a 16-bit integer. *)
Lemma int16Sample_floor x :
  Buffer.int16Sample x = Qfloor (JS.clamp x * 32767) /\
  -32767 <= Buffer.int16Sample x <= 32767.
Proof.
  unfold Buffer.int16Sample.
  pose proof (floor_between (-32767) 32767 (JS.clamp x * 32767)
                (scaled_range _ 32767 ltac:(lia) (clamp_range x))) as H.
  rewrite toInt16_small by lia. split; [reflexivity | exact H].
Qed.

Lemma wavSample_trunc x :
  Brainrot.wavSample x =
    JS.trunc (if JS.lt (JS.clamp x) 0 then JS.clamp x * 32768 else JS.clamp x * 32767) /\
  -32768 <= Brainrot.wavSample x <= 32767.
Proof.
  unfold Brainrot.wavSample.
  assert (-32768 <= JS.trunc (if JS.lt (JS.clamp x) 0 then JS.clamp x * 32768
                              else JS.clamp x * 32767) <= 32767) as H.
  { destruct (JS.lt (JS.clamp x) 0) eqn:E.
    - apply lt_spec in E. pose proof (clamp_range x) as [Hlo _].
      apply (trunc_between (-32768) 32767). split.
      + change (inject_Z (-32768)) with (-1 * 32768)%Q. nra.
      + change (inject_Z 32767) with 32767%Q. nra.
    - pose proof (trunc_between (-32767) 32767 (JS.clamp x * 32767)
                    (scaled_range _ 32767 ltac:(lia) (clamp_range x))). lia. }
  rewrite toInt16_small by exact H. split; [reflexivity | exact H].
Qed.

End Quantisation.

(** ** Ducking envelopes *)

Section Ducking.

Lemma length_sidechain_duck_from fuel : forall i a kd r p total out,
  length (Sidechain.duck_from fuel i a kd r p total out) = length out.
Proof.
  induction fuel as [|fuel IH]; intros; simpl; [reflexivity|].
  destruct (_ && _); [|reflexivity]. rewrite IH. apply length_mul_at.
Qed.

Lemma get_sidechain_duck_from fuel : forall i a kd r p out k,
  kd + r - i <= Z.of_nat fuel ->
  JS.get (Sidechain.duck_from fuel i a kd r p (Z.of_nat (length out)) out) k =
  if (p + i <=? k) && (k <? p + (kd + r))
  then option_map (fun x => (x * Sidechain.envelope a kd r (k - p))%Q) (JS.get out k)
  else JS.get out k.
Proof.
  induction fuel as [|fuel IH]; intros i a kd r p out k Hfuel.
  - simpl. destruct (Z.leb_spec (p + i) k), (Z.ltb_spec k (p + (kd + r)));
      simpl; try reflexivity; lia.
  - cbn [Sidechain.duck_from].
    destruct (Z.ltb_spec i (kd + r)) as [Hi|Hi]; simpl.
    + destruct (Z.ltb_spec (p + i) (Z.of_nat (length out))) as [Hp|Hp].
      * rewrite <- (length_mul_at out (p + i) (Sidechain.envelope a kd r i)).
        rewrite IH by lia. rewrite get_mul_at.
        destruct (Z.eqb_spec k (p + i)) as [->|Hne].
        -- replace (p + i - p) with i by lia. zcases.
        -- zcases.
      * destruct (Z.leb_spec (p + i) k); simpl; [|reflexivity].
        assert (JS.get out k = None) as -> by (apply get_None_iff; lia).
        destruct (_ <? _); reflexivity.
    + destruct (Z.leb_spec (p + i) k), (Z.ltb_spec k (p + (kd + r)));
        simpl; try reflexivity; lia.
Qed.

(** The three-phase duck multiplies exactly the samples of
    [p, p + kickDuration + release) that exist. *)
Lemma get_sidechain_duck a kd r p out k :
  JS.get (Sidechain.duck a kd r p (Z.of_nat (length out)) out) k =
  if (p <=? k) && (k <? p + (kd + r))
  then option_map (fun x => (x * Sidechain.envelope a kd r (k - p))%Q) (JS.get out k)
  else JS.get out k.
Proof.
  unfold Sidechain.duck. rewrite get_sidechain_duck_from by lia.
  replace (p + 0) with p by lia. reflexivity.
Qed.

Lemma length_audio_duck_from fuel : forall i a p ds de out,
  length (AudioProcessor.duck_from fuel i a p ds de out) = length out.
Proof.
  induction fuel as [|fuel IH]; intros; simpl; [reflexivity|].
  destruct (_ <? _); [|reflexivity]. rewrite IH. apply length_mul_at.
Qed.

Lemma get_audio_duck_from fuel : forall i a p ds de out k,
  de - i <= Z.of_nat fuel ->
  JS.get (AudioProcessor.duck_from fuel i a p ds de out) k =
  if (i <=? k) && (k <? de)
  then option_map (fun x => (x * AudioProcessor.duckGain a p ds k)%Q) (JS.get out k)
  else JS.get out k.
Proof.
  induction fuel as [|fuel IH]; intros i a p ds de out k Hfuel.
  - simpl. destruct (Z.leb_spec i k), (Z.ltb_spec k de); simpl; try reflexivity; lia.
  - cbn [AudioProcessor.duck_from].
    destruct (Z.ltb_spec i de) as [Hi|Hi].
    + rewrite IH by lia. rewrite get_mul_at.
      destruct (Z.eqb_spec k i) as [->|Hne]; zcases.
    + destruct (Z.leb_spec i k), (Z.ltb_spec k de); simpl; try reflexivity; lia.
Qed.

(** The attack-and-hold duck multiplies exactly the samples of
    [max(0, p - attack), min(total, p + release)). *)
Lemma get_audio_duck a r p total out k :
  JS.get (AudioProcessor.duck a r p total out) k =
  if (Z.max 0 (p - a) <=? k) && (k <? Z.min total (p + r))
  then option_map
         (fun x => (x * AudioProcessor.duckGain a p (Z.max 0 (p - a)) k)%Q)
         (JS.get out k)
  else JS.get out k.
Proof. unfold AudioProcessor.duck. apply get_audio_duck_from. lia. Qed.

Lemma length_sidechain_duck a kd r p total out :
  length (Sidechain.duck a kd r p total out) = length out.
Proof. apply length_sidechain_duck_from. Qed.

Lemma length_audio_duck a r p total out :
  length (AudioProcessor.duck a r p total out) = length out.
Proof. apply length_audio_duck_from. Qed.

(** A proper fraction of integers. *)
Lemma fraction_range (n m : Z) :
  0 <= n < m -> (0 <= inject_Z n / inject_Z m < 1)%Q.
Proof.
  intros [Hn Hm].
  assert (0 < inject_Z m)%Q as Hpos.
  { change 0%Q with (inject_Z 0). rewrite <- Zlt_Qlt. lia. }
  split.
  - apply Qle_shift_div_l; [exact Hpos|]. rewrite Qmult_0_l.
    change 0%Q with (inject_Z 0). rewrite <- Zle_Qle. exact Hn.
  - apply Qlt_shift_div_r; [exact Hpos|]. rewrite Qmult_1_l.
    rewrite <- Zlt_Qlt. exact Hm.
Qed.

(** Inside its window the three-phase gain stays in [duckAmount, 1]. *)
Lemma envelope_bounds a kd r i :
  0 <= i < kd + r ->
  (Sidechain.duckAmount <= Sidechain.envelope a kd r i <= 1)%Q.
Proof.
  intros Hi. unfold Sidechain.envelope, Sidechain.duckAmount.
  destruct (Z.ltb_spec i a) as [Ha|Ha].
  - pose proof (fraction_range i a ltac:(lia)) as [H1 H2].
    set (f := (inject_Z i / inject_Z a)%Q) in *. split; nra.
  - destruct (Z.ltb_spec i kd) as [Hk|Hk].
    + split; [apply Qle_refl | discriminate].
    + pose proof (fraction_range (i - kd) r ltac:(lia)) as [H1 H2].
      set (f := (inject_Z (i - kd) / inject_Z r)%Q) in *. split; nra.
Qed.

End Ducking.

(** ** The mixers keep the buffer length *)

Section MixLength.

Lemma length_buffer_mix music sampleRate ticks tickSamples tockSamples :
  length (Buffer.mix music sampleRate ticks tickSamples tockSamples) = length music.
Proof.
  unfold Buffer.mix, JS.forEach. rewrite forEach_from_length.
  - apply length_map.
  - intros. unfold Buffer.addBeat. now rewrite !length_addSound.
Qed.

Lemma length_ticktock audioData sampleRate beats tickSamples tockSamples :
  length (TickTock.processAudioInBrowser audioData sampleRate beats tickSamples
            tockSamples) = length audioData.
Proof.
  unfold TickTock.processAudioInBrowser, JS.forEach. rewrite forEach_from_length.
  - apply length_map.
  - intros. unfold TickTock.addBeat. now rewrite !length_addSound.
Qed.

Lemma length_sidechain audioData sampleRate beats tickSamples :
  length (Sidechain.processAudioInBrowser audioData sampleRate beats tickSamples)
  = length audioData.
Proof.
  unfold Sidechain.processAudioInBrowser, JS.forEach. rewrite forEach_from_length.
  - apply length_map.
  - intros. unfold Sidechain.addBeat.
    now rewrite length_addSound, length_sidechain_duck.
Qed.

Lemma length_audioProcessor audioData sampleRate beats tickSamples :
  length (AudioProcessor.processAudioInBrowser audioData sampleRate beats tickSamples)
  = length audioData.
Proof.
  unfold AudioProcessor.processAudioInBrowser, JS.forEach.
  rewrite forEach_from_length.
  - apply length_map.
  - intros. unfold AudioProcessor.addBeat.
    now rewrite length_addSound, length_audio_duck.
Qed.

End MixLength.

(** ** Claims on the beat overlay and on quantisation *)

(** C1.  With an empty beat sequence the mix is the original with every
    sample multiplied by the base volume and nothing else: 0.5 in the two
    tick-and-tock mixers; in the two ducking mixers the original is copied
    as it is, which is the original times 1.0. *)
Theorem C1_no_beats_gives_scaled_original :
  forall (original tickSamples tockSamples : list Q) (sampleRate : Z),
    Buffer.mix original sampleRate [] tickSamples tockSamples
      = Spec.scale original (1 # 2)
    /\ TickTock.processAudioInBrowser original sampleRate [] tickSamples tockSamples
      = Spec.scale original (1 # 2)
    /\ Sidechain.processAudioInBrowser original sampleRate [] tickSamples = original
    /\ AudioProcessor.processAudioInBrowser original sampleRate [] tickSamples
      = original
    /\ Forall2 Qeq original (Spec.scale original 1).
Proof.
  intros. repeat split; try reflexivity.
  - unfold Sidechain.processAudioInBrowser, Sidechain.copyOriginal. simpl.
    apply map_id.
  - unfold AudioProcessor.processAudioInBrowser, AudioProcessor.copyOriginal.
    simpl. apply map_id.
  - unfold Spec.scale. induction original as [|x l IH]; simpl; constructor.
    + symmetry. apply Qmult_1_r.
    + exact IH.
Qed.

(** C2.  Quantisation clamps every sample to [-1, 1] first, and the
    integer it then stores is already in [-32768, 32767]: the reduction
    modulo 2^16 of the 16-bit store never changes it.  This holds for
    single samples of any size and for every output of the server-side
    pipeline and of the WAV writer. *)
Theorem C2_quantized_samples_in_int16_range :
  forall (x : Q) (music ticks tickSamples tockSamples : list Q) (sampleRate : Z)
         (buffer : Brainrot.AudioBuffer),
    (-1 <= JS.clamp x <= 1)%Q
    /\ Buffer.int16Sample x = Qfloor (JS.clamp x * 32767)
    /\ -32768 <= Buffer.int16Sample x <= 32767
    /\ Brainrot.wavSample x
       = JS.trunc (if JS.lt (JS.clamp x) 0 then JS.clamp x * 32768
                   else JS.clamp x * 32767)
    /\ -32768 <= Brainrot.wavSample x <= 32767
    /\ Forall (fun z => -32768 <= z <= 32767)
         (Buffer.processAudioWithBeats music sampleRate ticks tickSamples tockSamples)
    /\ Forall (fun z => -32768 <= z <= 32767) (Brainrot.wavSamples buffer).
Proof.
  intros. pose proof (int16Sample_floor x) as [Hf Hr].
  pose proof (wavSample_trunc x) as [Ht Hw].
  repeat split; try (apply clamp_range); try assumption; try lia.
  - unfold Buffer.processAudioWithBeats, Buffer.int16Buffer.
    apply List.Forall_forall. intros z Hz. apply in_map_iff in Hz as [y [<- _]].
    pose proof (int16Sample_floor y) as [_ ?]. lia.
  - unfold Brainrot.wavSamples.
    apply List.Forall_forall. intros z Hz. apply in_map_iff in Hz as [y [<- _]].
    apply wavSample_trunc.
Qed.

(** Two full-scale hits landing on the same samples, on top of a
    full-scale original: the mix reaches 1.7 and is stored as 32767. *)
Example overlapping_hits_are_clipped :
  Buffer.processAudioWithBeats [1; 1; 1; 1]%Q 4 [0; 0]%Q [1; 1]%Q [1; 1]%Q
  = [32767; 32767; 16383; 16383].
Proof. vm_compute. reflexivity. Qed.

(** C9.  An overlay never changes the length of the output and never
    touches a sample it is not aligned with: index [k] receives the
    percussion sample [k - position] when both exist, and every other
    write is dropped.  A [NaN] position writes nothing.  All four mixers
    return a buffer of the length of their input, whatever the beat times
    and percussion lengths. *)
Theorem C9_overlay_writes_stay_in_bounds :
  forall (samples output : list Q) (position : JS.index) (gain : Q) (k : Z)
         (music beats tickSamples tockSamples : list Q) (sampleRate : Z),
    let total := Z.of_nat (length output) in
    length (addSound samples position gain total output) = length output
    /\ JS.get (addSound samples position gain total output) k
       = match position with
         | Some p =>
             match JS.get output k, JS.get samples (k - p) with
             | Some x, Some s => Some (x + s * gain)%Q
             | unchanged, _ => unchanged
             end
         | None => JS.get output k
         end
    /\ length (Buffer.mix music sampleRate beats tickSamples tockSamples)
       = length music
    /\ length (TickTock.processAudioInBrowser music sampleRate beats tickSamples
                 tockSamples) = length music
    /\ length (Sidechain.processAudioInBrowser music sampleRate beats tickSamples)
       = length music
    /\ length (AudioProcessor.processAudioInBrowser music sampleRate beats
                 tickSamples) = length music.
Proof.
  intros. repeat split.
  - apply length_addSound.
  - destruct position as [p|].
    + unfold addSound. subst total. rewrite get_addSound_from.
      replace (k - p - 0) with (k - p) by lia. reflexivity.
    + unfold addSound. now rewrite addSound_from_NaN.
  - apply length_buffer_mix.
  - apply length_ticktock.
  - apply length_sidechain.
  - apply length_audioProcessor.
Qed.

(** A kick on the last sample of the track, and one before its first
    sample: what falls outside is dropped. *)
Example overlay_is_trimmed_at_the_edges :
  addSound [1; 1; 1]%Q (Some 3) 1 4 [0; 0; 0; 0]%Q = [0; 0; 0; 0 + 1 * 1]%Q
  /\ addSound [1; 1; 1]%Q (Some (-2)) 1 4 [0; 0; 0; 0]%Q = [0 + 1 * 1; 0; 0; 0]%Q.
Proof. split; reflexivity. Qed.

(** [Math.floor] is never above truncation toward zero, and at most one
    below it. *)
Lemma floor_trunc_gap (x : Q) : JS.trunc x - 1 <= Qfloor x <= JS.trunc x.
Proof.
  unfold JS.trunc. destruct (JS.lt x 0); [|lia].
  pose proof (Qfloor_le x) as H1. pose proof (Qle_ceiling x) as H2.
  pose proof (Qlt_floor x) as H3. pose proof (Qceiling_lt x) as H4.
  assert (inject_Z (Qfloor x) <= inject_Z (Qceiling x))%Q as Hle
    by (eapply Qle_trans; eassumption).
  assert (inject_Z (Qceiling x - 1) < inject_Z (Qfloor x + 1))%Q as Hlt
    by (eapply Qlt_trans; eassumption).
  rewrite <- Zle_Qle in Hle. rewrite <- Zlt_Qlt in Hlt. lia.
Qed.

Lemma clamp_nonneg (x : Q) : (0 <= x)%Q -> (0 <= JS.clamp x)%Q.
Proof.
  intros Hx. unfold JS.clamp.
  eapply Qle_trans; [|apply Q.le_max_r].
  apply Q.min_glb; [discriminate | exact Hx].
Qed.

(** C5, as worded, fails: the server-side quantiser rounds -16383.5 down
    to -16384 where rounding toward zero gives -16383, and the WAV writer
    maps -1 to -32768 where 32767 times -1 is -32767. *)
Lemma C5_rounding_toward_zero_refuted :
  Buffer.int16Sample (-1 # 2) = -16384
  /\ Spec.quantizeToPCM16 (-1 # 2) = -16383
  /\ Buffer.int16Sample (-1 # 2) <> Spec.quantizeToPCM16 (-1 # 2)
  /\ Brainrot.wavSample (-1) <> Spec.quantizeToPCM16 (-1).
Proof. vm_compute. repeat split; discriminate. Qed.

(** C5, amended.  The server-side quantiser clamps to [-1, 1], multiplies
    by 32767 and rounds down ([Math.floor]), the same for every sample of
    the buffer.  That is rounding toward zero for samples that are not
    negative, and never more than one below it.  The WAV writer clamps,
    scales by 32768 below zero and by 32767 otherwise, and truncates
    toward zero. *)
Theorem C5_quantization_rounds_down :
  forall (x : Q) (outputBuffer : list Q),
    Buffer.int16Sample x = Qfloor (JS.clamp x * 32767)
    /\ Buffer.int16Buffer outputBuffer
       = map (fun y => Qfloor (JS.clamp y * 32767)) outputBuffer
    /\ Spec.quantizeToPCM16 x - 1 <= Buffer.int16Sample x <= Spec.quantizeToPCM16 x
    /\ ((0 <= x)%Q -> Buffer.int16Sample x = Spec.quantizeToPCM16 x)
    /\ Brainrot.wavSample x
       = JS.trunc (if JS.lt (JS.clamp x) 0 then JS.clamp x * 32768
                   else JS.clamp x * 32767).
Proof.
  intros x outputBuffer.
  pose proof (int16Sample_floor x) as [Hf _].
  repeat split.
  - exact Hf.
  - unfold Buffer.int16Buffer. apply map_ext. intros y. apply int16Sample_floor.
  - rewrite Hf. apply floor_trunc_gap.
  - rewrite Hf. apply floor_trunc_gap.
  - intros Hx. rewrite Hf. unfold Spec.quantizeToPCM16, JS.trunc.
    assert (JS.lt (JS.clamp x * 32767) 0 = false) as ->; [|reflexivity].
    apply lt_false. pose proof (clamp_nonneg x Hx). nra.
  - apply wavSample_trunc.
Qed.

(** The amended C5 at the sample 0.5, where floor and truncation agree. *)
Lemma C5_quantization_rounds_down_witness :
  (0 <= 1 # 2)%Q /\ Buffer.int16Sample (1 # 2) = Spec.quantizeToPCM16 (1 # 2).
Proof.
  assert (0 <= 1 # 2)%Q as H by discriminate.
  split; [exact H|].
  exact (proj1 (proj2 (proj2 (proj2 (C5_quantization_rounds_down (1 # 2) []))))
           H).
Defined.

(** ** Claims on ducking *)

(** C4, as worded, fails on both ducking mixers.  At a sample rate of
    1000 Hz (attack 10, release 150), with a kick of 3 samples on beat
    position 20 of a constant buffer: the three-phase mixer leaves sample
    15, inside the worded attack window, untouched; the attack-and-hold
    mixer holds sample 25 at the ducked gain where the worded release has
    begun to rise. *)
Lemma C4_worded_window_refuted :
  let output := replicate 30 1%Q in
  let attack := Sidechain.attackSamples 1000 in
  let release := Sidechain.releaseSamples 1000 in
  ~ Forall2 Qeq (Sidechain.duck attack 3 release 20 30 output)
      (Spec.duck Sidechain.duckAmount attack 3 release 20 output)
  /\ ~ Forall2 Qeq (AudioProcessor.duck attack release 20 30 output)
         (Spec.duck AudioProcessor.duckingAmount attack 3 release 20 output).
Proof.
  split; intros H.
  - eapply (Forall2_lookup_lr _ _ _ 15%nat) in H;
      [ | vm_compute; reflexivity | vm_compute; reflexivity ].
    vm_compute in H. discriminate H.
  - eapply (Forall2_lookup_lr _ _ _ 25%nat) in H;
      [ | vm_compute; reflexivity | vm_compute; reflexivity ].
    vm_compute in H. discriminate H.
Qed.

(** C4, amended.  Three-phase mixer: for a beat at sample position [p] the
    output is multiplied by the envelope gain on exactly the samples of
    [p, p + kick + release) that exist, the offset being counted from [p]
    (no sample before the beat is touched).  The gain starts at 1 and
    falls linearly over the first [attack] offsets, is [duckAmount] from
    there to the end of the kick, and rises linearly from [duckAmount]
    over the release, reaching 1 only at the first offset past the window;
    inside the window it stays in [duckAmount, 1].  Attack-and-hold mixer:
    the output is multiplied on exactly
    [max(0, p - attack), min(total, p + release)), by a gain that falls
    linearly from 1 before the beat and is [duckingAmount] from the beat
    on, with no rise back. *)
Theorem C4_ducking_windows_and_gains :
  forall (attack kick release p : Z) (output : list Q) (k i : Z),
    0 < attack -> 0 < release ->
    let total := Z.of_nat (length output) in
    JS.get (Sidechain.duck attack kick release p total output) k
      = (if (p <=? k) && (k <? p + (kick + release))
         then option_map
                (fun x => (x * Sidechain.envelope attack kick release (k - p))%Q)
                (JS.get output k)
         else JS.get output k)
    /\ (Sidechain.envelope attack kick release 0 == 1)%Q
    /\ (i < attack ->
        Sidechain.envelope attack kick release i
        = (1 - (1 - Sidechain.duckAmount) * (inject_Z i / inject_Z attack))%Q)
    /\ (attack <= i < kick ->
        Sidechain.envelope attack kick release i = Sidechain.duckAmount)
    /\ (attack <= i -> kick <= i ->
        Sidechain.envelope attack kick release i
        = (Sidechain.duckAmount + (1 - Sidechain.duckAmount)
             * (inject_Z (i - kick) / inject_Z release))%Q)
    /\ (attack <= kick + release ->
        (Sidechain.envelope attack kick release (kick + release) == 1)%Q)
    /\ (0 <= i < kick + release ->
        (Sidechain.duckAmount <= Sidechain.envelope attack kick release i <= 1)%Q)
    /\ JS.get (AudioProcessor.duck attack release p total output) k
       = (if (Z.max 0 (p - attack) <=? k) && (k <? Z.min total (p + release))
          then option_map
                 (fun x => (x * AudioProcessor.duckGain attack p
                                  (Z.max 0 (p - attack)) k)%Q)
                 (JS.get output k)
          else JS.get output k)
    /\ (i < p ->
        AudioProcessor.duckGain attack p (Z.max 0 (p - attack)) i
        = (1 - inject_Z (i - Z.max 0 (p - attack)) / inject_Z attack
               * (1 - AudioProcessor.duckingAmount))%Q)
    /\ (p <= i ->
        AudioProcessor.duckGain attack p (Z.max 0 (p - attack)) i
        = AudioProcessor.duckingAmount).
Proof.
  intros attack kick release p output k i Ha Hr total.
  repeat split.
  - apply get_sidechain_duck.
  - unfold Sidechain.envelope. destruct (Z.ltb_spec 0 attack); [|lia].
    unfold Qdiv. change (inject_Z 0) with 0%Q. ring.
  - intros Hi. unfold Sidechain.envelope. zcases.
  - intros Hi. unfold Sidechain.envelope. zcases.
  - intros Hi Hk. unfold Sidechain.envelope. zcases.
  - intros Hi. unfold Sidechain.envelope. zcases.
    replace (kick + release - kick) with release by lia.
    assert (~ inject_Z release == 0)%Q as Hnz.
    { change 0%Q with (inject_Z 0). rewrite inject_Z_injective. lia. }
    field. exact Hnz.
  - apply envelope_bounds. lia.
  - apply envelope_bounds. lia.
  - apply get_audio_duck.
  - intros Hi. unfold AudioProcessor.duckGain. zcases.
  - intros Hi. unfold AudioProcessor.duckGain. zcases.
Qed.

(** The amended C4 at 1000 Hz: a 20-sample kick on beat position 20 of a
    30-sample buffer; sample 21 gets the gain of offset 1. *)
Lemma C4_ducking_windows_and_gains_witness :
  0 < 10 /\ 0 < 150 /\
  JS.get (Sidechain.duck 10 20 150 20 30 (replicate 30 1%Q)) 21
  = Some (1 * Sidechain.envelope 10 20 150 (21 - 20))%Q.
Proof.
  assert (0 < 10) as Ha by lia. assert (0 < 150) as Hr by lia.
  split; [exact Ha|]. split; [exact Hr|].
  exact (proj1 (C4_ducking_windows_and_gains 10 20 150 20 (replicate 30 1%Q) 21 0
                  Ha Hr)).
Defined.

(** ** Claims on the half-beat tock *)

Section HalfBeat.

(** Browser variant: with a successor other than 0 the tock sits at the
    midpoint of the two beats. *)
Lemma ticktock_tock_with_successor beatTime index arr next sampleRate :
  arr !! S index = Some next -> ~ (next == 0)%Q ->
  TickTock.halfBeatPosition beatTime index arr sampleRate
  = Qfloor ((beatTime + Qabs (next - beatTime) / 2) * inject_Z sampleRate).
Proof.
  intros Hn Hz. unfold TickTock.halfBeatPosition, TickTock.halfBeatSeconds,
    TickTock.nextBeat. rewrite Hn.
  destruct (Qeq_bool next 0) eqn:E; [|reflexivity].
  apply Qeq_bool_iff in E. contradiction.
Qed.

(** Browser variant: the last beat gets a virtual successor half a
    second later, so its tock sits a quarter of a second after it. *)
Lemma ticktock_tock_of_last_beat beatTime index arr sampleRate :
  arr !! S index = None ->
  TickTock.halfBeatPosition beatTime index arr sampleRate
  = Qfloor ((beatTime + (1 # 4)) * inject_Z sampleRate).
Proof.
  intros Hn. unfold TickTock.halfBeatPosition, TickTock.halfBeatSeconds,
    TickTock.nextBeat. rewrite Hn. apply Qfloor_comp.
  assert (Qabs (beatTime + (1 # 2) - beatTime) == 1 # 2)%Q as ->.
  { assert (beatTime + (1 # 2) - beatTime == 1 # 2)%Q as -> by ring.
    reflexivity. }
  field.
Qed.

(** Server-side mixer: for the last beat the half-beat position is
    [NaN] and the tock loop writes nothing. *)
Lemma buffer_last_beat_has_no_tock tickSamples tockSamples sampleRate total
    tickTime index arr outputBuffer :
  arr !! S index = None ->
  Buffer.halfBeatPostition tickTime index arr sampleRate = None
  /\ Buffer.addBeat tickSamples tockSamples sampleRate total tickTime index arr
       outputBuffer
     = addSound tickSamples (Some (Buffer.samplePosition tickTime sampleRate))
         (4 # 10) total outputBuffer.
Proof.
  intros Hn. unfold Buffer.addBeat, Buffer.halfBeatPostition. rewrite Hn.
  split; [reflexivity|]. unfold addSound at 1. apply addSound_from_NaN.
Qed.

(** Beats [1.0, 2.0] at 44100 Hz: the tock of beat 0 is at sample 66150
    in both mixers, and the browser variant puts the tock of the last
    beat at floor(2.25 * 44100). *)
Example tock_positions_at_44100 :
  TickTock.halfBeatPosition 1 0 [1; 2]%Q 44100 = 66150
  /\ Buffer.halfBeatPostition 1 0 [1; 2]%Q 44100 = Some 66150
  /\ TickTock.halfBeatPosition 2 1 [1; 2]%Q 44100 = 99225.
Proof. vm_compute. repeat split; reflexivity. Qed.

(** Browser variant: a successor beat at exactly 0 is falsy and is
    replaced by the fallback as well. *)
Example ticktock_zero_successor :
  TickTock.nextBeat 0 0 [0; 0]%Q = (0 + (1 # 2))%Q
  /\ TickTock.halfBeatPosition 0 0 [0; 0]%Q 44100 = 11025.
Proof. vm_compute. split; reflexivity. Qed.

End HalfBeat.

(** C3, at the input where the server-side mixer departs from it.  A
    track of 8 silent samples at 4 Hz with the single beat 1.0, an empty
    tick and a one-sample tock: the claim puts the tock at sample
    floor(1.25 * 4) = 5.  In [processAudioWithBeats] the half-beat
    position is [NaN] and the mix is the scaled original, with no tock at
    all; the browser variant adds 0.4 at sample 5. *)
Theorem C3_last_beat_tock_missing_on_server :
  let music := replicate 8 0%Q in
  Buffer.halfBeatPostition 1 0 [1]%Q 4 = None
  /\ Buffer.mix music 4 [1]%Q [] [1]%Q = Spec.scale music (1 # 2)
  /\ TickTock.halfBeatPosition 1 0 [1]%Q 4 = 5
  /\ JS.get (TickTock.processAudioInBrowser music 4 [1]%Q [] [1]%Q) 5
     = Some (0 * (1 # 2) + 1 * (4 # 10))%Q
  /\ JS.get (Buffer.mix music 4 [1]%Q [] [1]%Q) 5 = Some (0 * (1 # 2))%Q.
Proof. vm_compute. repeat split; reflexivity. Qed.

(** ** Slice extraction *)

Section Slices.

Lemma lookup_pairs (beats : list Q) i :
  Spec.pairs beats !! i =
  match beats !! i, beats !! S i with
  | Some a, Some b => Some (a, b)
  | _, _ => None
  end.
Proof.
  unfold Spec.pairs. rewrite lookup_zip_with, lookup_tail.
  destruct (beats !! i), (beats !! S i); reflexivity.
Qed.

Lemma length_pairs (beats : list Q) :
  length (Spec.pairs beats) = (length beats - 1)%nat.
Proof.
  unfold Spec.pairs. rewrite length_zip_with.
  destruct beats as [|b rest]; [reflexivity|].
  change (tail (b :: rest)) with rest. cbn [length]. lia.
Qed.

(** One turn of the loop appends the slice of pair [i] when its
    duration is in the window. *)
Lemma sliceAt_pair audioData sampleRate beats slices i pair :
  Spec.pairs beats !! i = Some pair ->
  Brainrot.sliceAt audioData sampleRate beats slices i
  = slices ++ map (Spec.sliceBetween audioData sampleRate)
                (List.filter (Spec.keeps Brainrot.minSliceDuration
                                Brainrot.maxSliceDuration) [pair]).
Proof.
  rewrite lookup_pairs. unfold Brainrot.sliceAt.
  destruct (beats !! i) as [a|]; [|discriminate].
  destruct (beats !! S i) as [b|]; [|discriminate].
  intros [= <-]. unfold Spec.keeps. cbn [fst snd List.filter].
  destruct (_ && _); [reflexivity | symmetry; apply app_nil_r].
Qed.

Lemma fold_sliceAt audioData sampleRate beats : forall m k slices,
  (k + m <= length (Spec.pairs beats))%nat ->
  fold_left (Brainrot.sliceAt audioData sampleRate beats) (seq k m) slices
  = slices ++ map (Spec.sliceBetween audioData sampleRate)
                (List.filter (Spec.keeps Brainrot.minSliceDuration
                                Brainrot.maxSliceDuration)
                   (take m (drop k (Spec.pairs beats)))).
Proof.
  induction m as [|m IH]; intros k slices Hk.
  - simpl. symmetry. apply app_nil_r.
  - destruct (lookup_lt_is_Some_2 (Spec.pairs beats) k ltac:(lia)) as [pair Hp].
    cbn [seq fold_left]. rewrite IH by lia.
    rewrite (sliceAt_pair _ _ _ _ _ _ Hp), (drop_S _ _ _ Hp).
    cbn [take List.filter]. destruct (Spec.keeps _ _ pair); simpl.
    + rewrite <- app_assoc. reflexivity.
    + rewrite app_nil_r. reflexivity.
Qed.

(** The loop over one song computes the worded extraction. *)
Lemma slicesOfSong_extract buffer beats slices :
  Brainrot.slicesOfSong buffer beats slices
  = slices ++ Spec.extractSlices (Brainrot.channelData buffer)
                (Brainrot.sampleRate buffer) beats
                Brainrot.minSliceDuration Brainrot.maxSliceDuration.
Proof.
  unfold Brainrot.slicesOfSong, Spec.extractSlices.
  rewrite fold_sliceAt by (rewrite length_pairs; lia).
  rewrite drop_0, take_ge by (rewrite length_pairs; lia). reflexivity.
Qed.

Lemma fold_slicesOfSong allDownbeats : forall slices,
  fold_left (fun slices '(buffer, downbeats) =>
               Brainrot.slicesOfSong buffer downbeats slices)
    allDownbeats slices
  = slices ++ concat (map Spec.extractTrack allDownbeats).
Proof.
  induction allDownbeats as [|[buffer beats] rest IH]; intros slices.
  - simpl. symmetry. apply app_nil_r.
  - cbn [fold_left map concat]. rewrite IH, slicesOfSong_extract.
    rewrite <- app_assoc. reflexivity.
Qed.

(** Tracks contribute in track order, each in beat order. *)
Lemma createSlices_concat allDownbeats :
  Brainrot.createSlices allDownbeats = concat (map Spec.extractTrack allDownbeats).
Proof. unfold Brainrot.createSlices. apply fold_slicesOfSong. Qed.

(** Within the buffer, [slice] is the plain sample range. *)
Lemma slice_in_bounds {A} (a : list A) (s e : Z) :
  0 <= s <= e -> e <= Z.of_nat (length a) ->
  JS.slice a s e = take (Z.to_nat (e - s)) (drop (Z.to_nat s) a)
  /\ Z.of_nat (length (JS.slice a s e)) = e - s.
Proof.
  intros Hs He. unfold JS.slice, JS.relative.
  destruct (Z.ltb_spec s 0), (Z.ltb_spec e 0); try lia.
  rewrite !Z.min_l by lia. split; [reflexivity|].
  rewrite length_take, length_drop. lia.
Qed.

End Slices.

(** C7.  For every track the extraction loop returns, in beat order, the
    slice of each consecutive beat pair whose duration lies in
    [0.2, 2.0], and of no other pair; tracks are taken in track order.
    The slice of a kept pair is [slice(floor(start * rate),
    floor(end * rate))] of the track, which within the track is exactly
    that sample range, of length end sample minus start sample.  Slices
    are lists of their own: nothing is shared with the source array.  On
    beats [0.0, 0.5, 3.0] only the interval [0.0, 0.5] is kept. *)
Theorem C7_slices_between_beats_in_duration_window :
  forall (buffer : Brainrot.AudioBuffer) (beats : list Q)
         (slices : list Brainrot.SongSlice)
         (allDownbeats : list (Brainrot.AudioBuffer * list Q))
         (pair : Q * Q) (startSample endSample : Z),
    0 <= startSample <= endSample ->
    endSample <= Z.of_nat (length (Brainrot.channelData buffer)) ->
    Brainrot.slicesOfSong buffer beats slices
      = slices ++ map (Spec.sliceBetween (Brainrot.channelData buffer)
                         (Brainrot.sampleRate buffer))
                    (List.filter (Spec.keeps (2 # 10) 2) (Spec.pairs beats))
    /\ (In pair (List.filter (Spec.keeps (2 # 10) 2) (Spec.pairs beats))
        <-> In pair (Spec.pairs beats)
            /\ (2 # 10 <= snd pair - fst pair)%Q
            /\ (snd pair - fst pair <= 2)%Q)
    /\ Brainrot.createSlices allDownbeats
       = concat (map Spec.extractTrack allDownbeats)
    /\ JS.slice (Brainrot.channelData buffer) startSample endSample
       = take (Z.to_nat (endSample - startSample))
           (drop (Z.to_nat startSample) (Brainrot.channelData buffer))
    /\ Z.of_nat (length (JS.slice (Brainrot.channelData buffer) startSample
                           endSample)) = endSample - startSample
    /\ Brainrot.slicesOfSong
         {| Brainrot.sampleRate := 4;
            Brainrot.channelData := [1; 2; 3; 4; 5; 6; 7; 8; 9; 10; 11; 12]%Q |}
         [0; 1 # 2; 3]%Q []
       = [ {| Brainrot.audioData := [1; 2]%Q; Brainrot.startTime := 0%Q;
              Brainrot.duration := ((1 # 2) - 0)%Q |} ].
Proof.
  intros buffer beats slices allDownbeats pair s e Hs He.
  split; [apply slicesOfSong_extract|].
  split.
  { rewrite filter_In. unfold Spec.keeps.
    rewrite andb_true_iff, !Qle_bool_iff. reflexivity. }
  split; [apply createSlices_concat|].
  split; [apply slice_in_bounds; assumption|].
  split; [apply slice_in_bounds; assumption|].
  reflexivity.
Qed.

(** C7 on an 8-sample track: the range from sample 2 to sample 6. *)
Lemma C7_slices_between_beats_in_duration_window_witness :
  0 <= 2 <= 6 /\ 6 <= Z.of_nat (length [1; 2; 3; 4; 5; 6; 7; 8]%Q)
  /\ JS.slice [1; 2; 3; 4; 5; 6; 7; 8]%Q 2 6 = [3; 4; 5; 6]%Q.
Proof.
  assert (0 <= 2 <= 6) as Hs by lia.
  assert (6 <= Z.of_nat (length [1; 2; 3; 4; 5; 6; 7; 8]%Q)) as He
    by (cbn [length]; lia).
  split; [exact Hs|]. split; [exact He|].
  exact (proj1 (proj2 (proj2 (proj2
    (C7_slices_between_beats_in_duration_window
       {| Brainrot.sampleRate := 4;
          Brainrot.channelData := [1; 2; 3; 4; 5; 6; 7; 8]%Q |}
       [] [] [] (0, 0)%Q 2 6 Hs He))))).
Defined.

(** ** The crossfade compositor *)

Section Composite.

Lemma totalSamples_from slices : forall total,
  fold_left (fun total slice =>
               total + Z.of_nat (length (Brainrot.audioData slice))) slices total
  = total + Z.of_nat (length (concat (map Brainrot.audioData slices))).
Proof.
  induction slices as [|s rest IH]; intros total; simpl; [lia|].
  rewrite IH, length_app. lia.
Qed.

Lemma totalSamples_sum slices :
  Brainrot.totalSamples slices
  = Z.of_nat (length (concat (map Brainrot.audioData slices))).
Proof. unfold Brainrot.totalSamples. rewrite totalSamples_from. lia. Qed.

Lemma store_middle (pre : list Q) m rest v idx :
  idx = Z.of_nat (length pre) ->
  JS.store (pre ++ m :: rest) idx v = pre ++ v :: rest.
Proof.
  intros ->. unfold JS.store. rewrite length_app. cbn [length].
  destruct (Z.leb_spec 0 (Z.of_nat (length pre))); [|lia].
  destruct (Z.ltb_spec (Z.of_nat (length pre))
              (Z.of_nat (length pre + S (length rest)))); [|lia].
  cbn [andb]. rewrite Nat2Z.id.
  rewrite insert_app_r_alt by lia. rewrite Nat.sub_diag. reflexivity.
Qed.

(** The inner loop overwrites the next [length todo] cells after the
    cursor with the tapered samples, and nothing else. *)
Lemma writeSlice_from_app len cf cur todo : forall i pre mid post,
  length mid = length todo ->
  cur + i = Z.of_nat (length pre) ->
  Brainrot.writeSlice_from todo i len cf cur (pre ++ mid ++ post)
  = pre ++ imap (fun j sample => Brainrot.fade len cf (i + Z.of_nat j) sample) todo
        ++ post.
Proof.
  induction todo as [|s rest IH]; intros i pre mid post Hmid Hpre.
  - destruct mid; [reflexivity | discriminate].
  - destruct mid as [|m mid]; [discriminate|].
    cbn [Brainrot.writeSlice_from app].
    rewrite (store_middle pre m (mid ++ post)) by lia.
    set (v := Brainrot.fade len cf i s).
    change (pre ++ v :: mid ++ post) with (pre ++ [v] ++ mid ++ post).
    rewrite (app_assoc pre [v]).
    rewrite IH; [|simpl in *; lia | rewrite length_app; simpl; lia].
    rewrite <- app_assoc. cbn [app imap]. rewrite Z.add_0_r. do 2 f_equal.
    f_equal. apply imap_ext. intros j x _. simpl. f_equal. lia.
Qed.

Lemma length_faded cf slice :
  length (Spec.faded cf slice) = length (Brainrot.audioData slice).
Proof. apply length_imap. Qed.

(** The outer loop fills the room left after [pre] with the tapered
    slices, one after the other. *)
Lemma fold_writeSlice cf slices : forall pre room,
  length room = length (concat (map Brainrot.audioData slices)) ->
  fst (fold_left (Brainrot.writeSlice cf) slices
         (pre ++ room, Z.of_nat (length pre)))
  = pre ++ Spec.composite slices cf.
Proof.
  induction slices as [|s rest IH]; intros pre room Hroom.
  - destruct room; [reflexivity | discriminate].
  - cbn [fold_left Brainrot.writeSlice map concat] in *.
    rewrite length_app in Hroom.
    rewrite <- (take_drop (length (Brainrot.audioData s)) room).
    rewrite writeSlice_from_app;
      [| rewrite length_take; lia | lia].
    unfold Spec.composite. cbn [map concat].
    replace (imap _ (Brainrot.audioData s)) with (Spec.faded cf s)
      by (apply imap_ext; intros; f_equal).
    rewrite app_assoc.
    replace (Z.of_nat (length pre) + Z.of_nat (length (Brainrot.audioData s)))
      with (Z.of_nat (length (pre ++ Spec.faded cf s)))
      by (rewrite length_app, length_faded; lia).
    rewrite IH; [| rewrite length_drop; lia].
    rewrite <- app_assoc. reflexivity.
Qed.

(** The compositor is the concatenation of the tapered slices. *)
Lemma combine_composite slices cf :
  Brainrot.combine slices cf = Spec.composite slices cf.
Proof.
  unfold Brainrot.combine.
  apply (fold_writeSlice cf slices []).
  rewrite length_replicate, totalSamples_sum. lia.
Qed.

Lemma length_composite slices cf :
  length (Spec.composite slices cf)
  = length (concat (map Brainrot.audioData slices)).
Proof.
  unfold Spec.composite. induction slices as [|s rest IH]; [reflexivity|].
  cbn [map concat]. rewrite !length_app, IH, length_faded. reflexivity.
Qed.

(** The two tapers as gains multiplied into the sample. *)
Lemma fade_gains len cf i sample :
  (Brainrot.fade len cf i sample
   == sample
      * (if i <? cf then inject_Z i / inject_Z cf else 1)
      * (if len - cf <? i then inject_Z (len - i) / inject_Z cf else 1))%Q.
Proof.
  unfold Brainrot.fade. destruct (i <? cf), (len - cf <? i); ring.
Qed.

End Composite.

(** C6, as worded, fails at the first sample of each slice: with two
    constant slices of amplitude 1 and length 100 and a taper of 10
    samples, the fade-in gain of sample 0 is 0 / 10, so the output at the
    start of either slice is silence, not a sample of about 0.1. *)
Lemma C6_first_sample_is_silent :
  let one := {| Brainrot.audioData := replicate 100 1%Q;
                Brainrot.startTime := 0%Q; Brainrot.duration := 1%Q |} in
  let outputData := Brainrot.combine [one; one] 10 in
  exists first_of_slice0 first_of_slice1 : Q,
    JS.get outputData 0 = Some first_of_slice0
    /\ JS.get outputData 100 = Some first_of_slice1
    /\ (first_of_slice0 == 0)%Q /\ (first_of_slice1 == 0)%Q
    /\ ~ Spec.about_tenth first_of_slice0
    /\ ~ Spec.about_tenth first_of_slice1.
Proof.
  eexists. eexists.
  split; [vm_compute; reflexivity|]. split; [vm_compute; reflexivity|].
  split; [reflexivity|]. split; [reflexivity|].
  split; intros H; vm_compute in H; discriminate H.
Qed.

(** C6, amended.  The compositor returns the slices one after the other,
    without gaps, in an output whose length is the sum of the slice
    lengths.  Sample [i] of a slice of length [len] is multiplied by
    [i / crossfadeSamples] when [i < crossfadeSamples] and by
    [(len - i) / crossfadeSamples] when [i > len - crossfadeSamples]
    (both, when both hold).  For two constant slices of amplitude 1 and
    length 100 with a taper of 10 samples: sample 0 of each slice is 0,
    sample 1 is 0.1, sample 99 is 0.1, and the output has 200 samples. *)
Theorem C6_crossfade_composite :
  forall (slices : list Brainrot.SongSlice) (crossfadeSamples len i : Z)
         (sample : Q),
    Brainrot.combine slices crossfadeSamples
      = concat (map (Spec.faded crossfadeSamples) slices)
    /\ length (Brainrot.combine slices crossfadeSamples)
       = length (concat (map Brainrot.audioData slices))
    /\ Z.of_nat (length (Brainrot.combine slices crossfadeSamples))
       = Brainrot.totalSamples slices
    /\ (Brainrot.fade len crossfadeSamples i sample
        == sample
           * (if i <? crossfadeSamples
              then inject_Z i / inject_Z crossfadeSamples else 1)
           * (if len - crossfadeSamples <? i
              then inject_Z (len - i) / inject_Z crossfadeSamples else 1))%Q
    /\ (let one := {| Brainrot.audioData := replicate 100 1%Q;
                      Brainrot.startTime := 0%Q; Brainrot.duration := 1%Q |} in
        let outputData := Brainrot.combine [one; one] 10 in
        length outputData = 200%nat
        /\ option_map Qred (JS.get outputData 0) = Some 0%Q
        /\ option_map Qred (JS.get outputData 1) = Some (1 # 10)%Q
        /\ option_map Qred (JS.get outputData 50) = Some 1%Q
        /\ option_map Qred (JS.get outputData 99) = Some (1 # 10)%Q
        /\ option_map Qred (JS.get outputData 100) = Some 0%Q
        /\ option_map Qred (JS.get outputData 101) = Some (1 # 10)%Q
        /\ option_map Qred (JS.get outputData 199) = Some (1 # 10)%Q).
Proof.
  intros slices cf len i sample.
  split; [apply combine_composite|].
  split; [rewrite combine_composite; apply length_composite|].
  split; [rewrite combine_composite, length_composite, totalSamples_sum;
          reflexivity|].
  split; [apply fade_gains|].
  vm_compute. repeat split; reflexivity.
Qed.

(** ** Shuffling and selection *)

Section Shuffle.

Variable random : nat -> Q.

Lemma swap_perm slices i j : Brainrot.swap slices i j ≡ₚ slices.
Proof.
  unfold Brainrot.swap, JS.get.
  destruct (slices !! i) as [si|] eqn:Ei; [|reflexivity].
  destruct (0 <=? j); [|reflexivity].
  destruct (slices !! Z.to_nat j) as [sj|] eqn:Ej; [|reflexivity].
  apply Permutation_insert_swap; assumption.
Qed.

Lemma shuffle_from_perm : forall i calls slices,
  snd (Brainrot.shuffle_from random i calls slices) ≡ₚ slices.
Proof.
  induction i as [|i IH]; intros calls slices; [reflexivity|].
  cbn [Brainrot.shuffle_from]. rewrite IH. apply swap_perm.
Qed.

Lemma shuffle_perm slices : snd (Brainrot.shuffle random slices) ≡ₚ slices.
Proof. apply shuffle_from_perm. Qed.

(** [slice(0, n)] keeps the first [n] elements, or all of them. *)
Lemma slice_prefix {A} (l : list A) n :
  0 <= n ->
  JS.slice l 0 n = take (Z.to_nat n) l
  /\ Z.of_nat (length (JS.slice l 0 n)) = Z.min (Z.of_nat (length l)) n.
Proof.
  intros Hn. unfold JS.slice, JS.relative.
  destruct (Z.ltb_spec 0 0), (Z.ltb_spec n 0); try lia.
  replace (Z.min 0 (Z.of_nat (length l))) with 0 by lia.
  rewrite Z.sub_0_r. change (Z.to_nat 0) with 0%nat. rewrite drop_0.
  split.
  - apply list_eq. intros k. rewrite !lookup_take.
    destruct (decide (k < Z.to_nat (Z.min n (Z.of_nat (length l))))%nat),
             (decide (k < Z.to_nat n)%nat); try reflexivity; try lia.
    symmetry. apply lookup_ge_None. lia.
  - rewrite length_take. lia.
Qed.

Lemma slice_length_le {A} (l : list A) s e :
  (length (JS.slice l s e) <= length l)%nat.
Proof.
  unfold JS.slice. rewrite length_take, length_drop. lia.
Qed.

(** The drawn count: [Math.floor(Math.random() * 30) + 30]. *)
Lemma drawn_range (r : Q) :
  (0 <= r < 1)%Q -> 30 <= Qfloor (r * 30) + 30 < 60.
Proof.
  intros [H0 H1].
  assert (0 <= Qfloor (r * 30)) as Hlo.
  { apply (floor_between 0 30). split.
    - change (inject_Z 0) with 0%Q. nra.
    - change (inject_Z 30) with 30%Q. nra. }
  assert (Qfloor (r * 30) < 30) as Hhi.
  { rewrite Zlt_Qlt. eapply Qle_lt_trans; [apply Qfloor_le|].
    change (inject_Z 30) with 30%Q. nra. }
  lia.
Qed.

End Shuffle.

(** C8.  Whatever [Math.random()] returns within its range [0, 1), the
    selection holds at most as many slices as are available and at least
    the smaller of that number and 30; its size is the smaller of the
    number available and a count drawn in 30..59, and it is the front of
    a permutation of the available slices. *)
Theorem C8_selection_size :
  forall (random : nat -> Q) (slices : list Brainrot.SongSlice),
    (forall k, (0 <= random k < 1)%Q) ->
    let selected := Brainrot.shuffleAndSelect random slices in
    (length selected <= length slices)%nat
    /\ (Nat.min (length slices) 30 <= length selected)%nat
    /\ (exists drawn : Z,
          30 <= drawn < 60
          /\ Z.of_nat (length selected) = Z.min (Z.of_nat (length slices)) drawn)
    /\ (exists shuffled : list Brainrot.SongSlice,
          shuffled ≡ₚ slices /\ selected = take (length selected) shuffled).
Proof.
  intros random slices Hr selected.
  subst selected. unfold Brainrot.shuffleAndSelect.
  pose proof (shuffle_perm random slices) as Hperm.
  destruct (Brainrot.shuffle random slices) as [calls shuffled].
  cbn [snd] in Hperm. unfold Brainrot.numSlices.
  pose proof (drawn_range (random calls) (Hr calls)) as Hd.
  set (drawn := Qfloor (random calls * 30) + 30) in *.
  assert (length shuffled = length slices) as Hlen
    by (apply Permutation_length, Hperm).
  destruct (slice_prefix shuffled (Z.min (Z.of_nat (length shuffled)) drawn)
              ltac:(lia)) as [Hs Hl].
  split; [|split; [|split]].
  - rewrite <- Hlen. apply slice_length_le.
  - lia.
  - exists drawn. split; [exact Hd | lia].
  - exists shuffled. split; [exact Hperm|].
    rewrite Hs at 1. f_equal. lia.
Qed.

(** C8 with a random source that always returns 0.5 and two available
    slices: both are selected. *)
Lemma C8_selection_size_witness :
  let one := {| Brainrot.audioData := [1%Q]; Brainrot.startTime := 0%Q;
                Brainrot.duration := 1%Q |} in
  (forall k : nat, (0 <= (fun _ : nat => 1 # 2) k < 1)%Q)
  /\ (Nat.min (length [one; one]) 30
      <= length (Brainrot.shuffleAndSelect (fun _ : nat => 1 # 2) [one; one]))%nat.
Proof.
  intros one.
  assert (forall k : nat, (0 <= (fun _ : nat => 1 # 2) k < 1)%Q) as H
    by (intros k; split; [discriminate | reflexivity]).
  split; [exact H|].
  exact (proj1 (proj2 (C8_selection_size (fun _ : nat => 1 # 2) [one; one] H))).
Defined.

(** ** The brainrot pipeline *)

Section Pipeline.

Lemma slice_subset {A} (l : list A) s e x : In x (JS.slice l s e) -> In x l.
Proof.
  rewrite <- !list_elem_of_In. unfold JS.slice. intros H.
  apply (subseteq_drop (Z.to_nat (JS.relative (Z.of_nat (length l)) s))).
  eapply subseteq_take. exact H.
Qed.

(** A slice cut from a track is a raw range of that track's samples,
    located with that track's own sample rate. *)
Lemma extractTrack_raw track slice :
  In slice (Spec.extractTrack track) ->
  exists startTime endTime : Q,
    Brainrot.audioData slice
    = JS.slice (Brainrot.channelData (fst track))
        (Qfloor (startTime * inject_Z (Brainrot.sampleRate (fst track))))
        (Qfloor (endTime * inject_Z (Brainrot.sampleRate (fst track)))).
Proof.
  unfold Spec.extractTrack, Spec.extractSlices. intros H.
  apply in_map_iff in H as [[a b] [<- _]]. exists a, b. reflexivity.
Qed.

Lemma selected_raw findDownbeats random audioBuffers slice :
  In slice (Brainrot.shuffleAndSelect random
              (Brainrot.createSlices
                 (map (fun buffer => (buffer, findDownbeats buffer)) audioBuffers))) ->
  exists (buffer : Brainrot.AudioBuffer) (startTime endTime : Q),
    In buffer audioBuffers
    /\ Brainrot.audioData slice
       = JS.slice (Brainrot.channelData buffer)
           (Qfloor (startTime * inject_Z (Brainrot.sampleRate buffer)))
           (Qfloor (endTime * inject_Z (Brainrot.sampleRate buffer))).
Proof.
  unfold Brainrot.shuffleAndSelect. intros H.
  pose proof (shuffle_perm random
                (Brainrot.createSlices
                   (map (fun buffer => (buffer, findDownbeats buffer))
                      audioBuffers))) as Hperm.
  destruct (Brainrot.shuffle random _) as [calls shuffled]. cbn [snd] in Hperm.
  apply slice_subset in H.
  apply (Permutation_in _ Hperm) in H.
  rewrite createSlices_concat in H.
  apply in_concat in H as [l [Hl Hin]].
  apply in_map_iff in Hl as [track [<- Ht]].
  apply in_map_iff in Ht as [buffer [<- Hb]].
  destruct (extractTrack_raw _ _ Hin) as (a & b & E).
  exists buffer, a, b. split; [exact Hb | exact E].
Qed.

End Pipeline.

(** C10, as worded, fails on a non-empty track list from which no sample
    is selected: for a single track on which the detector finds one
    beat there is no pair of beats, so no slice, and the allocation of an
    output buffer of length 0 raises a [NotSupportedError].  No buffer is
    returned, with the first track's rate or any other. *)
Lemma C10_single_beat_track_has_no_output :
  let track := {| Brainrot.sampleRate := 44100;
                  Brainrot.channelData := [1 # 2; 1 # 4; 1 # 8]%Q |} in
  let findDownbeats := fun _ : Brainrot.AudioBuffer => [1 # 2]%Q in
  let random := fun _ : nat => 0%Q in
  Brainrot.generateBrainrotSong findDownbeats random [track]
  = Brainrot.NotSupportedError
  /\ ~ (exists processedBuffer : Brainrot.AudioBuffer,
          Brainrot.generateBrainrotSong findDownbeats random [track]
          = Brainrot.Returned processedBuffer
          /\ Brainrot.sampleRate processedBuffer = Brainrot.sampleRate track).
Proof.
  split; [vm_compute; reflexivity|].
  intros (processedBuffer & H & _). vm_compute in H. discriminate H.
Qed.

(** C10, amended.  On an empty track list the pipeline ends in a
    [TypeError]: the first track's sample rate is read unconditionally.
    On a non-empty list whose selected slices hold no sample it ends in
    a [NotSupportedError]: the output buffer cannot be allocated.  On a
    non-empty list whose selected slices hold at least one sample it
    returns a buffer that carries the sample rate of the first track,
    whose samples are the tapered selected slices one after the other (as
    many samples as the selected slices hold).  In every case each
    selected slice is a raw sample range of some input track located with
    that track's own rate: nothing is resampled. *)
Theorem C10_output_rate_is_first_track_rate :
  forall (findDownbeats : Brainrot.AudioBuffer -> list Q) (random : nat -> Q)
         (first : Brainrot.AudioBuffer) (rest : list Brainrot.AudioBuffer),
    let audioBuffers := first :: rest in
    let selected :=
      Brainrot.shuffleAndSelect random
        (Brainrot.createSlices
           (map (fun buffer => (buffer, findDownbeats buffer)) audioBuffers)) in
    let samples := concat (map Brainrot.audioData selected) in
    Brainrot.generateBrainrotSong findDownbeats random [] = Brainrot.TypeError
    /\ (samples = [] ->
        Brainrot.generateBrainrotSong findDownbeats random audioBuffers
        = Brainrot.NotSupportedError)
    /\ (samples <> [] ->
        exists processedBuffer : Brainrot.AudioBuffer,
          Brainrot.generateBrainrotSong findDownbeats random audioBuffers
            = Brainrot.Returned processedBuffer
          /\ Brainrot.sampleRate processedBuffer = Brainrot.sampleRate first
          /\ Brainrot.channelData processedBuffer
             = concat (map (Spec.faded
                              (Qfloor ((1 # 100)
                                       * inject_Z (Brainrot.sampleRate first))))
                         selected)
          /\ length (Brainrot.channelData processedBuffer) = length samples)
    /\ Forall
         (fun slice =>
            exists (buffer : Brainrot.AudioBuffer) (startTime endTime : Q),
              In buffer audioBuffers
              /\ Brainrot.audioData slice
                 = JS.slice (Brainrot.channelData buffer)
                     (Qfloor (startTime
                              * inject_Z (Brainrot.sampleRate buffer)))
                     (Qfloor (endTime
                              * inject_Z (Brainrot.sampleRate buffer))))
         selected.
Proof.
  intros findDownbeats random first rest audioBuffers selected samples.
  split; [reflexivity|].
  assert (Htotal : Brainrot.totalSamples selected = Z.of_nat (length samples))
    by apply totalSamples_sum.
  assert (Hout : length (Brainrot.combine selected
                           (Qfloor ((1 # 100)
                                    * inject_Z (Brainrot.sampleRate first))))
                 = length samples)
    by (rewrite combine_composite; apply length_composite).
  unfold Brainrot.generateBrainrotSong.
  change ((first :: rest) !! 0%nat) with (Some first). cbv zeta.
  fold audioBuffers. fold selected. unfold Brainrot.createBuffer.
  rewrite Htotal.
  split; [|split].
  - intros Hnone. rewrite Hnone. reflexivity.
  - intros Hsome.
    assert (0 < length samples)%nat as Hpos
      by (destruct samples; [congruence | cbn; lia]).
    destruct (Z.ltb_spec (Z.of_nat (length samples)) 1) as [Hlt|_]; [lia|].
    eexists. split; [reflexivity|].
    cbn [Brainrot.copyToChannel Brainrot.sampleRate Brainrot.channelData].
    rewrite length_replicate, Nat2Z.id, <- Hout, firstn_all.
    rewrite drop_ge by (rewrite length_replicate, Hout; lia).
    rewrite app_nil_r.
    split; [reflexivity|]. split; [apply combine_composite | reflexivity].
  - apply List.Forall_forall. intros slice Hin.
    exact (selected_raw findDownbeats random audioBuffers slice Hin).
Qed.

(** C10 on a 4 Hz track and an 8 Hz track: the output is returned at
    4 Hz and holds as many samples as were selected. *)
Lemma C10_output_rate_is_first_track_rate_witness :
  let trackA := {| Brainrot.sampleRate := 4;
                   Brainrot.channelData :=
                     [1; 2; 3; 4; 5; 6; 7; 8; 9; 10; 11; 12]%Q |} in
  let trackB := {| Brainrot.sampleRate := 8;
                   Brainrot.channelData :=
                     [101; 102; 103; 104; 105; 106; 107; 108; 109; 110]%Q |} in
  let findDownbeats := fun buffer =>
    if Brainrot.sampleRate buffer =? 4 then [0; 1 # 2; 3]%Q else [0; 1]%Q in
  let random := fun _ : nat => 0%Q in
  let samples :=
    concat (map Brainrot.audioData
              (Brainrot.shuffleAndSelect random
                 (Brainrot.createSlices
                    (map (fun buffer => (buffer, findDownbeats buffer))
                       [trackA; trackB])))) in
  samples <> []
  /\ exists processedBuffer : Brainrot.AudioBuffer,
       Brainrot.generateBrainrotSong findDownbeats random [trackA; trackB]
       = Brainrot.Returned processedBuffer
       /\ Brainrot.sampleRate processedBuffer = 4
       /\ length (Brainrot.channelData processedBuffer) = length samples.
Proof.
  intros trackA trackB findDownbeats random samples.
  assert (samples <> []) as H by (vm_compute; discriminate).
  split; [exact H|].
  destruct (proj1 (proj2 (proj2
              (C10_output_rate_is_first_track_rate findDownbeats random trackA
                 [trackB]))) H) as (processedBuffer & Hret & Hrate & _ & Hlen).
  exists processedBuffer. split; [exact Hret|]. split; [exact Hrate | exact Hlen].
Defined.

(** A 4 Hz track and an 8 Hz track: the second contributes one second of
    audio, 8 samples, which enter the 4 Hz output sample for sample. *)
Example mixed_rates_are_not_resampled :
  let trackA := {| Brainrot.sampleRate := 4;
                   Brainrot.channelData :=
                     [1; 2; 3; 4; 5; 6; 7; 8; 9; 10; 11; 12]%Q |} in
  let trackB := {| Brainrot.sampleRate := 8;
                   Brainrot.channelData :=
                     [101; 102; 103; 104; 105; 106; 107; 108; 109; 110]%Q |} in
  let findDownbeats := fun buffer =>
    if Brainrot.sampleRate buffer =? 4 then [0; 1 # 2; 3]%Q else [0; 1]%Q in
  Brainrot.generateBrainrotSong findDownbeats (fun _ => 0%Q) [trackA; trackB]
  = Brainrot.Returned
      {| Brainrot.sampleRate := 4;
         Brainrot.channelData :=
           [101; 102; 103; 104; 105; 106; 107; 108; 1; 2]%Q |}.
Proof. vm_compute. reflexivity. Qed.

(** ** The WAV writer *)

Section WavWriter.

Lemma length_le16 v : length (Wav.le16 v) = 2%nat.
Proof. reflexivity. Qed.

Lemma length_le32 v : length (Wav.le32 v) = 4%nat.
Proof. reflexivity. Qed.

Lemma setBytes_after written bytes total :
  (length written + length bytes <= total)%nat ->
  Wav.setBytes (fst (Riff.after written total)) (snd (Riff.after written total)) bytes
  = Some (fst (Riff.after (written ++ bytes) total)).
Proof.
  intros Hfit. unfold Riff.after, Wav.setBytes. cbn [fst snd].
  rewrite !length_app, length_replicate.
  destruct (Z.leb_spec 0 (Z.of_nat (length written))); [|lia].
  destruct (Z.leb_spec (Z.of_nat (length written) + Z.of_nat (length bytes))
              (Z.of_nat (length written + (total - length written)))); [|lia].
  cbn [andb]. rewrite Nat2Z.id, take_app_length.
  rewrite drop_app_add, drop_replicate, <- app_assoc.
  do 4 f_equal. lia.
Qed.

Lemma setUint32_after v written total :
  (length written + 4 <= total)%nat ->
  Wav.setUint32 v (Riff.after written total)
  = Some (Riff.after (written ++ Wav.le32 v) total).
Proof.
  intros Hfit. unfold Wav.setUint32.
  rewrite setBytes_after by (rewrite length_le32; lia).
  cbn [mbind option_bind]. unfold Riff.after. cbn [fst snd].
  rewrite length_app, length_le32. do 2 f_equal. lia.
Qed.

Lemma setUint16_after v written total :
  (length written + 2 <= total)%nat ->
  Wav.setUint16 v (Riff.after written total)
  = Some (Riff.after (written ++ Wav.le16 v) total).
Proof.
  intros Hfit. unfold Wav.setUint16.
  rewrite setBytes_after by (rewrite length_le16; lia).
  cbn [mbind option_bind]. unfold Riff.after. cbn [fst snd].
  rewrite length_app, length_le16. do 2 f_equal. lia.
Qed.

Lemma length_frame channels offset :
  length (Riff.frame channels offset) = (2 * length channels)%nat.
Proof.
  unfold Riff.frame. induction channels as [|c rest IH]; [reflexivity|].
  cbn [map concat length]. rewrite length_app, IH, length_le16. lia.
Qed.

Lemma writeFrame_after channels offset total : forall written,
  (length written + 2 * length channels <= total)%nat ->
  Wav.writeFrame channels offset (Riff.after written total)
  = Some (Riff.after (written ++ Riff.frame channels offset) total).
Proof.
  induction channels as [|c rest IH]; intros written Hfit.
  - unfold Riff.frame. cbn [map concat Wav.writeFrame]. now rewrite app_nil_r.
  - cbn [Wav.writeFrame]. cbn [length] in Hfit.
    rewrite setBytes_after by (rewrite length_le16; lia).
    cbn [mbind option_bind].
    replace (fst (Riff.after (written ++ Wav.le16 _) total), _)
      with (Riff.after (written ++ Wav.le16 (Wav.int16OfSample (c !! offset))) total).
    + rewrite IH by (rewrite length_app, length_le16; lia).
      unfold Riff.frame. cbn [map concat]. now rewrite <- app_assoc.
    + unfold Riff.after. cbn [fst snd]. rewrite length_app, length_le16.
      do 2 f_equal. lia.
Qed.

Lemma length_frames channels offset n :
  length (concat (map (Riff.frame channels) (seq offset n)))
  = (2 * length channels * n)%nat.
Proof.
  revert offset. induction n as [|n IH]; intros offset; [simpl; lia|].
  cbn [seq map concat]. rewrite length_app, IH, length_frame. lia.
Qed.

Lemma writeData_after channels total : forall fuel offset written,
  (length written + 2 * length channels * fuel = total)%nat ->
  Wav.writeData fuel channels (Z.of_nat total) offset (Riff.after written total)
  = Some (Riff.after
            (written ++ concat (map (Riff.frame channels) (seq offset fuel))) total).
Proof.
  induction fuel as [|fuel IH]; intros offset written Htotal.
  - cbn [Wav.writeData seq map concat]. now rewrite app_nil_r.
  - cbn [Wav.writeData seq map concat].
    unfold Riff.after at 1. cbn [snd]. fold (Riff.after written total).
    destruct (Z.ltb_spec (Z.of_nat (length written)) (Z.of_nat total)) as [Hlt|Hge].
    + rewrite writeFrame_after by lia. cbn [mbind option_bind].
      rewrite IH by (rewrite length_app, length_frame; lia).
      now rewrite <- app_assoc.
    + assert (length channels = 0%nat) as Hc by lia.
      apply length_zero_iff_nil in Hc. subst channels.
      replace (Riff.frame [] offset ++ concat (map (Riff.frame []) (seq (S offset) fuel)))
        with (@nil Z); [now rewrite app_nil_r|].
      symmetry. apply length_zero_iff_nil.
      rewrite length_app, length_frame, length_frames. reflexivity.
Qed.

Lemma length_header buffer : length (Riff.header buffer) = 44%nat.
Proof. reflexivity. Qed.

Lemma length_data buffer :
  length (Riff.data buffer)
  = (2 * length (Wav.channels buffer) * Wav.bufferLength buffer)%nat.
Proof. apply length_frames. Qed.

Ltac fits := rewrite ?length_app, ?length_le32, ?length_le16; cbn [length]; lia.
Ltac header_step :=
  first [rewrite setUint32_after by fits | rewrite setUint16_after by fits];
  cbn [mbind option_bind].

Lemma writeHeader_after buffer total :
  Z.of_nat total = Riff.fileSize buffer ->
  Wav.writeHeader buffer (Z.of_nat total) (Riff.after [] total)
  = Some (Riff.after (Riff.header buffer) total).
Proof.
  intros Htotal. unfold Wav.writeHeader.
  assert (44 <= total)%nat as H44.
  { unfold Riff.fileSize, Wav.numberOfChannels in Htotal. nia. }
  do 12 header_step.
  rewrite setUint32_after by fits.
  do 2 f_equal. unfold Riff.after. cbn [snd].
  rewrite !length_app, !length_le32, !length_le16. cbn [length].
  unfold Riff.header. rewrite <- !app_assoc. cbn [app].
  rewrite Htotal.
  replace (Riff.fileSize buffer
           - Z.of_nat (0 + 4 + 4 + 4 + 4 + 4 + 2 + 2 + 4 + 4 + 2 + 2 + 4) - 4)
    with (Riff.fileSize buffer - 44) by lia.
  reflexivity.
Qed.

(** The writer never leaves the buffer, and the buffer it returns is the
    canonical header followed by the interleaved samples. *)
Lemma audioBufferToWav_layout buffer :
  Wav.audioBufferToWav buffer = Some (Riff.header buffer ++ Riff.data buffer).
Proof.
  unfold Wav.audioBufferToWav.
  pose (total := (44 + 2 * length (Wav.channels buffer) * Wav.bufferLength buffer)%nat).
  assert (Hsize : Z.of_nat total = Riff.fileSize buffer)
    by (unfold Riff.fileSize, Wav.numberOfChannels; lia).
  replace (Z.of_nat (Wav.bufferLength buffer) * Wav.numberOfChannels buffer * 2 + 44)
    with (Z.of_nat total) by (unfold Wav.numberOfChannels; lia).
  rewrite Nat2Z.id.
  change (replicate total 0, 0) with (Riff.after [] total).
  rewrite writeHeader_after by exact Hsize. cbn [mbind option_bind].
  unfold Riff.data. rewrite writeData_after by (rewrite length_header; lia).
  cbn [mbind option_bind]. unfold Riff.after. cbn [fst].
  rewrite length_app, length_header, length_frames.
  replace (total - _)%nat with 0%nat by lia.
  cbn [replicate]. now rewrite app_nil_r.
Qed.

End WavWriter.

Section WavReadBack.

Lemma getUint16_le16 (pre post : list Z) v :
  0 <= v < 65536 ->
  Wav.getUint16 (pre ++ Wav.le16 v ++ post) (length pre) = Some v.
Proof.
  intros Hv. unfold Wav.getUint16.
  rewrite (lookup_app_r pre) by lia.
  rewrite (lookup_app_r pre) by lia.
  replace (length pre - length pre)%nat with 0%nat by lia.
  replace (S (length pre) - length pre)%nat with 1%nat by lia.
  cbn. f_equal. Z.to_euclidean_division_equations. lia.
Qed.

Lemma getUint32_le32 (pre post : list Z) v :
  0 <= v < 4294967296 ->
  Wav.getUint32 (pre ++ Wav.le32 v ++ post) (length pre) = Some v.
Proof.
  intros Hv. unfold Wav.getUint32.
  rewrite !(lookup_app_r pre) by lia.
  replace (length pre - length pre)%nat with 0%nat by lia.
  replace (length pre + 1 - length pre)%nat with 1%nat by lia.
  replace (length pre + 2 - length pre)%nat with 2%nat by lia.
  replace (length pre + 3 - length pre)%nat with 3%nat by lia.
  cbn. f_equal. Z.to_euclidean_division_equations. lia.
Qed.

Lemma getInt16_le16 (pre post : list Z) v :
  -32768 <= v <= 32767 ->
  Wav.getInt16 (pre ++ Wav.le16 v ++ post) (length pre) = Some v.
Proof.
  intros Hv. unfold Wav.getInt16, Wav.getUint16.
  rewrite (lookup_app_r pre) by lia.
  rewrite (lookup_app_r pre) by lia.
  replace (length pre - length pre)%nat with 0%nat by lia.
  replace (S (length pre) - length pre)%nat with 1%nat by lia.
  cbn. f_equal.
  destruct (Z.ltb_spec (v mod 256 + 256 * (v / 256 mod 256)) 32768);
    Z.to_euclidean_division_equations; lia.
Qed.

End WavReadBack.

(** ** Further properties: the WAV writer *)

(** X1.  [audioBufferToWav] never writes outside its buffer (no
    [RangeError]), whatever the buffer: it returns the 44 header bytes
    followed by the frames in order, each frame holding one 16-bit sample
    per channel, and the file has 44 + 2 * frames * channels bytes.  The
    file opens with "RIFF", and "WAVE", "fmt " and "data" sit at offsets
    8, 12 and 36. *)
Theorem X1_wav_writer_fills_its_buffer_exactly :
  forall buffer : Wav.AudioBuffer,
    exists bytes : list Z,
      Wav.audioBufferToWav buffer = Some bytes
      /\ bytes = Riff.header buffer ++ Riff.data buffer
      /\ Z.of_nat (length bytes)
         = 44 + 2 * Z.of_nat (Wav.bufferLength buffer) * Wav.numberOfChannels buffer
      /\ take 4 bytes = [82; 73; 70; 70]
      /\ take 8 (drop 8 bytes) = [87; 65; 86; 69; 102; 109; 116; 32]
      /\ take 4 (drop 36 bytes) = [100; 97; 116; 97].
Proof.
  intros buffer. exists (Riff.header buffer ++ Riff.data buffer).
  split; [apply audioBufferToWav_layout|]. split; [reflexivity|].
  split; [|repeat split; reflexivity].
  rewrite length_app, length_header, length_data.
  unfold Wav.numberOfChannels. lia.
Qed.

(** X2.  When the file is shorter than 2^32 bytes, the two size fields of
    the header read back as the file length minus 8 (RIFF chunk, offset 4)
    and the file length minus 44 (data chunk, offset 40), the latter being
    2 * frames * channels. *)
Theorem X2_wav_size_fields_match_the_file :
  forall (buffer : Wav.AudioBuffer) (bytes : list Z),
    Riff.fileSize buffer < 4294967296 ->
    Wav.audioBufferToWav buffer = Some bytes ->
    Wav.getUint32 bytes 4 = Some (Z.of_nat (length bytes) - 8)
    /\ Wav.getUint32 bytes 40 = Some (Z.of_nat (length bytes) - 44)
    /\ Z.of_nat (length bytes) - 44
       = 2 * Z.of_nat (Wav.bufferLength buffer) * Wav.numberOfChannels buffer.
Proof.
  intros buffer bytes Hsize Hwav.
  assert (bytes = Riff.header buffer ++ Riff.data buffer) as ->
    by (pose proof (audioBufferToWav_layout buffer); congruence).
  assert (Hlen : Z.of_nat (length (Riff.header buffer ++ Riff.data buffer))
                 = Riff.fileSize buffer).
  { rewrite length_app, length_header, length_data.
    unfold Riff.fileSize, Wav.numberOfChannels. lia. }
  assert (44 <= Riff.fileSize buffer)
    by (unfold Riff.fileSize, Wav.numberOfChannels; nia).
  rewrite Hlen. split; [|split].
  - exact (getUint32_le32 [82; 73; 70; 70]
             (drop 8 (Riff.header buffer) ++ Riff.data buffer)
             (Riff.fileSize buffer - 8) ltac:(lia)).
  - exact (getUint32_le32 (take 40 (Riff.header buffer)) (Riff.data buffer)
             (Riff.fileSize buffer - 44) ltac:(lia)).
  - unfold Riff.fileSize. lia.
Qed.

(** X2 on three mono frames at 44100 Hz: a file of 50 bytes. *)
Lemma X2_wav_size_fields_match_the_file_witness :
  let buffer := {| Wav.bufferLength := 3; Wav.sampleRate := 44100;
                   Wav.channels := [[1; -1; 1 # 2]%Q] |} in
  Riff.fileSize buffer < 4294967296
  /\ Wav.getUint32 (Riff.header buffer ++ Riff.data buffer) 4 = Some (50 - 8).
Proof.
  intros buffer.
  assert (Riff.fileSize buffer < 4294967296) as Hsize by (vm_compute; reflexivity).
  split; [exact Hsize|].
  exact (proj1 (X2_wav_size_fields_match_the_file buffer
                  (Riff.header buffer ++ Riff.data buffer) Hsize
                  (audioBufferToWav_layout buffer))).
Defined.

(** X3.  For a sample rate and a channel count that fit their fields, the
    format chunk reads back as: chunk length 16, format 1 (PCM), the
    channel count, the sample rate, a byte rate equal to the sample rate
    times the block align, a block align of two bytes per channel, and 16
    bits per sample. *)
Theorem X3_wav_format_fields_read_back :
  forall (buffer : Wav.AudioBuffer) (bytes : list Z),
    0 <= Wav.sampleRate buffer ->
    Wav.sampleRate buffer * Wav.numberOfChannels buffer * 2 < 4294967296 ->
    Wav.sampleRate buffer < 4294967296 ->
    Wav.numberOfChannels buffer < 32768 ->
    Wav.audioBufferToWav buffer = Some bytes ->
    exists blockAlign : Z,
      Wav.getUint32 bytes 16 = Some 16
      /\ Wav.getUint16 bytes 20 = Some 1
      /\ Wav.getUint16 bytes 22 = Some (Wav.numberOfChannels buffer)
      /\ Wav.getUint32 bytes 24 = Some (Wav.sampleRate buffer)
      /\ Wav.getUint32 bytes 28 = Some (Wav.sampleRate buffer * blockAlign)
      /\ Wav.getUint16 bytes 32 = Some blockAlign
      /\ blockAlign = 2 * Wav.numberOfChannels buffer
      /\ Wav.getUint16 bytes 34 = Some 16.
Proof.
  intros buffer bytes Hsr Hrate Hsr32 Hch Hwav.
  assert (bytes = Riff.header buffer ++ Riff.data buffer) as ->
    by (pose proof (audioBufferToWav_layout buffer); congruence).
  assert (0 <= Wav.numberOfChannels buffer) by (unfold Wav.numberOfChannels; lia).
  exists (2 * Wav.numberOfChannels buffer).
  split; [reflexivity|]. split; [reflexivity|].
  split.
  { exact (getUint16_le16 (take 22 (Riff.header buffer))
             (drop 24 (Riff.header buffer) ++ Riff.data buffer)
             (Wav.numberOfChannels buffer) ltac:(lia)). }
  split.
  { exact (getUint32_le32 (take 24 (Riff.header buffer))
             (drop 28 (Riff.header buffer) ++ Riff.data buffer)
             (Wav.sampleRate buffer) ltac:(lia)). }
  split.
  { replace (Wav.sampleRate buffer * (2 * Wav.numberOfChannels buffer))
      with (Wav.sampleRate buffer * Wav.numberOfChannels buffer * 2) by lia.
    exact (getUint32_le32 (take 28 (Riff.header buffer))
             (drop 32 (Riff.header buffer) ++ Riff.data buffer)
             (Wav.sampleRate buffer * Wav.numberOfChannels buffer * 2)
             ltac:(nia)). }
  split.
  { replace (2 * Wav.numberOfChannels buffer)
      with (Wav.numberOfChannels buffer * 2) by lia.
    exact (getUint16_le16 (take 32 (Riff.header buffer))
             (drop 34 (Riff.header buffer) ++ Riff.data buffer)
             (Wav.numberOfChannels buffer * 2) ltac:(lia)). }
  split; reflexivity.
Qed.

(** X3 on a stereo buffer at 48000 Hz. *)
Lemma X3_wav_format_fields_read_back_witness :
  let buffer := {| Wav.bufferLength := 2; Wav.sampleRate := 48000;
                   Wav.channels := [[1; -1]%Q; [0; 1 # 2]%Q] |} in
  0 <= Wav.sampleRate buffer
  /\ Wav.sampleRate buffer * Wav.numberOfChannels buffer * 2 < 4294967296
  /\ Wav.sampleRate buffer < 4294967296
  /\ Wav.numberOfChannels buffer < 32768
  /\ exists blockAlign : Z,
       Wav.getUint32 (Riff.header buffer ++ Riff.data buffer) 28
       = Some (48000 * blockAlign)
       /\ blockAlign = 4.
Proof.
  intros buffer.
  assert (0 <= Wav.sampleRate buffer) as H1 by (vm_compute; discriminate).
  assert (Wav.sampleRate buffer * Wav.numberOfChannels buffer * 2 < 4294967296)
    as H2 by (vm_compute; reflexivity).
  assert (Wav.sampleRate buffer < 4294967296) as H3 by (vm_compute; reflexivity).
  assert (Wav.numberOfChannels buffer < 32768) as H4 by (vm_compute; reflexivity).
  repeat (split; [assumption|]).
  destruct (X3_wav_format_fields_read_back buffer
              (Riff.header buffer ++ Riff.data buffer) H1 H2 H3 H4
              (audioBufferToWav_layout buffer))
    as (blockAlign & _ & _ & _ & _ & Hrate & _ & Halign & _).
  exists blockAlign. split; [exact Hrate | exact Halign].
Defined.

Section WavSamples.

Lemma getInt16_bytes (bytes : list Z) (p : nat) (v : Z) :
  -32768 <= v <= 32767 ->
  bytes !! p = Some (v mod 256) ->
  bytes !! S p = Some ((v / 256) mod 256) ->
  Wav.getInt16 bytes p = Some v.
Proof.
  intros Hv H0 H1. unfold Wav.getInt16, Wav.getUint16. rewrite H0, H1.
  cbn. f_equal.
  destruct (Z.ltb_spec (v mod 256 + 256 * (v / 256 mod 256)) 32768);
    Z.to_euclidean_division_equations; lia.
Qed.

Lemma lookup_frame channels offset : forall c channel (b : nat),
  channels !! c = Some channel -> (b < 2)%nat ->
  Riff.frame channels offset !! (2 * c + b)%nat
  = Wav.le16 (Wav.int16OfSample (channel !! offset)) !! b.
Proof.
  unfold Riff.frame.
  induction channels as [|ch rest IH]; intros c channel b Hc Hb; [discriminate|].
  cbn [map concat]. destruct c as [|c].
  - injection Hc as ->. rewrite lookup_app_l by (rewrite length_le16; lia).
    f_equal.
  - cbn in Hc. rewrite lookup_app_r by (rewrite length_le16; lia).
    rewrite length_le16.
    replace (2 * S c + b - 2)%nat with (2 * c + b)%nat by lia.
    apply IH; assumption.
Qed.

Lemma lookup_frames channels : forall n offset k (j : nat),
  (k < n)%nat -> (j < 2 * length channels)%nat ->
  concat (map (Riff.frame channels) (seq offset n))
    !! (k * (2 * length channels) + j)%nat
  = Riff.frame channels (offset + k) !! j.
Proof.
  induction n as [|n IH]; intros offset k j Hk Hj; [lia|].
  cbn [seq map concat]. destruct k as [|k].
  - rewrite lookup_app_l by (rewrite length_frame; lia).
    now rewrite Nat.add_0_r.
  - rewrite lookup_app_r by (rewrite length_frame; lia).
    rewrite length_frame.
    replace (S k * (2 * length channels) + j - 2 * length channels)%nat
      with (k * (2 * length channels) + j)%nat by lia.
    rewrite IH by lia.
    replace (S offset + k)%nat with (offset + S k)%nat by lia. reflexivity.
Qed.

(** Byte [b] of the sample of channel [c] in frame [k]. *)
Lemma lookup_sample_byte buffer k c channel (b : nat) :
  (k < Wav.bufferLength buffer)%nat ->
  Wav.channels buffer !! c = Some channel -> (b < 2)%nat ->
  (Riff.header buffer ++ Riff.data buffer)
    !! (44 + 2 * (k * length (Wav.channels buffer) + c) + b)%nat
  = Wav.le16 (Wav.int16OfSample (channel !! k)) !! b.
Proof.
  intros Hk Hc Hb.
  pose proof (lookup_lt_Some _ _ _ Hc) as Hlt.
  rewrite lookup_app_r by (rewrite length_header; lia).
  rewrite length_header. unfold Riff.data.
  replace (44 + 2 * (k * length (Wav.channels buffer) + c) + b - 44)%nat
    with (k * (2 * length (Wav.channels buffer)) + (2 * c + b))%nat by lia.
  rewrite lookup_frames by lia.
  apply lookup_frame; assumption.
Qed.

End WavSamples.

(** X4.  Reading the file back, the 16-bit sample at byte offset
    44 + 2 * (k * channels + c) is the quantised sample [k] of channel
    [c]: the frames are interleaved channel by channel, in order, and no
    sample is lost or wrapped. *)
Theorem X4_wav_samples_read_back :
  forall (buffer : Wav.AudioBuffer) (bytes : list Z) (k c : nat)
         (channel : list Q) (x : Q),
    Wav.audioBufferToWav buffer = Some bytes ->
    (k < Wav.bufferLength buffer)%nat ->
    Wav.channels buffer !! c = Some channel ->
    channel !! k = Some x ->
    Wav.getInt16 bytes (44 + 2 * (k * length (Wav.channels buffer) + c))
    = Some (Brainrot.wavSample x).
Proof.
  intros buffer bytes k c channel x Hwav Hk Hc Hx.
  assert (bytes = Riff.header buffer ++ Riff.data buffer) as ->
    by (pose proof (audioBufferToWav_layout buffer); congruence).
  pose proof (lookup_sample_byte buffer k c channel 0 Hk Hc ltac:(lia)) as H0.
  pose proof (lookup_sample_byte buffer k c channel 1 Hk Hc ltac:(lia)) as H1.
  rewrite Hx in H0, H1. cbn [Wav.int16OfSample] in H0, H1.
  rewrite Nat.add_0_r in H0.
  replace (44 + 2 * (k * length (Wav.channels buffer) + c) + 1)%nat
    with (S (44 + 2 * (k * length (Wav.channels buffer) + c))) in H1 by lia.
  apply getInt16_bytes; [apply wavSample_trunc | exact H0 | exact H1].
Qed.

(** X4 on a stereo buffer: frame 1 of channel 1 holds 0.5, stored as
    16383 at byte 50. *)
Lemma X4_wav_samples_read_back_witness :
  let buffer := {| Wav.bufferLength := 2; Wav.sampleRate := 48000;
                   Wav.channels := [[1; -1]%Q; [0; 1 # 2]%Q] |} in
  (1 < Wav.bufferLength buffer)%nat
  /\ Wav.channels buffer !! 1%nat = Some [0; 1 # 2]%Q
  /\ [0; 1 # 2]%Q !! 1%nat = Some (1 # 2)%Q
  /\ Wav.getInt16 (Riff.header buffer ++ Riff.data buffer) 50 = Some 16383.
Proof.
  intros buffer.
  assert (1 < Wav.bufferLength buffer)%nat as Hk by (cbn; lia).
  assert (Wav.channels buffer !! 1%nat = Some [0; 1 # 2]%Q) as Hc by reflexivity.
  assert ([0; 1 # 2]%Q !! 1%nat = Some (1 # 2)%Q) as Hx by reflexivity.
  split; [exact Hk|]. split; [exact Hc|]. split; [exact Hx|].
  exact (X4_wav_samples_read_back buffer (Riff.header buffer ++ Riff.data buffer)
           1 1 [0; 1 # 2]%Q (1 # 2)%Q (audioBufferToWav_layout buffer) Hk Hc Hx).
Defined.

(** X5.  For a single-channel buffer, as both pipelines produce, the file
    is the header followed by the quantised samples of [wavSamples] in
    order, two bytes each, low byte first: 44 + 2 * samples bytes. *)
Theorem X5_mono_wav_is_header_then_samples :
  forall (buffer : Brainrot.AudioBuffer),
    Wav.audioBufferToWav (Wav.ofMono buffer)
    = Some (Riff.header (Wav.ofMono buffer)
            ++ concat (map Wav.le16 (Brainrot.wavSamples buffer)))
    /\ length (Riff.header (Wav.ofMono buffer)
               ++ concat (map Wav.le16 (Brainrot.wavSamples buffer)))
       = (44 + 2 * length (Brainrot.channelData buffer))%nat.
Proof.
  intros buffer.
  assert (Hdata : Riff.data (Wav.ofMono buffer)
                  = concat (map Wav.le16 (Brainrot.wavSamples buffer))).
  { unfold Riff.data, Wav.ofMono, Brainrot.wavSamples.
    cbn [Wav.channels Wav.bufferLength].
    generalize (Brainrot.channelData buffer) as l.
    assert (Hgen : forall (l pre : list Q),
              concat (map (Riff.frame [pre ++ l]) (seq (length pre) (length l)))
              = concat (map Wav.le16 (map Brainrot.wavSample l))).
    { induction l as [|x l IH]; intros pre; [reflexivity|].
      cbn [length seq map concat]. f_equal.
      - unfold Riff.frame. cbn [map concat].
        rewrite lookup_app_r by lia. rewrite Nat.sub_diag. cbn.
        reflexivity.
      - specialize (IH (pre ++ [x])). rewrite <- app_assoc in IH. cbn [app] in IH.
        rewrite length_app in IH. cbn [length] in IH.
        replace (length pre + 1)%nat with (S (length pre)) in IH by lia.
        exact IH. }
    intros l. exact (Hgen l []). }
  split.
  - rewrite audioBufferToWav_layout, Hdata. reflexivity.
  - rewrite <- Hdata, length_app, length_header, length_data.
    cbn [Wav.ofMono Wav.channels Wav.bufferLength length]. lia.
Qed.

(** ** Further properties: what the mixers add up to *)

Section Superposed.

(** One overlay adds its contribution to every sample that exists. *)
Lemma addSound_adds samples position gain total output k x :
  total = Z.of_nat (length output) ->
  JS.get output k = Some x ->
  exists y, JS.get (addSound samples position gain total output) k = Some y
            /\ (y == x + Superposition.contribution samples position gain k)%Q.
Proof.
  intros -> Hx. unfold addSound, Superposition.contribution.
  destruct position as [p|].
  - rewrite get_addSound_from, Hx. replace (k - p - 0) with (k - p) by lia.
    destruct (JS.get samples (k - p)) as [s|].
    + eexists. split; reflexivity.
    + exists x. split; [reflexivity | ring].
  - rewrite addSound_from_NaN. exists x. split; [exact Hx | ring].
Qed.

Variables (tickSamples tockSamples : list Q) (tickGain tockGain : Q).
Variable tickPosition : Q -> Z.
Variable tockPosition : Q -> nat -> list Q -> JS.index.

Lemma forEach_from_adds total arr k : forall todo index output x,
  total = Z.of_nat (length output) ->
  JS.get output k = Some x ->
  exists y,
    JS.get (JS.forEach_from
              (Superposition.tickThenTock tickSamples tockSamples tickGain
                 tockGain tickPosition tockPosition total)
              arr index todo output) k = Some y
    /\ (y == x + Superposition.sum_from
                   (Superposition.added tickSamples tockSamples tickGain tockGain
                      tickPosition tockPosition k)
                   arr index todo)%Q.
Proof.
  induction todo as [|beat rest IH]; intros index output x Htotal Hx.
  - exists x. split; [exact Hx | simpl; ring].
  - cbn [JS.forEach_from Superposition.sum_from].
    unfold Superposition.tickThenTock at 2.
    destruct (addSound_adds tickSamples (Some (tickPosition beat)) tickGain
                total output k x Htotal Hx) as (x1 & H1 & E1).
    assert (Hlen1 : total = Z.of_nat (length (addSound tickSamples
                      (Some (tickPosition beat)) tickGain total output)))
      by (rewrite length_addSound; exact Htotal).
    destruct (addSound_adds tockSamples (tockPosition beat index arr) tockGain
                total _ k x1 Hlen1 H1) as (x2 & H2 & E2).
    assert (Hlen2 : total = Z.of_nat (length (addSound tockSamples
                      (tockPosition beat index arr) tockGain total
                      (addSound tickSamples (Some (tickPosition beat)) tickGain
                         total output))))
      by (rewrite !length_addSound; exact Htotal).
    destruct (IH (S index) _ x2 Hlen2 H2) as (y & Hy & Ey).
    exists y. split; [exact Hy|].
    rewrite Ey, E2, E1. unfold Superposition.added. ring.
Qed.


Lemma get_map (f : Q -> Q) (l : list Q) k :
  JS.get (map f l) k = option_map f (JS.get l k).
Proof.
  unfold JS.get. destruct (0 <=? k); [|reflexivity].
  change (map f l) with (f <$> l). rewrite list_lookup_fmap.
  destruct (l !! Z.to_nat k); reflexivity.
Qed.

End Superposed.

(** X6.  Tick-and-tock browser mix: every output sample is half the
    original sample plus, summed over all beats, 0.4 times the tick sample
    aligned with it and 0.4 times the tock sample aligned with it.
    Overlays that overlap add up; nothing else changes the signal. *)
Theorem X6_ticktock_mix_is_a_sum_of_overlays :
  forall (audioData beats tickSamples tockSamples : list Q) (sampleRate k : Z)
         (x : Q),
    JS.get audioData k = Some x ->
    exists y : Q,
      JS.get (TickTock.processAudioInBrowser audioData sampleRate beats
                tickSamples tockSamples) k = Some y
      /\ (y == x * (1 # 2)
               + Superposition.sum
                   (Superposition.added tickSamples tockSamples (4 # 10) (4 # 10)
                      (fun beat => TickTock.samplePosition beat sampleRate)
                      (fun beat index arr =>
                         Some (TickTock.halfBeatPosition beat index arr sampleRate))
                      k)
                   beats)%Q.
Proof.
  intros audioData beats tickSamples tockSamples sampleRate k x Hx.
  unfold TickTock.processAudioInBrowser, JS.forEach, Superposition.sum.
  apply (forEach_from_adds tickSamples tockSamples (4 # 10) (4 # 10)
           (fun beat => TickTock.samplePosition beat sampleRate)
           (fun beat index arr =>
              Some (TickTock.halfBeatPosition beat index arr sampleRate))).
  - unfold TickTock.copyOriginal. now rewrite length_map.
  - unfold TickTock.copyOriginal. rewrite get_map, Hx. reflexivity.
Qed.

(** X6 on four samples with one beat at sample 1: sample 2 gets the
    second tick sample. *)
Lemma X6_ticktock_mix_is_a_sum_of_overlays_witness :
  JS.get [1; 1; 1; 1]%Q 2 = Some 1%Q
  /\ exists y : Q,
       JS.get (TickTock.processAudioInBrowser [1; 1; 1; 1]%Q 4 [1 # 4]%Q
                 [1; 1 # 2]%Q [1]%Q) 2 = Some y
       /\ (y == 1 * (1 # 2)
                + Superposition.sum
                    (Superposition.added [1; 1 # 2]%Q [1]%Q (4 # 10) (4 # 10)
                       (fun beat => TickTock.samplePosition beat 4)
                       (fun beat index arr =>
                          Some (TickTock.halfBeatPosition beat index arr 4))
                       2)
                    [1 # 4]%Q)%Q.
Proof.
  assert (JS.get [1; 1; 1; 1]%Q 2 = Some 1%Q) as H by reflexivity.
  split; [exact H|].
  exact (X6_ticktock_mix_is_a_sum_of_overlays [1; 1; 1; 1]%Q [1 # 4]%Q
           [1; 1 # 2]%Q [1]%Q 4 2 1%Q H).
Defined.

(** X7.  Server-side mix, before it is quantised: every sample of the
    output buffer is half the original sample plus, summed over all
    beats, 0.4 times the aligned tick sample and 0.4 times the aligned
    tock sample, a beat without successor adding no tock (its position
    is [NaN]).  Overlays that overlap add up; nothing else changes the
    signal. *)
Theorem X7_server_mix_is_a_sum_of_overlays :
  forall (music ticks tickSamples tockSamples : list Q) (sampleRate k : Z)
         (x : Q),
    JS.get music k = Some x ->
    exists y : Q,
      JS.get (Buffer.mix music sampleRate ticks tickSamples tockSamples) k = Some y
      /\ (y == x * (1 # 2)
               + Superposition.sum
                   (Superposition.added tickSamples tockSamples (4 # 10) (4 # 10)
                      (fun tickTime => Buffer.samplePosition tickTime sampleRate)
                      (fun tickTime index arr =>
                         Buffer.halfBeatPostition tickTime index arr sampleRate)
                      k)
                   ticks)%Q.
Proof.
  intros music ticks tickSamples tockSamples sampleRate k x Hx.
  apply (forEach_from_adds tickSamples tockSamples (4 # 10) (4 # 10)
           (fun tickTime => Buffer.samplePosition tickTime sampleRate)
           (fun tickTime index arr =>
              Buffer.halfBeatPostition tickTime index arr sampleRate)
           (Z.of_nat (length music)) ticks k ticks 0%nat
           (Buffer.copyOriginal music) (x * (1 # 2))%Q).
  - unfold Buffer.copyOriginal. now rewrite length_map.
  - unfold Buffer.copyOriginal. rewrite get_map, Hx. reflexivity.
Qed.

(** X7 on four samples with the single beat 0.25 s at 4 Hz: the beat has
    no successor, so sample 2 gets the second tick sample and no tock. *)
Lemma X7_server_mix_is_a_sum_of_overlays_witness :
  JS.get [1; 1; 1; 1]%Q 2 = Some 1%Q
  /\ exists y : Q,
       JS.get (Buffer.mix [1; 1; 1; 1]%Q 4 [1 # 4]%Q [1; 1 # 2]%Q [1]%Q) 2 = Some y
       /\ (y == 1 * (1 # 2)
                + Superposition.sum
                    (Superposition.added [1; 1 # 2]%Q [1]%Q (4 # 10) (4 # 10)
                       (fun tickTime => Buffer.samplePosition tickTime 4)
                       (fun tickTime index arr =>
                          Buffer.halfBeatPostition tickTime index arr 4)
                       2)
                    [1 # 4]%Q)%Q.
Proof.
  assert (JS.get [1; 1; 1; 1]%Q 2 = Some 1%Q) as H by reflexivity.
  split; [exact H|].
  exact (X7_server_mix_is_a_sum_of_overlays [1; 1; 1; 1]%Q [1 # 4]%Q
           [1; 1 # 2]%Q [1]%Q 4 2 1%Q H).
Defined.

(** ** Further properties: what a beat leaves alone *)

Section BeforeTheBeat.

Lemma forEach_from_keeps (f : Q -> nat -> list Q -> list Q -> list Q)
    (arr : list Q) (k : Z) (n : nat) (P : Q -> Prop) :
  (forall x index st, P x -> length st = n ->
     JS.get (f x index arr st) k = JS.get st k /\ length (f x index arr st) = n) ->
  forall todo index st, Forall P todo -> length st = n ->
    JS.get (JS.forEach_from f arr index todo st) k = JS.get st k.
Proof.
  intros Hf todo. induction todo as [|x rest IH]; intros index st HP Hn.
  - reflexivity.
  - cbn [JS.forEach_from]. apply Forall_cons in HP as [Hx Hrest].
    destruct (Hf x index st Hx Hn) as [Hget Hlen].
    rewrite IH by assumption. exact Hget.
Qed.

(** An overlay placed after index [k] does not reach it. *)
Lemma addSound_after samples position gain output k :
  match position with Some p => k < p | None => True end ->
  JS.get (addSound samples position gain (Z.of_nat (length output)) output) k
  = JS.get output k.
Proof.
  intros Hk. unfold addSound. destruct position as [p|].
  - rewrite get_addSound_from.
    assert (JS.get samples (k - p - 0) = None) as ->
      by (apply get_None_iff; lia).
    destruct (JS.get output k); reflexivity.
  - now rewrite addSound_from_NaN.
Qed.

Lemma floor_scaled_le (s t : Q) (sampleRate : Z) :
  0 <= sampleRate -> (s <= t)%Q ->
  Qfloor (s * inject_Z sampleRate) <= Qfloor (t * inject_Z sampleRate).
Proof.
  intros Hsr Hst. apply Qfloor_resp_le.
  assert (0 <= inject_Z sampleRate)%Q by (rewrite Zle_Qle in Hsr; exact Hsr).
  nra.
Qed.

Lemma half_after_beat (t next : Q) : (t <= t + Qabs (next - t) / 2)%Q.
Proof.
  pose proof (Qabs_nonneg (next - t)) as H.
  assert (0 <= Qabs (next - t) / 2)%Q
    by (apply Qle_shift_div_l; [reflexivity | rewrite Qmult_0_l; exact H]).
  lra.
Qed.

Lemma ticktock_tock_after_tick beatTime index arr sampleRate :
  0 <= sampleRate ->
  TickTock.samplePosition beatTime sampleRate
  <= TickTock.halfBeatPosition beatTime index arr sampleRate.
Proof.
  intros Hsr. apply floor_scaled_le; [exact Hsr | apply half_after_beat].
Qed.

Lemma buffer_tock_after_tick tickTime index arr sampleRate p :
  0 <= sampleRate ->
  Buffer.halfBeatPostition tickTime index arr sampleRate = Some p ->
  Buffer.samplePosition tickTime sampleRate <= p.
Proof.
  intros Hsr. unfold Buffer.halfBeatPostition.
  destruct (arr !! S index) as [next|]; [|discriminate].
  intros E.
  assert (p = Qfloor ((tickTime + Qabs (next - tickTime) / 2) * inject_Z sampleRate))
    as -> by congruence.
  apply floor_scaled_le; [exact Hsr | apply half_after_beat].
Qed.

End BeforeTheBeat.

(** X8.  Ahead of every beat the signal is only scaled by the base
    volume.  With a sample rate that is not negative, an index [k] below
    the sample position of every beat keeps the original sample times 0.5
    in the two tick-and-tock mixers (the tock never precedes its beat) and
    the original sample itself in the three-phase mixer, which touches
    nothing before a beat; in the attack-and-hold mixer the same holds for
    indices below every beat position minus the attack length. *)
Theorem X8_samples_ahead_of_every_beat_are_only_scaled :
  forall (audioData beats tickSamples tockSamples : list Q) (sampleRate k : Z),
    0 <= sampleRate ->
    Forall (fun beat => k < Qfloor (beat * inject_Z sampleRate)) beats ->
    JS.get (TickTock.processAudioInBrowser audioData sampleRate beats tickSamples
              tockSamples) k
      = option_map (fun x => x * (1 # 2))%Q (JS.get audioData k)
    /\ JS.get (Buffer.mix audioData sampleRate beats tickSamples tockSamples) k
       = option_map (fun x => x * (1 # 2))%Q (JS.get audioData k)
    /\ JS.get (Sidechain.processAudioInBrowser audioData sampleRate beats
                 tickSamples) k
       = JS.get audioData k
    /\ (Forall (fun beat => k < Qfloor (beat * inject_Z sampleRate)
                                - AudioProcessor.attackSamples sampleRate) beats ->
        JS.get (AudioProcessor.processAudioInBrowser audioData sampleRate beats
                  tickSamples) k
        = JS.get audioData k).
Proof.
  intros audioData beats tickSamples tockSamples sampleRate k Hsr Hbeats.
  split; [|split; [|split]].
  - unfold TickTock.processAudioInBrowser, JS.forEach.
    rewrite (forEach_from_keeps _ beats k (length audioData)
               (fun beat => k < Qfloor (beat * inject_Z sampleRate)))
      with (todo := beats);
      [apply get_map | | exact Hbeats | apply length_map].
    intros beat index st Hbeat Hlen. unfold TickTock.addBeat.
    rewrite <- Hlen. split; [|now rewrite !length_addSound].
    rewrite <- (length_addSound tickSamples
                  (Some (TickTock.samplePosition beat sampleRate)) (4 # 10)
                  (Z.of_nat (length st)) st) at 1.
    rewrite addSound_after.
    + apply addSound_after. exact Hbeat.
    + pose proof (ticktock_tock_after_tick beat index beats sampleRate Hsr).
      unfold TickTock.samplePosition in *. lia.
  - unfold Buffer.mix, JS.forEach.
    rewrite (forEach_from_keeps _ beats k (length audioData)
               (fun beat => k < Qfloor (beat * inject_Z sampleRate)))
      with (todo := beats);
      [apply get_map | | exact Hbeats | apply length_map].
    intros beat index st Hbeat Hlen. unfold Buffer.addBeat.
    rewrite <- Hlen. split; [|now rewrite !length_addSound].
    rewrite <- (length_addSound tickSamples
                  (Some (Buffer.samplePosition beat sampleRate)) (4 # 10)
                  (Z.of_nat (length st)) st) at 1.
    rewrite addSound_after.
    + apply addSound_after. exact Hbeat.
    + destruct (Buffer.halfBeatPostition beat index beats sampleRate) as [p|] eqn:E;
        [|exact I].
      pose proof (buffer_tock_after_tick beat index beats sampleRate p Hsr E).
      unfold Buffer.samplePosition in *. lia.
  - unfold Sidechain.processAudioInBrowser, JS.forEach.
    rewrite (forEach_from_keeps _ beats k (length audioData)
               (fun beat => k < Qfloor (beat * inject_Z sampleRate)))
      with (todo := beats);
      [unfold Sidechain.copyOriginal; now rewrite map_id | | exact Hbeats
      | apply length_map].
    intros beat index st Hbeat Hlen. unfold Sidechain.addBeat.
    rewrite <- Hlen. split; [|now rewrite length_addSound, length_sidechain_duck].
    rewrite <- (length_sidechain_duck (Sidechain.attackSamples sampleRate)
                  (Z.of_nat (length tickSamples))
                  (Sidechain.releaseSamples sampleRate)
                  (Qfloor (beat * inject_Z sampleRate)) (Z.of_nat (length st)) st)
      at 1.
    rewrite addSound_after by exact Hbeat.
    rewrite get_sidechain_duck.
    destruct (Z.leb_spec (Qfloor (beat * inject_Z sampleRate)) k); [lia|].
    reflexivity.
  - intros Hearly.
    unfold AudioProcessor.processAudioInBrowser, JS.forEach.
    rewrite (forEach_from_keeps _ beats k (length audioData)
               (fun beat => k < Qfloor (beat * inject_Z sampleRate)
                             - AudioProcessor.attackSamples sampleRate
                         /\ k < Qfloor (beat * inject_Z sampleRate)))
      with (todo := beats);
      [unfold AudioProcessor.copyOriginal; now rewrite map_id | |
      | apply length_map].
    + intros beat index st [Hattack Hbeat] Hlen. unfold AudioProcessor.addBeat.
      rewrite <- Hlen. split; [|now rewrite length_addSound, length_audio_duck].
      rewrite <- (length_audio_duck (AudioProcessor.attackSamples sampleRate)
                    (AudioProcessor.releaseSamples sampleRate)
                    (Qfloor (beat * inject_Z sampleRate)) (Z.of_nat (length st)) st)
        at 1.
      rewrite addSound_after by exact Hbeat.
      rewrite get_audio_duck.
      destruct (Z.leb_spec (Z.max 0 (Qfloor (beat * inject_Z sampleRate)
                                     - AudioProcessor.attackSamples sampleRate)) k);
        [lia | reflexivity].
    + apply Forall_and. split; assumption.
Qed.

(** X8 with one beat at half a second of a 4 Hz track: sample 1 is only
    halved. *)
Lemma X8_samples_ahead_of_every_beat_are_only_scaled_witness :
  0 <= 4
  /\ Forall (fun beat => 1 < Qfloor (beat * inject_Z 4)) [1 # 2]%Q
  /\ JS.get (TickTock.processAudioInBrowser [1; 1; 1; 1]%Q 4 [1 # 2]%Q
               [1; 1]%Q [1]%Q) 1
     = option_map (fun x => x * (1 # 2))%Q (JS.get [1; 1; 1; 1]%Q 1).
Proof.
  assert (0 <= 4) as Hsr by lia.
  assert (Forall (fun beat => 1 < Qfloor (beat * inject_Z 4)) [1 # 2]%Q) as Hb
    by (repeat constructor).
  split; [exact Hsr|]. split; [exact Hb|].
  exact (proj1 (X8_samples_ahead_of_every_beat_are_only_scaled
                  [1; 1; 1; 1]%Q [1 # 2]%Q [1; 1]%Q [1]%Q 4 1 Hsr Hb)).
Defined.

(** ** Further properties: ducking *)

Section Attenuation.

(** Inside its window the attack-and-hold gain stays in
    [duckingAmount, 1]. *)
Lemma duckGain_bounds attack p k :
  Z.max 0 (p - attack) <= k ->
  (AudioProcessor.duckingAmount
   <= AudioProcessor.duckGain attack p (Z.max 0 (p - attack)) k <= 1)%Q.
Proof.
  intros Hk. unfold AudioProcessor.duckGain, AudioProcessor.duckingAmount.
  destruct (Z.ltb_spec k p) as [Hlt|Hge].
  - pose proof (fraction_range (k - Z.max 0 (p - attack)) attack ltac:(lia))
      as [H1 H2].
    set (f := (inject_Z (k - Z.max 0 (p - attack)) / inject_Z attack)%Q) in *.
    split; nra.
  - split; [apply Qle_refl | discriminate].
Qed.

(** Multiplying by a gain between 0 and 1 shrinks a sample and keeps
    its sign. *)
Lemma scaled_shrinks (x y g lo : Q) :
  (0 <= lo)%Q -> (lo <= g <= 1)%Q -> (y == x * g)%Q ->
  (Qabs y <= Qabs x)%Q /\ (0 <= x * y)%Q.
Proof.
  intros Hlo [Hg1 Hg2] Hy. rewrite Hy. split.
  - rewrite Qabs_Qmult, (Qabs_pos g) by lra.
    pose proof (Qabs_nonneg x). nra.
  - assert (x * (x * g) == (x * x) * g)%Q as -> by ring.
    apply Qmult_le_0_compat; [|lra].
    destruct (Qlt_le_dec x 0); nra.
Qed.

End Attenuation.

(** X9.  Ducking only attenuates: for any attack, kick and release
    lengths and any beat position, each sample after the three-phase
    duck, and after the attack-and-hold duck, has a magnitude no larger
    than before and has not changed sign. *)
Theorem X9_ducking_only_attenuates :
  forall (attack kick release p k : Z) (output : list Q) (x : Q),
    JS.get output k = Some x ->
    (exists y : Q,
       JS.get (Sidechain.duck attack kick release p (Z.of_nat (length output))
                 output) k = Some y
       /\ (Qabs y <= Qabs x)%Q /\ (0 <= x * y)%Q)
    /\ (exists y : Q,
          JS.get (AudioProcessor.duck attack release p (Z.of_nat (length output))
                    output) k = Some y
          /\ (Qabs y <= Qabs x)%Q /\ (0 <= x * y)%Q).
Proof.
  intros attack kick release p k output x Hx.
  assert (Hsame : (Qabs x <= Qabs x)%Q /\ (0 <= x * x)%Q).
  { split; [apply Qle_refl|]. destruct (Qlt_le_dec x 0); nra. }
  split.
  - rewrite get_sidechain_duck, Hx.
    destruct (Z.leb_spec p k) as [Hlo|]; [|exists x; split; [reflexivity | exact Hsame]].
    destruct (Z.ltb_spec k (p + (kick + release))) as [Hhi|];
      [|exists x; split; [reflexivity | exact Hsame]].
    eexists. split; [reflexivity|].
    apply (scaled_shrinks x _ (Sidechain.envelope attack kick release (k - p))
             Sidechain.duckAmount);
      [discriminate | apply envelope_bounds; lia | reflexivity].
  - rewrite get_audio_duck, Hx.
    destruct (Z.leb_spec (Z.max 0 (p - attack)) k) as [Hlo|];
      [|exists x; split; [reflexivity | exact Hsame]].
    destruct (Z.ltb_spec k (Z.min (Z.of_nat (length output)) (p + release)));
      [|exists x; split; [reflexivity | exact Hsame]].
    eexists. split; [reflexivity|].
    apply (scaled_shrinks x _
             (AudioProcessor.duckGain attack p (Z.max 0 (p - attack)) k)
             AudioProcessor.duckingAmount);
      [discriminate | apply duckGain_bounds; exact Hlo | reflexivity].
Qed.

(** X9 on the kick of beat position 2 in a buffer of six samples. *)
Lemma X9_ducking_only_attenuates_witness :
  JS.get [1; -1; 1; -1; 1; -1]%Q 3 = Some (-1)%Q
  /\ exists y : Q,
       JS.get (Sidechain.duck 2 2 3 2 6 [1; -1; 1; -1; 1; -1]%Q) 3 = Some y
       /\ (Qabs y <= Qabs (-1))%Q /\ (0 <= -1 * y)%Q.
Proof.
  assert (JS.get [1; -1; 1; -1; 1; -1]%Q 3 = Some (-1)%Q) as H by reflexivity.
  split; [exact H|].
  exact (proj1 (X9_ducking_only_attenuates 2 2 3 2 3 [1; -1; 1; -1; 1; -1]%Q
                  (-1)%Q H)).
Defined.

(** ** Further properties: the brainrot compositor and its slices *)

Section Tapers.

(** Each taper multiplies by a gain between 0 and 1. *)
Lemma fade_shrinks len cf i sample :
  0 <= i < len -> (Qabs (Brainrot.fade len cf i sample) <= Qabs sample)%Q.
Proof.
  intros Hi. rewrite fade_gains.
  assert (Hin : (0 <= (if i <? cf then inject_Z i / inject_Z cf else 1) <= 1)%Q).
  { destruct (Z.ltb_spec i cf).
    - pose proof (fraction_range i cf ltac:(lia)). lra.
    - split; discriminate. }
  assert (Hout : (0 <= (if len - cf <? i then inject_Z (len - i) / inject_Z cf else 1)
                  <= 1)%Q).
  { destruct (Z.ltb_spec (len - cf) i).
    - pose proof (fraction_range (len - i) cf ltac:(lia)). lra.
    - split; discriminate. }
  set (a := if i <? cf then _ else _) in *.
  set (b := if len - cf <? i then _ else _) in *.
  rewrite !Qabs_Qmult, (Qabs_pos a), (Qabs_pos b) by lra.
  pose proof (Qabs_nonneg sample) as Hs.
  assert (0 <= a * b <= 1)%Q as Hab by (split; nra).
  rewrite <- Qmult_assoc. set (c := (a * b)%Q) in *. nra.
Qed.

Lemma faded_shrinks cf slice :
  Forall2 (fun y x => (Qabs y <= Qabs x)%Q) (Spec.faded cf slice)
    (Brainrot.audioData slice).
Proof.
  apply Forall2_same_length_lookup_2; [apply length_faded|].
  intros i y x Hy Hx. unfold Spec.faded in Hy.
  rewrite list_lookup_imap, Hx in Hy. cbn in Hy. injection Hy as <-.
  apply fade_shrinks. apply lookup_lt_Some in Hx. lia.
Qed.

End Tapers.

(** X10.  The compositor never amplifies: whatever the taper length, each
    output sample is no larger in magnitude than the slice sample it was
    copied from, position by position over the concatenated slices. *)
Theorem X10_compositor_never_amplifies :
  forall (slices : list Brainrot.SongSlice) (crossfadeSamples : Z),
    Forall2 (fun y x => (Qabs y <= Qabs x)%Q)
      (Brainrot.combine slices crossfadeSamples)
      (concat (map Brainrot.audioData slices)).
Proof.
  intros slices cf. rewrite combine_composite. unfold Spec.composite.
  induction slices as [|s rest IH]; [constructor|].
  cbn [map concat]. apply Forall2_app; [apply faded_shrinks | exact IH].
Qed.

Section SliceSizes.

Lemma floor_gap (s e : Q) :
  (s <= e)%Q ->
  (e - s - 1 < inject_Z (Qfloor e - Qfloor s) < e - s + 1)%Q.
Proof.
  intros Hse. unfold Z.sub. rewrite inject_Z_plus, inject_Z_opp.
  pose proof (Qfloor_le s). pose proof (Qfloor_le e).
  pose proof (Qlt_floor s) as Hs. pose proof (Qlt_floor e) as He.
  rewrite inject_Z_plus in Hs, He. change (inject_Z 1) with 1%Q in *.
  split; lra.
Qed.

Lemma extractSlices_pair audioData sampleRate beats lo hi slice :
  In slice (Spec.extractSlices audioData sampleRate beats lo hi) ->
  exists (i : nat) (a b : Q),
    beats !! i = Some a /\ beats !! S i = Some b
    /\ (lo <= b - a)%Q /\ (b - a <= hi)%Q
    /\ slice = Spec.sliceBetween audioData sampleRate (a, b).
Proof.
  unfold Spec.extractSlices. intros H.
  apply in_map_iff in H as [[a b] [<- H]].
  apply filter_In in H as [Hin Hkeep].
  apply list_elem_of_In, list_elem_of_lookup in Hin as [i Hi].
  rewrite lookup_pairs in Hi.
  destruct (beats !! i) as [a'|] eqn:Ea; [|discriminate].
  destruct (beats !! S i) as [b'|] eqn:Eb; [|discriminate].
  assert (a' = a /\ b' = b) as [-> ->] by (split; congruence).
  unfold Spec.keeps in Hkeep. cbn [fst snd] in Hkeep.
  apply andb_prop in Hkeep as [H1 H2]. apply Qle_bool_iff in H1, H2.
  exists i, a, b. repeat split; assumption.
Qed.

End SliceSizes.

(** X11.  Every slice cut from a track, whatever the track and the
    beats, has a duration between 0.2 s and 2 s.  When moreover the beats
    lie inside the track (times not negative, sample positions not past
    the end, rate not negative) it holds between 0.2 and 2 seconds of
    samples at the track's rate, to within one sample. *)
Theorem X11_slices_hold_a_fifth_to_two_seconds :
  forall (buffer : Brainrot.AudioBuffer) (beats : list Q)
         (slice : Brainrot.SongSlice),
    In slice (Brainrot.slicesOfSong buffer beats []) ->
    (2 # 10 <= Brainrot.duration slice <= 2)%Q
    /\ (0 <= Brainrot.sampleRate buffer ->
        Forall (fun beat =>
                  (0 <= beat)%Q
                  /\ Qfloor (beat * inject_Z (Brainrot.sampleRate buffer))
                     <= Z.of_nat (length (Brainrot.channelData buffer))) beats ->
        ((2 # 10) * inject_Z (Brainrot.sampleRate buffer) - 1
         < inject_Z (Z.of_nat (length (Brainrot.audioData slice)))
         < 2 * inject_Z (Brainrot.sampleRate buffer) + 1)%Q).
Proof.
  intros buffer beats slice Hin.
  rewrite slicesOfSong_extract in Hin. cbn [app] in Hin.
  apply extractSlices_pair in Hin as (i & a & b & Ha & Hb & Hlo & Hhi & ->).
  cbn [Spec.sliceBetween Brainrot.duration Brainrot.audioData fst snd].
  unfold Brainrot.minSliceDuration, Brainrot.maxSliceDuration in *.
  split; [split; assumption|].
  intros Hsr Hbeats.
  rewrite Forall_lookup in Hbeats.
  destruct (Hbeats i a Ha) as [Ha0 _]. destruct (Hbeats (S i) b Hb) as [_ Hbend].
  set (sr := inject_Z (Brainrot.sampleRate buffer)) in *.
  assert (0 <= sr)%Q as Hsrq by (subst sr; rewrite Zle_Qle in Hsr; exact Hsr).
  assert (a * sr <= b * sr)%Q as Hab by nra.
  assert (0 <= Qfloor (a * sr)) as Hstart
    by (change 0 with (Qfloor (inject_Z 0)); apply Qfloor_resp_le;
        change (inject_Z 0) with 0%Q; nra).
  pose proof (Qfloor_resp_le _ _ Hab) as Horder.
  destruct (slice_in_bounds (Brainrot.channelData buffer) (Qfloor (a * sr))
              (Qfloor (b * sr)) ltac:(lia) Hbend) as [_ Hlen].
  rewrite Hlen. pose proof (floor_gap (a * sr) (b * sr) Hab) as [G1 G2].
  split; nra.
Qed.

(** X11 on a track of 10 samples at 8 Hz with beats at 1, 2 and 3 s: the
    last two beats lie past the end of the track, and both slices still
    last one second; the first one holds the 2 samples that are left, the
    second none.  With beats at 1 and 1.25 s, inside the track, the
    quarter-second slice holds 2 samples. *)
Lemma X11_slices_hold_a_fifth_to_two_seconds_witness :
  let buffer := {| Brainrot.sampleRate := 8;
                   Brainrot.channelData :=
                     [1; 2; 3; 4; 5; 6; 7; 8; 9; 10]%Q |} in
  let slice := {| Brainrot.audioData := []; Brainrot.startTime := 2%Q;
                  Brainrot.duration := (3 - 2)%Q |} in
  let inside := {| Brainrot.audioData := [9; 10]%Q; Brainrot.startTime := 1%Q;
                   Brainrot.duration := ((5 # 4) - 1)%Q |} in
  (In slice (Brainrot.slicesOfSong buffer [1; 2; 3]%Q [])
   /\ (2 # 10 <= Brainrot.duration slice <= 2)%Q)
  /\ (In inside (Brainrot.slicesOfSong buffer [1; 5 # 4]%Q [])
      /\ ((2 # 10) * inject_Z (Brainrot.sampleRate buffer) - 1
          < inject_Z (Z.of_nat (length (Brainrot.audioData inside)))
          < 2 * inject_Z (Brainrot.sampleRate buffer) + 1)%Q).
Proof.
  intros buffer slice inside.
  assert (In slice (Brainrot.slicesOfSong buffer [1; 2; 3]%Q [])) as Hin
    by (right; left; reflexivity).
  assert (In inside (Brainrot.slicesOfSong buffer [1; 5 # 4]%Q [])) as Hin'
    by (left; reflexivity).
  assert (0 <= Brainrot.sampleRate buffer) as Hsr by (cbn; lia).
  assert (Forall (fun beat =>
                    (0 <= beat)%Q
                    /\ Qfloor (beat * inject_Z (Brainrot.sampleRate buffer))
                       <= Z.of_nat (length (Brainrot.channelData buffer)))
            [1; 5 # 4]%Q) as Hb
    by (repeat constructor; discriminate).
  split.
  - split; [exact Hin|].
    exact (proj1 (X11_slices_hold_a_fifth_to_two_seconds buffer [1; 2; 3]%Q
                    slice Hin)).
  - split; [exact Hin'|].
    exact (proj2 (X11_slices_hold_a_fifth_to_two_seconds buffer [1; 5 # 4]%Q
                    inside Hin') Hsr Hb).
Defined.

(** X12.  A track yields at most one slice per pair of consecutive beats:
    the loop appends at most (beats - 1) slices to those collected so far
    and keeps those in place, so a track with no beat or a single beat
    contributes nothing. *)
Theorem X12_at_most_one_slice_per_beat_pair :
  forall (buffer : Brainrot.AudioBuffer) (beats : list Q)
         (slices : list Brainrot.SongSlice),
    (exists added : list Brainrot.SongSlice,
       Brainrot.slicesOfSong buffer beats slices = slices ++ added
       /\ (length added <= length beats - 1)%nat)
    /\ ((length beats <= 1)%nat ->
        Brainrot.slicesOfSong buffer beats slices = slices).
Proof.
  intros buffer beats slices.
  assert (Hlen : (length (Spec.extractSlices (Brainrot.channelData buffer)
                            (Brainrot.sampleRate buffer) beats
                            Brainrot.minSliceDuration Brainrot.maxSliceDuration)
                  <= length beats - 1)%nat).
  { unfold Spec.extractSlices. rewrite length_map, <- length_pairs.
    apply List.filter_length_le. }
  split.
  - eexists. split; [apply slicesOfSong_extract | exact Hlen].
  - intros Hfew. rewrite slicesOfSong_extract.
    destruct (Spec.extractSlices _ _ _ _ _) as [|s rest];
      [apply app_nil_r | cbn [length] in Hlen; lia].
Qed.

(** X12 on a track with a single beat. *)
Lemma X12_at_most_one_slice_per_beat_pair_witness :
  let buffer := {| Brainrot.sampleRate := 4;
                   Brainrot.channelData := [1; 2; 3; 4]%Q |} in
  (length [1 # 2]%Q <= 1)%nat
  /\ Brainrot.slicesOfSong buffer [1 # 2]%Q [] = [].
Proof.
  intros buffer.
  assert (length [1 # 2]%Q <= 1)%nat as H by (cbn; lia).
  split; [exact H|].
  exact (proj2 (X12_at_most_one_slice_per_beat_pair buffer [1 # 2]%Q []) H).
Defined.

(** X13.  With at most 30 slices available and [Math.random()] in [0, 1),
    the selection is a permutation of all of them: every slice is used
    exactly once. *)
Theorem X13_thirty_or_fewer_slices_are_all_used :
  forall (random : nat -> Q) (slices : list Brainrot.SongSlice),
    (forall k, (0 <= random k < 1)%Q) ->
    (length slices <= 30)%nat ->
    Brainrot.shuffleAndSelect random slices ≡ₚ slices.
Proof.
  intros random slices Hr Hfew. unfold Brainrot.shuffleAndSelect.
  pose proof (shuffle_perm random slices) as Hperm.
  destruct (Brainrot.shuffle random slices) as [calls shuffled].
  cbn [snd] in Hperm. unfold Brainrot.numSlices.
  pose proof (drawn_range (random calls) (Hr calls)) as Hd.
  assert (length shuffled = length slices) as Hlen
    by (apply Permutation_length, Hperm).
  destruct (slice_prefix shuffled
              (Z.min (Z.of_nat (length shuffled)) (Qfloor (random calls * 30) + 30))
              ltac:(lia)) as [-> _].
  rewrite take_ge by lia. exact Hperm.
Qed.

(** X13 with two slices and a random source that always returns 0.5. *)
Lemma X13_thirty_or_fewer_slices_are_all_used_witness :
  let one := {| Brainrot.audioData := [1%Q]; Brainrot.startTime := 0%Q;
                Brainrot.duration := 1%Q |} in
  let two := {| Brainrot.audioData := [2%Q]; Brainrot.startTime := 1%Q;
                Brainrot.duration := 1%Q |} in
  (forall k : nat, (0 <= (fun _ : nat => 1 # 2) k < 1)%Q)
  /\ (length [one; two] <= 30)%nat
  /\ Brainrot.shuffleAndSelect (fun _ : nat => 1 # 2) [one; two] ≡ₚ [one; two].
Proof.
  intros one two.
  assert (forall k : nat, (0 <= (fun _ : nat => 1 # 2) k < 1)%Q) as Hr
    by (intros k; split; [discriminate | reflexivity]).
  assert (length [one; two] <= 30)%nat as Hfew by (cbn; lia).
  split; [exact Hr|]. split; [exact Hfew|].
  exact (X13_thirty_or_fewer_slices_are_all_used (fun _ : nat => 1 # 2)
           [one; two] Hr Hfew).
Defined.

(** ** Further properties: the quantisers *)

Section QuantiserOrder.

Lemma clamp_monotone x y : (x <= y)%Q -> (JS.clamp x <= JS.clamp y)%Q.
Proof.
  intros Hxy. unfold JS.clamp.
  apply Q.max_le_compat_l, Q.min_le_compat_l, Hxy.
Qed.

Lemma clamp_high x : (1 <= x)%Q -> (JS.clamp x == 1)%Q.
Proof.
  intros Hx. unfold JS.clamp. rewrite (Q.min_l 1 x) by exact Hx.
  apply Q.max_r. discriminate.
Qed.

Lemma clamp_low x : (x <= -1)%Q -> (JS.clamp x == -1)%Q.
Proof.
  intros Hx. unfold JS.clamp.
  assert (x <= 1)%Q by lra. rewrite (Q.min_r 1 x) by assumption.
  apply Q.max_l. exact Hx.
Qed.

Lemma trunc_monotone x y : (x <= y)%Q -> JS.trunc x <= JS.trunc y.
Proof.
  intros Hxy. unfold JS.trunc.
  destruct (JS.lt x 0) eqn:Ex, (JS.lt y 0) eqn:Ey.
  - apply Qceiling_resp_le, Hxy.
  - apply lt_spec in Ex. apply lt_false in Ey.
    assert (Qceiling x <= 0)
      by (change 0 with (Qceiling (inject_Z 0)); apply Qceiling_resp_le;
          change (inject_Z 0) with 0%Q; lra).
    assert (0 <= Qfloor y)
      by (change 0 with (Qfloor (inject_Z 0)); apply Qfloor_resp_le;
          change (inject_Z 0) with 0%Q; lra).
    lia.
  - apply lt_false in Ex. apply lt_spec in Ey. lra.
  - apply Qfloor_resp_le, Hxy.
Qed.

Lemma trunc_comp x y : (x == y)%Q -> JS.trunc x = JS.trunc y.
Proof.
  intros E. apply Z.le_antisymm; apply trunc_monotone; rewrite E; apply Qle_refl.
Qed.

End QuantiserOrder.

(** X14.  Both quantisers preserve order: a larger sample never gets a
    smaller 16-bit value, in the server-side quantiser and in the WAV
    writer alike. *)
Theorem X14_quantisers_preserve_order :
  forall x y : Q,
    (x <= y)%Q ->
    Buffer.int16Sample x <= Buffer.int16Sample y
    /\ Brainrot.wavSample x <= Brainrot.wavSample y.
Proof.
  intros x y Hxy. pose proof (clamp_monotone x y Hxy) as Hc.
  destruct (int16Sample_floor x) as [-> _]. destruct (int16Sample_floor y) as [-> _].
  destruct (wavSample_trunc x) as [-> _]. destruct (wavSample_trunc y) as [-> _].
  split.
  - apply Qfloor_resp_le. nra.
  - apply trunc_monotone.
    destruct (JS.lt (JS.clamp x) 0) eqn:Ex, (JS.lt (JS.clamp y) 0) eqn:Ey;
      rewrite ?lt_spec, ?lt_false in *; nra.
Qed.

(** X14 on the samples -0.5 and 0.25. *)
Lemma X14_quantisers_preserve_order_witness :
  (-1 # 2 <= 1 # 4)%Q
  /\ Buffer.int16Sample (-1 # 2) <= Buffer.int16Sample (1 # 4).
Proof.
  assert (-1 # 2 <= 1 # 4)%Q as H by discriminate.
  split; [exact H|].
  exact (proj1 (X14_quantisers_preserve_order (-1 # 2) (1 # 4) H)).
Defined.

(** X15.  Clipping saturates: every sample of 1 or more is stored as
    32767 by both quantisers; every sample of -1 or less is stored as
    -32767 by the server-side quantiser and as -32768 by the WAV
    writer. *)
Theorem X15_clipped_samples_saturate :
  forall x : Q,
    ((1 <= x)%Q ->
     Buffer.int16Sample x = 32767 /\ Brainrot.wavSample x = 32767)
    /\ ((x <= -1)%Q ->
        Buffer.int16Sample x = -32767 /\ Brainrot.wavSample x = -32768).
Proof.
  intros x.
  destruct (int16Sample_floor x) as [-> _]. destruct (wavSample_trunc x) as [-> _].
  split; intros Hx.
  - pose proof (clamp_high x Hx) as E. split.
    + rewrite (Qfloor_comp _ 32767%Q) by (rewrite E; reflexivity). reflexivity.
    + assert (JS.lt (JS.clamp x) 0 = false) as -> by (apply lt_false; lra).
      rewrite (trunc_comp _ 32767%Q) by (rewrite E; reflexivity). reflexivity.
  - pose proof (clamp_low x Hx) as E. split.
    + rewrite (Qfloor_comp _ (-32767)%Q) by (rewrite E; reflexivity). reflexivity.
    + assert (JS.lt (JS.clamp x) 0 = true) as -> by (apply lt_spec; lra).
      rewrite (trunc_comp _ (-32768)%Q) by (rewrite E; reflexivity). reflexivity.
Qed.

(** X15 on the mixed amplitude 1.7 and on -3. *)
Lemma X15_clipped_samples_saturate_witness :
  (1 <= 17 # 10)%Q /\ (-3 <= -1)%Q
  /\ Buffer.int16Sample (17 # 10) = 32767
  /\ Brainrot.wavSample (-3) = -32768.
Proof.
  assert (1 <= 17 # 10)%Q as H1 by discriminate.
  assert (-3 <= -1)%Q as H2 by discriminate.
  split; [exact H1|]. split; [exact H2|].
  split.
  - exact (proj1 (proj1 (X15_clipped_samples_saturate (17 # 10)) H1)).
  - exact (proj2 (proj2 (X15_clipped_samples_saturate (-3)) H2)).
Defined.

(** ** Further properties: the banification analysis *)

Section Framing.

Lemma hops_step (x : Z) :
  1024 <= x -> Z.to_nat (Z.max 0 (x / 1024)) = S (Z.to_nat (Z.max 0 ((x - 1024) / 1024))).
Proof. intros Hx. Z.to_euclidean_division_equations. lia. Qed.

Lemma hops_none (x : Z) : x < 1024 -> Z.to_nat (Z.max 0 (x / 1024)) = 0%nat.
Proof. intros Hx. Z.to_euclidean_division_equations. lia. Qed.

Lemma frames_from_windows audioData : forall fuel i,
  0 <= i ->
  Z.of_nat (length audioData) - i - 2048 <= Z.of_nat fuel ->
  Banification.frames_from fuel i audioData
  = map (fun j => take 2048 (drop (Z.to_nat i + 1024 * j) audioData))
      (seq 0 (Z.to_nat (Z.max 0 ((Z.of_nat (length audioData) - i - 1025) / 1024)))).
Proof.
  induction fuel as [|fuel IH]; intros i Hi Hfuel.
  - rewrite hops_none by lia. reflexivity.
  - cbn [Banification.frames_from]. unfold Banification.frameSize, Banification.hopSize.
    destruct (Z.ltb_spec (i + 2048) (Z.of_nat (length audioData))) as [Hlt|Hge].
    + rewrite hops_step by lia. cbn [seq map].
      destruct (slice_in_bounds audioData i (i + 2048) ltac:(lia) ltac:(lia))
        as [-> _].
      replace (Z.to_nat (i + 2048 - i)) with 2048%nat by lia.
      rewrite Nat.mul_0_r, Nat.add_0_r. f_equal.
      rewrite IH by lia. rewrite <- seq_shift, map_map.
      replace (Z.of_nat (length audioData) - (i + 1024) - 1025)
        with (Z.of_nat (length audioData) - i - 1025 - 1024) by lia.
      apply map_ext. intros j. do 2 f_equal. lia.
    + rewrite hops_none by lia. reflexivity.
Qed.

Lemma frames_windows audioData :
  Banification.frames audioData
  = map (fun j => take 2048 (drop (1024 * j) audioData))
      (seq 0 (Z.to_nat (Z.max 0 ((Z.of_nat (length audioData) - 1025) / 1024)))).
Proof.
  unfold Banification.frames. rewrite frames_from_windows by lia.
  replace (Z.of_nat (length audioData) - 0 - 1025)
    with (Z.of_nat (length audioData) - 1025) by lia.
  reflexivity.
Qed.

Lemma total_cons measure (frame : list Q) fs :
  Banification.total measure (frame :: fs)
  = (measure frame + Banification.total measure fs)%Q.
Proof. reflexivity. Qed.

Lemma zcrLoop_total measure audioData : forall fuel i zcr zcrCount,
  exists sum : Q,
    Banification.zcrLoop measure fuel i audioData zcr zcrCount
    = (sum, zcrCount + Z.of_nat (length (Banification.frames_from fuel i audioData)))
    /\ (sum == zcr + Banification.total measure
                       (Banification.frames_from fuel i audioData))%Q.
Proof.
  induction fuel as [|fuel IH]; intros i zcr zcrCount.
  - exists zcr. split; [cbn [Banification.zcrLoop Banification.frames_from length]; f_equal; lia
             | cbn [Banification.frames_from Banification.total fold_right]; ring].
  - cbn [Banification.zcrLoop Banification.frames_from].
    destruct (_ <? _).
    + destruct (IH (i + Banification.hopSize)
                  (zcr + measure (JS.slice audioData i (i + Banification.frameSize)))%Q
                  (zcrCount + 1)) as (sum & -> & E).
      exists sum. split; [f_equal; cbn [length]; lia|].
      rewrite E, total_cons. ring.
    + exists zcr. split; [cbn [Banification.zcrLoop Banification.frames_from length]; f_equal; lia
             | cbn [Banification.frames_from Banification.total fold_right]; ring].
Qed.

Lemma spectralLoop_total HFC Centroid audioData : forall fuel i s1 s2 frameCount,
  exists sum1 sum2 : Q,
    Banification.spectralLoop HFC Centroid fuel i audioData s1 s2 frameCount
    = (sum1, sum2,
       frameCount + Z.of_nat (length (Banification.frames_from fuel i audioData)))
    /\ (sum1 == s1 + Banification.total HFC
                       (Banification.frames_from fuel i audioData))%Q
    /\ (sum2 == s2 + Banification.total Centroid
                       (Banification.frames_from fuel i audioData))%Q.
Proof.
  induction fuel as [|fuel IH]; intros i s1 s2 frameCount.
  - exists s1, s2. split; [cbn [Banification.spectralLoop Banification.frames_from length]; f_equal; lia
               | split; cbn [Banification.frames_from Banification.total fold_right]; ring].
  - cbn [Banification.spectralLoop Banification.frames_from].
    destruct (_ <? _).
    + destruct (IH (i + Banification.hopSize)
                  (s1 + HFC (JS.slice audioData i (i + Banification.frameSize)))%Q
                  (s2 + Centroid (JS.slice audioData i (i + Banification.frameSize)))%Q
                  (frameCount + 1)) as (sum1 & sum2 & -> & E1 & E2).
      exists sum1, sum2. split; [f_equal; cbn [length]; lia|].
      rewrite E1, E2, !total_cons. split; ring.
    + exists s1, s2. split; [cbn [Banification.spectralLoop Banification.frames_from length]; f_equal; lia
               | split; cbn [Banification.frames_from Banification.total fold_right]; ring].
Qed.

(** An average times the number of frames is the sum. *)
Lemma average_times_count (sum total : Q) (n : nat) :
  (sum == 0 + total)%Q -> (n = 0%nat -> (total == 0)%Q) ->
  ((if 0 <? 0 + Z.of_nat n then sum / inject_Z (0 + Z.of_nat n) else 0)
   * inject_Z (Z.of_nat n) == total)%Q.
Proof.
  intros E Hzero. destruct (Z.ltb_spec 0 (0 + Z.of_nat n)) as [Hpos|Hnone].
  - rewrite Z.add_0_l, E. field.
    change 0%Q with (inject_Z 0). rewrite inject_Z_injective. lia.
  - rewrite Hzero by lia. ring.
Qed.

End Framing.

Section Averages.

Lemma frames_full audioData :
  Forall (fun frame : list Q => length frame = 2048%nat)
    (Banification.frames audioData).
Proof.
  rewrite frames_windows. apply List.Forall_forall. intros frame Hin.
  apply in_map_iff in Hin as [j [<- Hj]]. apply in_seq in Hj.
  rewrite length_take, length_drop.
  assert (1024 * Z.of_nat j + 2048 < Z.of_nat (length audioData))
    by (Z.to_euclidean_division_equations; lia).
  lia.
Qed.

Lemma frames_short audioData :
  (length audioData <= 2048)%nat -> Banification.frames audioData = [].
Proof.
  intros Hshort. rewrite frames_windows, hops_none by lia. reflexivity.
Qed.

Lemma total_nonneg measure (fs : list (list Q)) :
  (forall frame, (0 <= measure frame)%Q) -> (0 <= Banification.total measure fs)%Q.
Proof.
  intros Hm. induction fs as [|f fs IH]; [apply Qle_refl|].
  rewrite total_cons. pose proof (Hm f). lra.
Qed.

Lemma average_nonneg (sum : Q) (count : Z) :
  (0 <= sum)%Q -> (0 <= (if 0 <? count then sum / inject_Z count else 0))%Q.
Proof.
  intros Hs. destruct (Z.ltb_spec 0 count); [|apply Qle_refl].
  apply Qle_shift_div_l.
  - change 0%Q with (inject_Z 0). rewrite <- Zlt_Qlt. lia.
  - rewrite Qmult_0_l. exact Hs.
Qed.

Lemma zcrOf_nonneg measure audioData :
  (forall frame, (0 <= measure frame)%Q) ->
  (0 <= Banification.zcrOf measure audioData)%Q.
Proof.
  intros Hm. unfold Banification.zcrOf.
  destruct (zcrLoop_total measure audioData (length audioData) 0 0%Q 0)
    as (sum & -> & E).
  apply average_nonneg. rewrite E.
  pose proof (total_nonneg measure
                (Banification.frames_from (length audioData) 0 audioData) Hm).
  lra.
Qed.

Lemma spectralOf_nonneg HFC Centroid audioData :
  (forall frame, (0 <= HFC frame)%Q) -> (forall frame, (0 <= Centroid frame)%Q) ->
  (0 <= fst (Banification.spectralOf HFC Centroid audioData))%Q
  /\ (0 <= snd (Banification.spectralOf HFC Centroid audioData))%Q.
Proof.
  intros H1 H2. unfold Banification.spectralOf.
  destruct (spectralLoop_total HFC Centroid audioData (length audioData) 0 0%Q 0%Q 0)
    as (sum1 & sum2 & -> & E1 & E2).
  cbn [fst snd].
  pose proof (total_nonneg HFC
                (Banification.frames_from (length audioData) 0 audioData) H1).
  pose proof (total_nonneg Centroid
                (Banification.frames_from (length audioData) 0 audioData) H2).
  split; apply average_nonneg; [rewrite E1 | rewrite E2]; lra.
Qed.

End Averages.

(** X16.  The analysis loops visit exactly the windows of 2048 samples
    that start every 1024 samples and end before the last sample: window
    [j] is [audioData[1024 j .. 1024 j + 2048)], every window is complete,
    and their number, which is also the frame counter of both loops, is
    floor((length - 1025) / 1024) or 0 if that is negative.  Samples after
    the last window are not analysed. *)
Theorem X16_analysis_windows :
  forall (ZeroCrossingRate HFC Centroid : list Q -> Q) (audioData : list Q),
    let count := Z.max 0 ((Z.of_nat (length audioData) - 1025) / 1024) in
    Banification.frames audioData
      = map (fun j => take 2048 (drop (1024 * j) audioData))
          (seq 0 (Z.to_nat count))
    /\ Forall (fun frame : list Q => length frame = 2048%nat)
         (Banification.frames audioData)
    /\ snd (Banification.zcrLoop ZeroCrossingRate (length audioData) 0 audioData
              0%Q 0) = count
    /\ snd (Banification.spectralLoop HFC Centroid (length audioData) 0 audioData
              0%Q 0%Q 0) = count.
Proof.
  intros ZCR HFC Centroid audioData count.
  assert (Hcount : Z.of_nat (length (Banification.frames audioData)) = count).
  { rewrite frames_windows, length_map, length_seq. subst count. lia. }
  split; [apply frames_windows|]. split; [apply frames_full|].
  split.
  - destruct (zcrLoop_total ZCR audioData (length audioData) 0 0%Q 0)
      as (sum & -> & _).
    cbn [snd]. fold (Banification.frames audioData). lia.
  - destruct (spectralLoop_total HFC Centroid audioData (length audioData) 0
                0%Q 0%Q 0) as (sum1 & sum2 & -> & _).
    cbn [snd]. fold (Banification.frames audioData). lia.
Qed.

(** X17.  The zero-crossing rate, the spectral energy and the spectral
    centroid reported are the means of essentia's per-frame answers over
    those windows (each times the number of windows is the sum), and for
    audio of at most 2048 samples, where there is no window, all three are
    0: nothing is divided by zero. *)
Theorem X17_analysis_averages :
  forall (ZeroCrossingRate HFC Centroid : list Q -> Q) (audioData : list Q),
    let windows := Banification.frames audioData in
    let n := inject_Z (Z.of_nat (length windows)) in
    (Banification.zcrOf ZeroCrossingRate audioData * n
     == Banification.total ZeroCrossingRate windows)%Q
    /\ (fst (Banification.spectralOf HFC Centroid audioData) * n
        == Banification.total HFC windows)%Q
    /\ (snd (Banification.spectralOf HFC Centroid audioData) * n
        == Banification.total Centroid windows)%Q
    /\ ((length audioData <= 2048)%nat ->
        Banification.zcrOf ZeroCrossingRate audioData = 0%Q
        /\ Banification.spectralOf HFC Centroid audioData = (0%Q, 0%Q)).
Proof.
  intros ZCR HFC Centroid audioData windows n. subst windows n.
  unfold Banification.zcrOf, Banification.spectralOf, Banification.frames.
  destruct (zcrLoop_total ZCR audioData (length audioData) 0 0%Q 0)
    as (sum & -> & E).
  destruct (spectralLoop_total HFC Centroid audioData (length audioData) 0
              0%Q 0%Q 0) as (sum1 & sum2 & -> & E1 & E2).
  cbn [fst snd].
  assert (Hnone : forall measure,
             length (Banification.frames_from (length audioData) 0 audioData) = 0%nat ->
             (Banification.total measure
                (Banification.frames_from (length audioData) 0 audioData) == 0)%Q).
  { intros measure H0. apply length_zero_iff_nil in H0. rewrite H0. reflexivity. }
  split; [apply average_times_count; [exact E | apply Hnone]|].
  split; [apply average_times_count; [exact E1 | apply Hnone]|].
  split; [apply average_times_count; [exact E2 | apply Hnone]|].
  intros Hshort. pose proof (frames_short audioData Hshort) as Hempty.
  unfold Banification.frames in Hempty. rewrite Hempty. cbn. split; reflexivity.
Qed.

(** X17 on a signal of 100 samples. *)
Lemma X17_analysis_averages_witness :
  (length (replicate 100 1%Q) <= 2048)%nat
  /\ Banification.zcrOf (fun _ => 1%Q) (replicate 100 1%Q) = 0%Q.
Proof.
  assert (length (replicate 100 1%Q) <= 2048)%nat as H
    by (rewrite length_replicate; lia).
  split; [exact H|].
  exact (proj1 (proj2 (proj2 (proj2
           (X17_analysis_averages (fun _ => 1%Q) (fun _ => 1%Q) (fun _ => 1%Q)
              (replicate 100 1%Q)))) H)).
Defined.

(** X18.  Whatever essentia measures and whatever [Math.log10] returns,
    the banger score is at most 100, the BPM sub-score lies in [0, 100],
    the danceability is at most 1, the dynamic complexity is at most 10,
    and the reported BPM is never 0 (a missing or zero tempo becomes
    120). *)
Theorem X18_score_upper_bounds :
  forall (log10 : Q -> Q) (rhythm : option Q) (energy rms : Q)
         (ZeroCrossingRate HFC Centroid : list Q -> Q) (audioData : list Q),
    let result := Banification.analyze log10 rhythm energy rms ZeroCrossingRate
                    HFC Centroid audioData in
    (Banification.score result <= 100)%Q
    /\ (0 <= Banification.bpmScore (Banification.bpm result) <= 100)%Q
    /\ (Banification.danceability result <= 1)%Q
    /\ (Banification.dynamicComplexity result <= 10)%Q
    /\ ~ (Banification.bpm result == 0)%Q
    /\ Banification.bpmOf None = 120%Q.
Proof.
  intros log10 rhythm energy rms ZCR HFC Centroid audioData result.
  subst result. unfold Banification.analyze.
  destruct (Banification.spectralOf HFC Centroid audioData) as [se sc].
  cbn [Banification.score Banification.bpm Banification.danceability
       Banification.dynamicComplexity].
  set (b := Banification.bpmOf rhythm).
  assert (Hb : (0 <= Banification.bpmScore b <= 100)%Q).
  { unfold Banification.bpmScore. split.
    - apply Q.min_glb; [discriminate | apply Q.le_max_l].
    - apply Q.le_min_l. }
  pose proof (Q.le_min_l 100 (log10 (energy + 1) * 20)%Q) as He.
  pose proof (Q.le_min_l 100 (rms * 200)%Q) as Hl.
  pose proof (Q.le_min_l 100 (Banification.zcrOf ZCR audioData * 500)%Q) as Hz.
  pose proof (Q.le_min_l 100 (se / 5 * 100)%Q) as Hs.
  pose proof (Q.le_min_l 100 (sc / 5000 * 100)%Q) as Hc.
  fold (Banification.energyScore log10 energy) in He.
  fold (Banification.loudnessScore rms) in Hl.
  fold (Banification.zcrScore (Banification.zcrOf ZCR audioData)) in Hz.
  fold (Banification.spectralScore se) in Hs.
  fold (Banification.brightnessScore sc) in Hc.
  split; [unfold Banification.totalScore; lra|].
  split; [exact Hb|].
  split.
  { apply Qle_shift_div_r; [reflexivity | lra]. }
  split; [apply Q.le_min_l|].
  split; [|reflexivity].
  subst b. unfold Banification.bpmOf. destruct rhythm as [bpm|]; [|discriminate].
  destruct (Qeq_bool bpm 0) eqn:E; [discriminate|].
  intros Hz0. apply Qeq_bool_iff in Hz0. congruence.
Qed.

(** X19.  When the measurements are not negative (the rms, essentia's
    per-frame answers, and the logarithm of energy + 1), the banger score
    lies in the 0-100 range its interface documents. *)
Theorem X19_score_range :
  forall (log10 : Q -> Q) (rhythm : option Q) (energy rms : Q)
         (ZeroCrossingRate HFC Centroid : list Q -> Q) (audioData : list Q),
    (0 <= log10 (energy + 1))%Q -> (0 <= rms)%Q ->
    (forall frame, (0 <= ZeroCrossingRate frame)%Q) ->
    (forall frame, (0 <= HFC frame)%Q) ->
    (forall frame, (0 <= Centroid frame)%Q) ->
    (0 <= Banification.score
            (Banification.analyze log10 rhythm energy rms ZeroCrossingRate HFC
               Centroid audioData) <= 100)%Q.
Proof.
  intros log10 rhythm energy rms ZCR HFC Centroid audioData Hlog Hrms Hz Hh Hc.
  pose proof (zcrOf_nonneg ZCR audioData Hz) as Hzcr.
  pose proof (spectralOf_nonneg HFC Centroid audioData Hh Hc) as [Hse Hsc].
  unfold Banification.analyze.
  destruct (Banification.spectralOf HFC Centroid audioData) as [se sc].
  cbn [fst snd] in Hse, Hsc. cbn [Banification.score].
  unfold Banification.totalScore.
  assert (Hmin : forall v, (0 <= v)%Q -> (0 <= Qmin 100 v <= 100)%Q).
  { intros v Hv. split; [apply Q.min_glb; [discriminate | exact Hv]
                        | apply Q.le_min_l]. }
  assert (H1 : (0 <= Banification.bpmScore (Banification.bpmOf rhythm) <= 100)%Q)
    by (unfold Banification.bpmScore; apply Hmin, Q.le_max_l).
  assert (H2 : (0 <= Banification.energyScore log10 energy <= 100)%Q)
    by (unfold Banification.energyScore; apply Hmin; lra).
  assert (H3 : (0 <= Banification.loudnessScore rms <= 100)%Q)
    by (unfold Banification.loudnessScore; apply Hmin; lra).
  assert (H4 : (0 <= Banification.zcrScore (Banification.zcrOf ZCR audioData)
                <= 100)%Q)
    by (unfold Banification.zcrScore; apply Hmin; lra).
  assert (H5 : (0 <= Banification.spectralScore se <= 100)%Q).
  { unfold Banification.spectralScore. apply Hmin.
    assert (0 <= se / 5)%Q
      by (apply Qle_shift_div_l; [reflexivity | lra]).
    lra. }
  assert (H6 : (0 <= Banification.brightnessScore sc <= 100)%Q).
  { unfold Banification.brightnessScore. apply Hmin.
    assert (0 <= sc / 5000)%Q
      by (apply Qle_shift_div_l; [reflexivity | lra]).
    lra. }
  split; lra.
Qed.

(** X19 on silence, with a logarithm that answers 0. *)
Lemma X19_score_range_witness :
  (0 <= (fun _ : Q => 0%Q) (0 + 1)%Q)%Q /\ (0 <= 0)%Q
  /\ (0 <= Banification.score
             (Banification.analyze (fun _ => 0%Q) None 0 0 (fun _ => 0%Q)
                (fun _ => 0%Q) (fun _ => 0%Q) []) <= 100)%Q.
Proof.
  assert (0 <= (fun _ : Q => 0%Q) (0 + 1)%Q)%Q as H1 by apply Qle_refl.
  assert (0 <= 0)%Q as H2 by apply Qle_refl.
  split; [exact H1|]. split; [exact H2|].
  exact (X19_score_range (fun _ => 0%Q) None 0 0 (fun _ => 0%Q) (fun _ => 0%Q)
           (fun _ => 0%Q) [] H1 H2 (fun _ => Qle_refl 0) (fun _ => Qle_refl 0)
           (fun _ => Qle_refl 0)).
Defined.

(** X20.  The verdict and the message agree: the verdict is ALREADY A
    BANGER exactly when the score is at least 65, which is exactly when
    the message is one of the two praising templates; the "slaps" template
    is used exactly from 80 up and the "needs work" one exactly below
    45. *)
Theorem X20_verdict_and_message_agree :
  forall (log10 : Q -> Q) (rhythm : option Q) (energy rms : Q)
         (ZeroCrossingRate HFC Centroid : list Q -> Q) (audioData : list Q),
    let result := Banification.analyze log10 rhythm energy rms ZeroCrossingRate
                    HFC Centroid audioData in
    (Banification.verdict result = Banification.ALREADY_A_BANGER
     <-> (65 <= Banification.score result)%Q)
    /\ (Banification.verdict result = Banification.ALREADY_A_BANGER
        <-> Banification.message result = Banification.THIS_TRACK_SLAPS
            \/ Banification.message result = Banification.Nice_vibes)
    /\ (Banification.message result = Banification.THIS_TRACK_SLAPS
        <-> (80 <= Banification.score result)%Q)
    /\ (Banification.message result = Banification.Needs_work
        <-> (Banification.score result < 45)%Q).
Proof.
  intros log10 rhythm energy rms ZCR HFC Centroid audioData result.
  subst result. unfold Banification.analyze.
  destruct (Banification.spectralOf HFC Centroid audioData) as [se sc].
  cbn [Banification.score Banification.verdict Banification.message].
  set (s := Banification.totalScore log10 _ _ _ _ _ _).
  unfold Banification.verdictOf, Banification.messageOf.
  destruct (Qle_bool 80 s) eqn:E80; destruct (Qle_bool 65 s) eqn:E65;
    destruct (Qle_bool 45 s) eqn:E45;
    repeat match goal with
      | H : Qle_bool _ _ = true |- _ => apply Qle_bool_iff in H
      | H : Qle_bool ?a ?b = false |- _ =>
          assert (b < a)%Q
            by (apply Qnot_le_lt; intros Hle; apply Qle_bool_iff in Hle; congruence);
          clear H
      end;
    repeat split; intros; try discriminate; try lra; try tauto;
    try (right; reflexivity); try (left; reflexivity); try reflexivity;
    try (exfalso; lra);
    match goal with
    | H : _ \/ _ |- _ => destruct H; discriminate
    end.
Qed.

(** X20 on silence: the score is 0, the track needs work. *)
Lemma X20_verdict_and_message_agree_witness :
  let result := Banification.analyze (fun _ => 0%Q) None 0 0 (fun _ => 0%Q)
                  (fun _ => 0%Q) (fun _ => 0%Q) [] in
  (Banification.score result < 45)%Q
  /\ Banification.message result = Banification.Needs_work.
Proof.
  intros result.
  assert (Banification.score result < 45)%Q as H by reflexivity.
  split; [exact H|].
  exact (proj2 (proj2 (proj2 (proj2
           (X20_verdict_and_message_agree (fun _ => 0%Q) None 0 0 (fun _ => 0%Q)
              (fun _ => 0%Q) (fun _ => 0%Q) [])))) H).
Defined.

(** ** The shared essentia instance *)

Section Singleton.

Import EssentiaInstance.

Lemma consistent_step s e : consistent s -> consistent (step s e).
Proof.
  unfold consistent. destruct s as [[i|] [[id|j|id]|] n], e; cbn; try tauto; lia.
Qed.

Lemma consistent_run events : forall s, consistent s -> consistent (run events s).
Proof.
  induction events as [|e events IH]; intros s Hs; [exact Hs|].
  apply IH, consistent_step, Hs.
Qed.

Lemma started_run events : forall s,
  consistent s ->
  (started (run events s) + stored s
   = started s + deletions events s + stored (run events s))%nat.
Proof.
  induction events as [|e events IH]; intros s Hs; [cbn; lia|].
  pose proof (IH (step s e) (consistent_step s e Hs)) as H.
  change (run (e :: events) s) with (run events (step s e)).
  cbn [deletions].
  assert (started (step s e) + stored s
          = started s + match e, essentiaInstance s with
                        | Cleanup, Some _ => 1
                        | _, _ => 0
                        end + stored (step s e))%nat as Hstep.
  { revert Hs. unfold consistent, stored.
    destruct s as [[i|] [[id|j|id]|] n], e; cbn; lia. }
  lia.
Qed.

Lemma rejected_stays s id e :
  essentiaInstance s = None -> essentiaPromise s = Some (Rejected id) ->
  step s e = s.
Proof.
  destruct s as [i p n]. cbn. intros -> ->. destruct e; reflexivity.
Qed.

Lemma instance_stays s i e :
  consistent s -> essentiaInstance s = Some i -> e <> Cleanup -> step s e = s.
Proof.
  unfold consistent.
  destruct s as [j [[id|k|id]|] n]; cbn; intros Hs -> He; try tauto;
    destruct e; try reflexivity; congruence.
Qed.

End Singleton.

(** X21.  Over any interleaving of calls of [getEssentiaInstance], of
    initialisations settling and of [cleanupEssentia], starting from the
    freshly loaded module: the instance variable is set exactly when the
    stored promise is fulfilled with that same instance, and the number
    of initialisations started is the number of instances deleted, plus
    one while a promise is stored.  So at most one initialisation is ever
    started per deleted instance, plus the current one. *)
Theorem X21_one_initialisation_per_instance :
  forall events : list EssentiaInstance.event,
    let s := EssentiaInstance.run events EssentiaInstance.initial in
    (forall i, EssentiaInstance.essentiaInstance s = Some i
               <-> EssentiaInstance.essentiaPromise s
                   = Some (EssentiaInstance.Fulfilled i))
    /\ EssentiaInstance.started s
       = (EssentiaInstance.deletions events EssentiaInstance.initial
          + match EssentiaInstance.essentiaPromise s with
            | Some _ => 1
            | None => 0
            end)%nat
    /\ (EssentiaInstance.started s
        <= EssentiaInstance.deletions events EssentiaInstance.initial + 1)%nat.
Proof.
  intros events s.
  assert (EssentiaInstance.consistent EssentiaInstance.initial) as H0 by exact I.
  pose proof (consistent_run events _ H0) as Hc.
  pose proof (started_run events _ H0) as Hn.
  fold s in Hc, Hn. unfold EssentiaInstance.stored in Hn. cbn in Hn.
  split; [|split].
  - intros i. revert Hc. unfold EssentiaInstance.consistent.
    destruct (EssentiaInstance.essentiaInstance s) as [j|],
             (EssentiaInstance.essentiaPromise s) as [[id|k|id]|];
      try tauto; intros Hc; split; intros [= <-]; try discriminate;
      destruct Hc as [-> _]; reflexivity.
  - lia.
  - destruct (EssentiaInstance.essentiaPromise s); lia.
Qed.

(** X22.  A settled initialisation is final.  Once the stored promise is
    rejected, no later call, settling or clean-up changes the module
    state, and every later call of [getEssentiaInstance] returns that
    same rejected promise: a failed load is never retried.  Once an
    instance is stored, every call returns it without starting anything,
    until [cleanupEssentia] runs. *)
Theorem X22_settled_initialisation_is_final :
  forall (events more : list EssentiaInstance.event),
    let s := EssentiaInstance.run events EssentiaInstance.initial in
    (forall id,
        EssentiaInstance.essentiaPromise s = Some (EssentiaInstance.Rejected id) ->
        EssentiaInstance.run more s = s
        /\ EssentiaInstance.getEssentiaInstance (EssentiaInstance.run more s)
           = (EssentiaInstance.ThePromise (EssentiaInstance.Rejected id), s))
    /\ (forall i,
           EssentiaInstance.essentiaInstance s = Some i ->
           ~ In EssentiaInstance.Cleanup more ->
           EssentiaInstance.run more s = s
           /\ EssentiaInstance.getEssentiaInstance (EssentiaInstance.run more s)
              = (EssentiaInstance.TheInstance i, s)).
Proof.
  intros events more s.
  pose proof (consistent_run events EssentiaInstance.initial I) as Hc.
  fold s in Hc. split.
  - intros id Hp.
    assert (EssentiaInstance.essentiaInstance s = None) as Hi.
    { revert Hc. unfold EssentiaInstance.consistent. rewrite Hp.
      destruct (EssentiaInstance.essentiaInstance s); tauto. }
    assert (EssentiaInstance.run more s = s) as Hrun.
    { clear Hc. induction more as [|e more IH]; [reflexivity|].
      change (EssentiaInstance.run (e :: more) s)
        with (EssentiaInstance.run more (EssentiaInstance.step s e)).
      rewrite (rejected_stays s id e Hi Hp). exact IH. }
    rewrite Hrun. split; [reflexivity|].
    unfold EssentiaInstance.getEssentiaInstance. rewrite Hi, Hp. reflexivity.
  - intros i Hi Hmore.
    assert (EssentiaInstance.run more s = s) as Hrun.
    { induction more as [|e more IH]; [reflexivity|].
      change (EssentiaInstance.run (e :: more) s)
        with (EssentiaInstance.run more (EssentiaInstance.step s e)).
      rewrite (instance_stays s i e Hc Hi).
      - apply IH. intros Hin. apply Hmore. right. exact Hin.
      - intros ->. apply Hmore. left. reflexivity. }
    rewrite Hrun. split; [reflexivity|].
    unfold EssentiaInstance.getEssentiaInstance. rewrite Hi. reflexivity.
Qed.

(** X22 on a load that fails and is then asked for, cleaned up and asked
    for again. *)
Lemma X22_settled_initialisation_is_final_witness :
  let s := EssentiaInstance.run [EssentiaInstance.Get; EssentiaInstance.Failed]
             EssentiaInstance.initial in
  let more := [EssentiaInstance.Get; EssentiaInstance.Cleanup;
               EssentiaInstance.Get] in
  EssentiaInstance.essentiaPromise s = Some (EssentiaInstance.Rejected 0)
  /\ EssentiaInstance.run more s = s
  /\ EssentiaInstance.getEssentiaInstance (EssentiaInstance.run more s)
     = (EssentiaInstance.ThePromise (EssentiaInstance.Rejected 0), s).
Proof.
  intros s more.
  assert (EssentiaInstance.essentiaPromise s = Some (EssentiaInstance.Rejected 0))
    as H by reflexivity.
  split; [exact H|].
  exact (proj1 (X22_settled_initialisation_is_final
                  [EssentiaInstance.Get; EssentiaInstance.Failed] more) 0%nat H).
Defined.

(** ** The Pixoo panel *)

Section Panel.

Lemma pick_range (random : nat -> Q) (k : nat) (n : Z) :
  (0 <= random k < 1)%Q -> 0 < n -> 0 <= Visualizer.pick random k n <= n - 1.
Proof.
  intros [H0 H1] Hn. unfold Visualizer.pick.
  assert (0 < inject_Z n)%Q as HnQ by (rewrite Zlt_Qlt in Hn; exact Hn).
  pose proof (Qfloor_le (random k * inject_Z n)) as Hle.
  set (x := inject_Z n) in *.
  assert (0 <= random k * x)%Q as Hlo
    by (apply Qmult_le_0_compat; [exact H0 | apply Qlt_le_weak, HnQ]).
  assert (random k * x < x)%Q as Hhi.
  { apply Qlt_le_trans with (1 * x)%Q;
      [apply Qmult_lt_compat_r; assumption | rewrite Qmult_1_l; apply Qle_refl]. }
  split.
  - change 0 with (Qfloor 0). apply Qfloor_resp_le, Hlo.
  - assert (Qfloor (random k * x) < n); [|lia].
    rewrite Zlt_Qlt. eapply Qle_lt_trans; [exact Hle | exact Hhi].
Qed.

Lemma scoreToColor_green (score : Q) :
  Visualizer.g (Visualizer.scoreToColor score) = 255 <-> (65 <= score)%Q.
Proof.
  unfold Visualizer.scoreToColor. destruct (JS.lt score 65) eqn:E.
  - apply lt_spec in E. cbn [Visualizer.g]. split; [|lra].
    intros H. pose proof (Qfloor_le (255 * (score / 65))) as Hle.
    rewrite H in Hle. change (score / 65)%Q with (score * (1 # 65))%Q in Hle.
    change (inject_Z 255) with 255%Q in Hle. lra.
  - apply lt_false in E. cbn [Visualizer.g]. tauto.
Qed.

Lemma scoreToColor_red (score : Q) :
  Visualizer.r (Visualizer.scoreToColor score) = 255 <-> (score <= 65)%Q.
Proof.
  unfold Visualizer.scoreToColor. destruct (JS.lt score 65) eqn:E.
  - apply lt_spec in E. cbn [Visualizer.r]. split; [lra | reflexivity].
  - apply lt_false in E. cbn [Visualizer.r].
    change ((score - 65) / 35)%Q with ((score - 65) * (1 # 35))%Q. split.
    + intros H. pose proof (Qfloor_le (255 * (1 - (score - 65) * (1 # 35)))) as Hle.
      rewrite H in Hle. change (inject_Z 255) with 255%Q in Hle. lra.
    + intros H. apply Z.le_antisymm.
      * apply (floor_between 0 255). change (inject_Z 255) with 255%Q.
        change (inject_Z 0) with 0%Q. split; lra.
      * apply (floor_between 255 256). change (inject_Z 255) with 255%Q.
        change (inject_Z 256) with 256%Q. split; lra.
Qed.

Lemma scoreToColor_channels (score : Q) :
  (0 <= score <= 100)%Q ->
  let c := Visualizer.scoreToColor score in
  Visualizer.channel (Visualizer.r c) /\ Visualizer.channel (Visualizer.g c)
  /\ Visualizer.channel (Visualizer.b c).
Proof.
  intros [H0 H1]. unfold Visualizer.scoreToColor, Visualizer.channel.
  destruct (JS.lt score 65) eqn:E; cbn [Visualizer.r Visualizer.g Visualizer.b].
  - apply lt_spec in E. change (score / 65)%Q with (score * (1 # 65))%Q.
    split; [lia|]. split; [|lia].
    apply (floor_between 0 255). change (inject_Z 255) with 255%Q.
    change (inject_Z 0) with 0%Q. split; lra.
  - apply lt_false in E.
    change ((score - 65) / 35)%Q with ((score - 65) * (1 # 35))%Q.
    split; [|lia].
    apply (floor_between 0 255). change (inject_Z 255) with 255%Q.
    change (inject_Z 0) with 0%Q. split; lra.
Qed.

Lemma spray_wellFormed (random : nat -> Q) :
  (forall k, (0 <= random k < 1)%Q) ->
  forall count k, Forall Visualizer.wellFormed (Visualizer.spray random count k).
Proof.
  intros Hr. induction count as [|count IH]; intros k; [constructor|].
  cbn [Visualizer.spray]. constructor; [|apply IH].
  pose proof (pick_range random k 63 (Hr _) eq_refl).
  pose proof (pick_range random (k + 1) 63 (Hr _) eq_refl).
  pose proof (pick_range random (k + 2) 256 (Hr _) eq_refl).
  pose proof (pick_range random (k + 3) 256 (Hr _) eq_refl).
  pose proof (pick_range random (k + 4) 256 (Hr _) eq_refl).
  cbn [Visualizer.wellFormed]. unfold Visualizer.onPanel, Visualizer.channel. lia.
Qed.

(** Replace every random pick of the goal by a number in its range. *)
Ltac bound_picks random Hr :=
  repeat match goal with
    | |- context [Visualizer.pick random ?k ?n] =>
        let H := fresh "Hpick" in
        pose proof (pick_range random k n (Hr k) eq_refl) as H;
        generalize dependent (Visualizer.pick random k n); intros
    end.

Lemma effects_wellFormed (random : nat -> Q) (k : nat) :
  (forall k, (0 <= random k < 1)%Q) ->
  Forall (fun calls => Forall Visualizer.wellFormed calls
                       /\ Visualizer.pushesOnceAtEnd calls = true)
    (Visualizer.effects random k).
Proof.
  intros Hr. unfold Visualizer.effects. cbv zeta.
  repeat apply Forall_cons_2; [..|apply Forall_nil_2];
    (split; [|reflexivity]).
  - bound_picks random Hr. repeat constructor;
      unfold Visualizer.onPanel, Visualizer.channel; lia.
  - bound_picks random Hr. repeat constructor;
      unfold Visualizer.onPanel, Visualizer.channel; lia.
  - cbn [map app]. bound_picks random Hr. repeat constructor;
      unfold Visualizer.onPanel, Visualizer.channel; lia.
  - apply Forall_app. split; [apply spray_wellFormed, Hr|].
    repeat constructor; unfold Visualizer.onPanel, Visualizer.channel; lia.
  - bound_picks random Hr. repeat constructor;
      unfold Visualizer.onPanel, Visualizer.channel; lia.
  - bound_picks random Hr. repeat constructor;
      unfold Visualizer.onPanel, Visualizer.channel; lia.
  - bound_picks random Hr. repeat constructor;
      unfold Visualizer.onPanel, Visualizer.channel; lia.
Qed.

End Panel.

(** X23.  For a score within 0..100 and any other metrics (negative,
    huge), every call [updateMetrics] issues stays on the 64 x 64 panel:
    bars that would be empty are not drawn, the others have their corners
    in order inside the panel, and all colour channels lie in 0..255.
    Only the last call of the batch pushes to the display.  A stopped
    visualizer issues nothing. *)
Theorem X23_metrics_display_stays_on_the_panel :
  forall metrics : Visualizer.AudioMetrics,
    (0 <= Visualizer.score metrics <= 100)%Q ->
    Forall Visualizer.wellFormed (Visualizer.updateMetrics true metrics)
    /\ Visualizer.pushesOnceAtEnd (Visualizer.updateMetrics true metrics) = true
    /\ Visualizer.updateMetrics false metrics = [].
Proof.
  intros metrics Hscore.
  pose proof (scoreToColor_channels _ Hscore) as (Hr & Hg & Hb).
  unfold Visualizer.updateMetrics. cbn [negb]. cbv zeta.
  set (bpmWidth := Z.min (Qfloor (Visualizer.bpm metrics / 200 * 64)) 64).
  set (energyHeight := Z.min (Qfloor (Visualizer.energy metrics / 100 * 64)) 64).
  set (danceHeight := Z.min (Qfloor (Visualizer.danceability metrics / 100 * 64)) 64).
  set (spectralWidth :=
         Z.min (Qfloor (Visualizer.spectralEnergy metrics / 100 * 64)) 64).
  assert (bpmWidth <= 64) by (subst bpmWidth; lia).
  assert (energyHeight <= 64) by (subst energyHeight; lia).
  assert (danceHeight <= 64) by (subst danceHeight; lia).
  assert (spectralWidth <= 64) by (subst spectralWidth; lia).
  split; [|split; [|reflexivity]].
  - apply Forall_app_2; [|apply Forall_app_2; [|apply Forall_app_2;
      [|apply Forall_app_2; [|apply Forall_app_2]]]].
    + repeat constructor; unfold Visualizer.channel in *; lia.
    + destruct (Z.ltb_spec 0 bpmWidth); repeat constructor;
        unfold Visualizer.onPanel, Visualizer.channel; lia.
    + destruct (Z.ltb_spec 0 energyHeight); repeat constructor;
        unfold Visualizer.onPanel, Visualizer.channel; lia.
    + destruct (Z.ltb_spec 0 danceHeight); repeat constructor;
        unfold Visualizer.onPanel, Visualizer.channel; lia.
    + destruct (Z.ltb_spec 0 spectralWidth); repeat constructor;
        unfold Visualizer.onPanel, Visualizer.channel; lia.
    + repeat constructor; unfold Visualizer.onPanel, Visualizer.channel; lia.
  - destruct (0 <? bpmWidth), (0 <? energyHeight), (0 <? danceHeight),
      (0 <? spectralWidth); reflexivity.
Qed.

(** X23 on the metrics of a 150 BPM track scored 70. *)
Lemma X23_metrics_display_stays_on_the_panel_witness :
  let metrics := {| Visualizer.bpm := 150; Visualizer.energy := 50;
                    Visualizer.score := 70; Visualizer.danceability := 0;
                    Visualizer.spectralEnergy := 250 |} in
  (0 <= Visualizer.score metrics <= 100)%Q
  /\ Forall Visualizer.wellFormed (Visualizer.updateMetrics true metrics).
Proof.
  intros metrics.
  assert (0 <= Visualizer.score metrics <= 100)%Q as H
    by (split; discriminate).
  split; [exact H|].
  exact (proj1 (X23_metrics_display_stays_on_the_panel metrics H)).
Defined.

(** X24.  After an analysis, the home page paints the panel with a
    colour that agrees with the verdict: the first call fills the screen
    with a colour whose green channel is full exactly when the verdict is
    ALREADY A BANGER and whose red channel is full exactly when the score
    is at most 65; blue is never used.  The colour threshold of the
    visualizer and the verdict threshold of the analysis are the same. *)
Theorem X24_background_colour_agrees_with_verdict :
  forall (log10 : Q -> Q) (rhythm : option Q) (energy rms : Q)
         (ZeroCrossingRate HFC Centroid : list Q -> Q) (audioData : list Q),
    let result := Banification.analyze log10 rhythm energy rms ZeroCrossingRate
                    HFC Centroid audioData in
    exists (red green : Z) (rest : list Visualizer.call),
      Visualizer.updateMetrics true (Visualizer.metricsOf result)
      = Visualizer.fillScreen red green 0 false :: rest
      /\ (green = 255 <-> Banification.verdict result = Banification.ALREADY_A_BANGER)
      /\ (red = 255 <-> (Banification.score result <= 65)%Q).
Proof.
  intros log10 rhythm energy rms ZCR HFC Centroid audioData result.
  exists (Visualizer.r (Visualizer.scoreToColor (Banification.score result))),
         (Visualizer.g (Visualizer.scoreToColor (Banification.score result))).
  eexists. split; [|split].
  - unfold Visualizer.updateMetrics. cbn [negb]. cbv zeta.
    cbn [Visualizer.score Visualizer.metricsOf app].
    f_equal. f_equal.
    unfold Visualizer.scoreToColor.
    destruct (JS.lt (Banification.score result) 65); reflexivity.
  - rewrite scoreToColor_green. subst result. unfold Banification.analyze.
    destruct (Banification.spectralOf HFC Centroid audioData) as [se sc].
    cbn [Banification.score Banification.verdict].
    unfold Banification.verdictOf.
    destruct (Qle_bool 65 _) eqn:E.
    + apply Qle_bool_iff in E. tauto.
    + split; [|discriminate]. intros Hle. apply Qle_bool_iff in Hle. congruence.
  - apply scoreToColor_red.
Qed.

(** X25.  Whatever [Math.random] returns in [0, 1), a beat always finds
    an effect to draw (the pick never leaves the table of seven), every
    call of the effect stays on the panel with its colour channels in
    0..255, and only the effect's last call pushes to the display. *)
Theorem X25_beat_effects_stay_on_the_panel :
  forall random : nat -> Q,
    (forall k, (0 <= random k < 1)%Q) ->
    exists calls,
      Visualizer.drawRandomBeatEffect random = Some calls
      /\ Forall Visualizer.wellFormed calls
      /\ Visualizer.pushesOnceAtEnd calls = true.
Proof.
  intros random Hr.
  pose proof (effects_wellFormed random 1 Hr) as Hall.
  unfold Visualizer.drawRandomBeatEffect.
  assert (length (Visualizer.effects random 1) = 7%nat) as Hlen by reflexivity.
  rewrite Hlen.
  pose proof (pick_range random 0 (Z.of_nat 7) (Hr _) eq_refl) as Hp.
  destruct (JS.get (Visualizer.effects random 1)
              (Visualizer.pick random 0 (Z.of_nat 7))) as [calls|] eqn:E.
  - exists calls. split; [reflexivity|].
    unfold JS.get in E. destruct (0 <=? _); [|discriminate].
    rewrite Forall_lookup in Hall. exact (Hall _ _ E).
  - apply get_None_iff in E. rewrite Hlen in E. lia.
Qed.

(** X25 when every random number is one half. *)
Lemma X25_beat_effects_stay_on_the_panel_witness :
  (0 <= (fun _ : nat => 1 # 2) 0%nat < 1)%Q
  /\ exists calls,
       Visualizer.drawRandomBeatEffect (fun _ => 1 # 2) = Some calls
       /\ Forall Visualizer.wellFormed calls
       /\ Visualizer.pushesOnceAtEnd calls = true.
Proof.
  assert (forall k : nat, (0 <= (fun _ : nat => 1 # 2) k < 1)%Q) as H
    by (intros k; split; [discriminate | reflexivity]).
  split; [exact (H 0%nat)|].
  exact (X25_beat_effects_stay_on_the_panel (fun _ => 1 # 2) H).
Defined.
